(** * RushTI: task-file parsing, batch splitting and batch execution

    A shallow embedding of [RushTI.py].

    - Python text is [string], over the code points 0..255; [str.lower],
      [str.strip], [str.split], [str.isdigit], [int] and [shlex.split] are
      those of Python on that range.
    - The dictionaries of parameters are [gmap]s; the registry of
      connections, which [logout] goes through in the order of insertion,
      is the list of its items in that order ([registry]).  The exceptions
      a function may raise are the [Raise] results of [result].
    - Log records and calls to TM1 are the events of a trace; what a call
      to TM1 gives is a parameter of the model ([execute], [connect],
      [tm1_logout]).
    - The loop of [work_through_tasks] is given twice: as a function
      ([run_line_sets]) that lists the events of the lines of a block in
      submission order, which is the order of the run with one worker and
      one of the possible orders with more; and as a step relation
      ([Pool.step]) in which the coroutine and the workers of the pool
      interleave; [Pool_facts.final_agrees] relates them.
    - The records that asyncio writes at the exit of the interpreter, for
      the futures whose exception nobody retrieved, close the trace of the
      script ([main]). *)

From Stdlib Require Import Ascii String NArith.
From stdpp Require Import base option list strings gmap relations.

Local Open Scope string_scope.
Local Open Scope list_scope.

(** ** Python text primitives used by the script *)

Module Py.

(** Code point of a character. *)
Definition ord (c : ascii) : N := N_of_ascii c.

(** [c in s] for a one-character [c]. *)
Fixpoint char_in (c : ascii) (s : string) : bool :=
  match s with
  | EmptyString => false
  | String d s' => Ascii.eqb c d || char_in c s'
  end.

(** [str.isspace] on one character (code points below 256). *)
Definition isspace (c : ascii) : bool :=
  let n := ord c in
  ((9 <=? n) && (n <=? 13) || (28 <=? n) && (n <=? 32)
   || (n =? 133) || (n =? 160))%N.

(** [str.lower] on one character: A-Z, and the upper-case letters of
    Latin-1 (U+00C0..U+00DE without the multiplication sign). *)
Definition lower_char (c : ascii) : ascii :=
  let n := ord c in
  if ((65 <=? n) && (n <=? 90)
      || (192 <=? n) && (n <=? 222) && negb (n =? 215))%N
  then ascii_of_N (n + 32) else c.

(** [s.lower()] *)
Fixpoint lower (s : string) : string :=
  match s with
  | EmptyString => EmptyString
  | String c s' => String (lower_char c) (lower s')
  end.

(** [s.lstrip(chars)], the characters to remove given as a predicate. *)
Fixpoint lstrip (p : ascii → bool) (s : string) : string :=
  match s with
  | EmptyString => EmptyString
  | String c s' => if p c then lstrip p s' else s
  end.

(** [s.rstrip(chars)] *)
Fixpoint rstrip (p : ascii → bool) (s : string) : string :=
  match s with
  | EmptyString => EmptyString
  | String c s' =>
      match rstrip p s' with
      | EmptyString => if p c then EmptyString else String c EmptyString
      | r => String c r
      end
  end.

(** [s.strip(chars)] *)
Definition strip_with (p : ascii → bool) (s : string) : string :=
  rstrip p (lstrip p s).

(** [s.strip()] *)
Definition strip (s : string) : string := strip_with isspace s.

(** [s.strip(chars)] for a string of characters to remove. *)
Definition strip_chars (chars : string) (s : string) : string :=
  strip_with (λ c, char_in c chars) s.

(** [s.split(sep)] for a one-character separator: never empty. *)
Fixpoint split (sep : ascii) (s : string) : list string :=
  match s with
  | EmptyString => [EmptyString]
  | String c s' =>
      if Ascii.eqb c sep then EmptyString :: split sep s'
      else match split sep s' with
           | h :: r => String c h :: r
           | [] => [String c EmptyString]
           end
  end.

(** [str.isdigit] on one character: 0-9 and the superscript digits
    U+00B2, U+00B3, U+00B9. *)
Definition isdigit_char (c : ascii) : bool :=
  let n := ord c in
  ((48 <=? n) && (n <=? 57) || (n =? 178) || (n =? 179) || (n =? 185))%N.

Fixpoint all_chars (p : ascii → bool) (s : string) : bool :=
  match s with
  | EmptyString => true
  | String c s' => p c && all_chars p s'
  end.

(** [s.isdigit()]: false on the empty string. *)
Definition isdigit (s : string) : bool :=
  match s with
  | EmptyString => false
  | _ => all_chars isdigit_char s
  end.

(** The line feed character and the one-character string of it. *)
Definition LF : string := String (ascii_of_N 10) EmptyString.

(** [str.isprintable] on one character (code points below 256): not a
    control character, nor U+00A0, nor U+00AD. *)
Definition isprintable (c : ascii) : bool :=
  let n := ord c in
  ((32 <=? n) && (n <? 127) || (161 <=? n) && negb (n =? 173))%N.

Definition hex_digit (n : N) : ascii :=
  if (n <? 10)%N then ascii_of_N (48 + n) else ascii_of_N (87 + n).

(** One character of [repr(s)], between quotes [quote]. *)
Definition repr_char (quote c : ascii) : string :=
  if Ascii.eqb c quote || Ascii.eqb c "\" then String "\" (String c EmptyString)
  else if (ord c =? 9)%N then "\t"
  else if (ord c =? 10)%N then "\n"
  else if (ord c =? 13)%N then "\r"
  else if isprintable c then String c EmptyString
  else String "\" (String "x" (String (hex_digit (ord c / 16))
                                 (String (hex_digit (ord c mod 16))
                                    EmptyString))).

Fixpoint repr_chars (quote : ascii) (s : string) : string :=
  match s with
  | EmptyString => EmptyString
  | String c s' => repr_char quote c +:+ repr_chars quote s'
  end.

(** [repr(s)]: between single quotes, unless [s] holds a single quote and
    no double quote. *)
Definition repr (s : string) : string :=
  let quote := if char_in "'" s && negb (char_in "034" s)
               then "034"%char else "'"%char in
  String quote (repr_chars quote s +:+ String quote EmptyString).

(** The first [n] characters of [s]: the precision of a format. *)
Fixpoint truncate (n : nat) (s : string) : string :=
  match n, s with
  | S n', String c s' => String c (truncate n' s')
  | _, _ => EmptyString
  end.

(** The decimal digits of [n], before [acc]; [fuel] bounds their number,
    as the number of the binary digits of [n] does. *)
Fixpoint decimal_digits (fuel : nat) (n : N) (acc : string) : string :=
  match fuel with
  | O => acc
  | S fuel' =>
      let acc' := String (ascii_of_N (48 + n mod 10)) acc in
      if (n <? 10)%N then acc' else decimal_digits fuel' (n / 10) acc'
  end.

(** [str(n)] for a natural number. *)
Definition str_of_nat (n : nat) : string :=
  decimal_digits (S (N.size_nat (N.of_nat n))) (N.of_nat n) EmptyString.

End Py.

(** ** Exceptions and results *)

(** The exceptions of the script and of the library functions it calls,
    and [Exception] for any other one, as a call to TM1 may raise, with
    its text. *)
Inductive exn : Type :=
  | ValueError (msg : string)
  | KeyError (key : string)
  | OSError (msg : string)
  | Exception (msg : string).

Inductive result (A : Type) : Type :=
  | Ok (a : A)
  | Raise (e : exn).
Arguments Ok {A} a.
Arguments Raise {A} e.

Definition result_bind {A B} (r : result A) (k : A → result B) : result B :=
  match r with
  | Ok a => k a
  | Raise e => Raise e
  end.

Definition is_Raise {A} (r : result A) : bool :=
  match r with
  | Ok _ => false
  | Raise _ => true
  end.

(** ** [shlex.split(line)]: POSIX mode, [whitespace_split], no commenters *)

Module Shlex.

Definition whitespace : string :=
  String " " (String (ascii_of_N 9) (String (ascii_of_N 13) Py.LF)).
Definition quotes : string := String "'" (String "034" EmptyString).
Definition escape : string := String "\" EmptyString.
Definition escapedquotes : string := String "034" EmptyString.

(** The values [self.state] takes: [' '], ['a'], a quote character, the
    escape character.  [None] (past the end) is the end of the input.
    In the [' '] state the test against [wordchars] is merged with the
    final [whitespace_split] branch, which does the same. *)
Inductive state : Type :=
  | In_space
  | In_word
  | In_quote (q : ascii)
  | In_escape (esc : ascii).

(** [state in self.quotes], for the test in the escape state. *)
Definition state_in_quotes (s : state) : bool :=
  match s with
  | In_quote q => Py.char_in q quotes
  | _ => false
  end.

Definition state_is_char (s : state) (c : ascii) : bool :=
  match s with
  | In_space => Ascii.eqb c " "
  | In_word => Ascii.eqb c "a"
  | In_quote q => Ascii.eqb c q
  | In_escape e => Ascii.eqb c e
  end.

Definition snoc (token : string) (c : ascii) : string :=
  token +:+ String c EmptyString.

Definition nonempty (s : string) : bool :=
  match s with
  | EmptyString => false
  | _ => true
  end.

(** [read_token] returns; the iterator of [split] stops at the first
    [None], which is an unquoted empty token. *)
Definition emit (quoted : bool) (token : string)
    (rest : result (list string)) : result (list string) :=
  if negb quoted && negb (nonempty token) then Ok []
  else result_bind rest (λ toks, Ok (token :: toks)).

(** The loop of [read_token], one character per iteration, chained over
    the successive calls made by the iterator: [st] is [self.state],
    [escapedstate], [quoted] and [token] are those of the running call. *)
Fixpoint lex (input : string) (st escapedstate : state) (quoted : bool)
    (token : string) : result (list string) :=
  match input with
  | EmptyString =>
      match st with
      | In_space | In_word => emit quoted token (Ok [])
      | In_quote _ => Raise (ValueError "No closing quotation")
      | In_escape _ => Raise (ValueError "No escaped character")
      end
  | String nextchar input' =>
      match st with
      | In_space =>
          if Py.char_in nextchar whitespace then
            if nonempty token || quoted
            then emit quoted token (lex input' In_space In_space false "")
            else lex input' In_space escapedstate quoted token
          else if Py.char_in nextchar escape then
            lex input' (In_escape nextchar) In_word quoted token
          else if Py.char_in nextchar quotes then
            lex input' (In_quote nextchar) escapedstate quoted token
          else
            lex input' In_word escapedstate quoted
                (String nextchar EmptyString)
      | In_quote q =>
          if Ascii.eqb nextchar q then
            lex input' In_word escapedstate true token
          else if Py.char_in nextchar escape && Py.char_in q escapedquotes
          then lex input' (In_escape nextchar) (In_quote q) true token
          else lex input' (In_quote q) escapedstate true (snoc token nextchar)
      | In_escape e =>
          let token :=
            if state_in_quotes escapedstate
               && negb (Ascii.eqb nextchar e)
               && negb (state_is_char escapedstate nextchar)
            then snoc token e else token in
          lex input' escapedstate escapedstate quoted (snoc token nextchar)
      | In_word =>
          if Py.char_in nextchar whitespace then
            if nonempty token || quoted
            then emit quoted token (lex input' In_space In_space false "")
            else lex input' In_space escapedstate quoted token
          else if Py.char_in nextchar quotes then
            lex input' (In_quote nextchar) escapedstate quoted token
          else if Py.char_in nextchar escape then
            lex input' (In_escape nextchar) In_word quoted token
          else
            lex input' In_word escapedstate quoted (snoc token nextchar)
      end
  end.

Definition split (s : string) : result (list string) :=
  lex s In_space In_space false "".

End Shlex.

(** ** Traces *)

Inductive level : Type := INFO | ERROR.

(** The records handed to [logging]: a plain text, or one constructor per
    format string that prints a list or a dictionary, carrying the values
    formatted into it; and the record of asyncio for a future that is
    discarded with an exception that was never retrieved. *)
Inductive message : Type :=
  | Msg_text (msg : string)
  | Msg_starts (app_name : string) (parameters : list string)
  | Msg_ends (app_name : string)
  | Msg_executing (process_name : string)
      (parameters : gmap string string) (instance_name : string)
  | Msg_successful (process_name : string)
      (parameters : gmap string string) (instance_name : string)
      (elapsed_time : N)
  | Msg_failed (process : string) (parameters : gmap string string)
      (error : string)
  | Msg_never_retrieved (e : exn).

(** What a run does to the outside: log records, the attempts to connect
    to an instance (the [try] of [setup_tm1_services]), the calls of
    [tm1.processes.execute] and the calls of [tm1.logout]. *)
Inductive event (handle : Type) : Type :=
  | Log (l : level) (m : message)
  | Connect (tm1_server_name : string)
  | Execute (tm1 : handle) (process_name : string)
      (parameters : gmap string string)
  | Logout (tm1 : handle).
Arguments Log {handle} l m.
Arguments Connect {handle} tm1_server_name.
Arguments Execute {handle} tm1 process_name parameters.
Arguments Logout {handle} tm1.

(** A computation that logs and calls out, and returns or raises. *)
Definition M (handle A : Type) : Type := (list (event handle) * result A)%type.

Definition ret {handle A} (a : A) : M handle A := ([], Ok a).
Definition raise {handle A} (e : exn) : M handle A := ([], Raise e).
Definition emit_event {handle} (ev : event handle) : M handle unit :=
  ([ev], Ok tt).
Definition lift {handle A} (r : result A) : M handle A := ([], r).

Definition bind {handle A B} (m : M handle A) (k : A → M handle B)
    : M handle B :=
  match m.2 with
  | Ok a => (m.1 ++ (k a).1, (k a).2)
  | Raise e => (m.1, Raise e)
  end.

(** [try: m finally: fin] *)
Definition try_finally {handle A} (m : M handle A) (fin : M handle unit)
    : M handle A :=
  (m.1 ++ fin.1,
   match fin.2 with
   | Ok _ => m.2
   | Raise e => Raise e
   end).

Notation "'do' x <- m ; k" := (bind m (λ x, k))
  (at level 10, x pattern, m at level 100, k at level 200,
   format "'[v' 'do'  x  <-  m ; '/' k ']'").
Notation "'run' m ; k" := (bind m (λ _, k))
  (at level 10, m at level 100, k at level 200,
   format "'[v' 'run'  m ; '/' k ']'").

(** ** The registry of connections *)

(** The dictionary from the names of the instances to their connections,
    as the list of its items in the order of insertion, which is the order
    of [d.values()].  A key comes once: [d[key] = value] replaces the value
    of a key that is there, where it is, and adds a new key at the end. *)
Definition registry (handle : Type) : Type := list (string * handle).

(** [d[key]], [None] when [key not in d]. *)
Fixpoint registry_lookup {handle} (key : string) (d : registry handle)
    : option handle :=
  match d with
  | [] => None
  | (k, v) :: d' => if String.eqb k key then Some v else registry_lookup key d'
  end.

(** [d[key] = value] *)
Fixpoint registry_insert {handle} (key : string) (value : handle)
    (d : registry handle) : registry handle :=
  match d with
  | [] => [(key, value)]
  | (k, v) :: d' =>
      if String.eqb k key then (k, value) :: d'
      else (k, v) :: registry_insert key value d'
  end.

Global Instance registry_lookup_instance {handle} :
  Lookup string handle (registry handle) := registry_lookup.
Global Instance registry_insert_instance {handle} :
  Insert string handle (registry handle) := registry_insert.
Global Instance registry_empty_instance {handle} :
  Empty (registry handle) := [].

(** [d.values()] *)
Definition registry_values {handle} (d : registry handle) : list handle :=
  d.*2.

(** ** [decrypt_password]: [b64decode] and [bytes.decode] *)

(** The password is a text of any code points, given as their list; the
    bytes are numbers below 256.  [b64decode] and the UTF-8 decoder are
    those of Python 3.11: [binascii.a2b_base64] without [strict_mode], and
    the strict decoder of [bytes.decode].

    How decoding a password can fail: the exceptions of [b64decode] (a
    [ValueError], a [binascii.Error]) and of [bytes.decode] (a
    [UnicodeDecodeError]), with what they carry. *)
Inductive decode_error : Type :=
  | Not_ascii                     (* ValueError: only ASCII characters *)
  | Data_characters (n : nat)     (* binascii.Error: number of data
                                     characters 1 more than a multiple of 4 *)
  | Incorrect_padding             (* binascii.Error *)
  | Invalid_start_byte (start : nat)            (* UnicodeDecodeError *)
  | Invalid_continuation_byte (start end_ : nat)
  | Unexpected_end_of_data (start end_ : nat).

Inductive decoded (A : Type) : Type :=
  | Decoded (a : A)
  | Failed (e : decode_error).
Arguments Decoded {A} a.
Arguments Failed {A} e.

Definition decoded_bind {A B} (d : decoded A) (k : A → decoded B)
    : decoded B :=
  match d with
  | Decoded a => k a
  | Failed e => Failed e
  end.

Module Base64.

Definition BASE64_PAD : N := 61.

(** [table_a2b_base64]: the value of a character of the alphabet. *)
Definition table_a2b_base64 (c : N) : option N :=
  if ((65 <=? c) && (c <=? 90))%N then Some (c - 65)%N
  else if ((97 <=? c) && (c <=? 122))%N then Some (c - 71)%N
  else if ((48 <=? c) && (c <=? 57))%N then Some (c + 4)%N
  else if (c =? 43)%N then Some 62%N
  else if (c =? 47)%N then Some 63%N
  else None.

(** One output byte: the assignment to an [unsigned char]. *)
Definition byte (n : N) : N := N.land n 255.

(** The loop of [binascii.a2b_base64] without [strict_mode]: [quad_pos],
    [leftchar] and [pads] are its variables, [n_out] the number of bytes
    put out so far. *)
Fixpoint a2b_loop (ascii_data : list N) (quad_pos : nat) (leftchar : N)
    (pads n_out : nat) : decoded (list N) :=
  match ascii_data with
  | [] =>
      match quad_pos with
      | 0%nat => Decoded []
      | 1%nat => Failed (Data_characters (n_out `div` 3 * 4 + 1))
      | _ => Failed Incorrect_padding
      end
  | this_ch :: ascii_data' =>
      if (this_ch =? BASE64_PAD)%N then
        if (2 <=? quad_pos)%nat then
          if (4 <=? quad_pos + S pads)%nat then Decoded []
          else a2b_loop ascii_data' quad_pos leftchar (S pads) n_out
        else a2b_loop ascii_data' quad_pos leftchar pads n_out
      else
        match table_a2b_base64 this_ch with
        | None => a2b_loop ascii_data' quad_pos leftchar pads n_out
        | Some this_ch =>
            match quad_pos with
            | 0%nat => a2b_loop ascii_data' 1 this_ch 0 n_out
            | 1%nat =>
                decoded_bind
                  (a2b_loop ascii_data' 2 (N.land this_ch 15) 0 (S n_out))
                  (λ out, Decoded
                     (byte (N.lor (N.shiftl leftchar 2) (N.shiftr this_ch 4))
                      :: out))
            | 2%nat =>
                decoded_bind
                  (a2b_loop ascii_data' 3 (N.land this_ch 3) 0 (S n_out))
                  (λ out, Decoded
                     (byte (N.lor (N.shiftl leftchar 4) (N.shiftr this_ch 2))
                      :: out))
            | _ =>
                decoded_bind (a2b_loop ascii_data' 0 0 0 (S n_out))
                  (λ out, Decoded
                     (byte (N.lor (N.shiftl leftchar 6) this_ch) :: out))
            end
        end
  end.

Definition a2b_base64 (data : list N) : decoded (list N) :=
  a2b_loop data 0 0 0 0.

(** [s.encode('ascii')] in [_bytes_from_decode_data]. *)
Fixpoint bytes_from_decode_data (s : string) : decoded (list N) :=
  match s with
  | EmptyString => Decoded []
  | String c s' =>
      if (Py.ord c <? 128)%N
      then decoded_bind (bytes_from_decode_data s')
             (λ bytes, Decoded (Py.ord c :: bytes))
      else Failed Not_ascii
  end.

(** [base64.b64decode(s)] *)
Definition b64decode (s : string) : decoded (list N) :=
  decoded_bind (bytes_from_decode_data s) a2b_base64.

(** [table_b2a_base64] *)
Definition table_b2a_base64 (v : N) : N :=
  if (v <? 26)%N then (v + 65)%N
  else if (v <? 52)%N then (v + 71)%N
  else if (v <? 62)%N then (v - 4)%N
  else if (v =? 62)%N then 43%N
  else 47%N.

(** [binascii.b2a_base64(data, newline=False)]: three bytes give four
    characters, a rest of one or two bytes is padded. *)
Fixpoint b2a_base64 (data : list N) : list N :=
  match data with
  | [] => []
  | [a] =>
      [table_b2a_base64 (N.shiftr a 2);
       table_b2a_base64 (N.shiftl (N.land a 3) 4);
       BASE64_PAD; BASE64_PAD]
  | [a; b] =>
      [table_b2a_base64 (N.shiftr a 2);
       table_b2a_base64 (N.lor (N.shiftl (N.land a 3) 4) (N.shiftr b 4));
       table_b2a_base64 (N.shiftl (N.land b 15) 2);
       BASE64_PAD]
  | a :: b :: c :: data' =>
      table_b2a_base64 (N.shiftr a 2)
      :: table_b2a_base64 (N.lor (N.shiftl (N.land a 3) 4) (N.shiftr b 4))
      :: table_b2a_base64 (N.lor (N.shiftl (N.land b 15) 2) (N.shiftr c 6))
      :: table_b2a_base64 (N.land c 63)
      :: b2a_base64 data'
  end.

End Base64.

Module Utf8.

Definition is_continuation (ch : N) : bool := ((128 <=? ch) && (ch <? 192))%N.

(** The bits of a continuation byte. *)
Definition low6 (ch : N) : N := N.land ch 63.

(** [bytes.decode('UTF-8')], strict: the code points, or the first error
    with its positions; [pos] is the index of the first byte of [s],
    [size] the length of the whole input. *)
Fixpoint utf8_decode (s : list N) (pos size : nat) : decoded (list N) :=
  let cons_point (cp : N) (rest : decoded (list N)) :=
    decoded_bind rest (λ out, Decoded (cp :: out)) in
  match s with
  | [] => Decoded []
  | ch :: s1 =>
      if (ch <? 128)%N then cons_point ch (utf8_decode s1 (S pos) size)
      else if (ch <? 224)%N then
        if (ch <? 194)%N then Failed (Invalid_start_byte pos)
        else
          match s1 with
          | [] => Failed (Unexpected_end_of_data pos size)
          | ch2 :: s2 =>
              if negb (is_continuation ch2)
              then Failed (Invalid_continuation_byte pos (pos + 1))
              else cons_point
                     (N.lor (N.shiftl (N.land ch 31) 6) (low6 ch2))
                     (utf8_decode s2 (pos + 2) size)
          end
      else if (ch <? 240)%N then
        match s1 with
        | [] => Failed (Unexpected_end_of_data pos size)
        | ch2 :: s2 =>
            if negb (is_continuation ch2)
               || (if (ch2 <? 160)%N then (ch =? 224)%N else (ch =? 237)%N)
            then Failed (Invalid_continuation_byte pos (pos + 1))
            else
              match s2 with
              | [] => Failed (Unexpected_end_of_data pos size)
              | ch3 :: s3 =>
                  if negb (is_continuation ch3)
                  then Failed (Invalid_continuation_byte pos (pos + 2))
                  else cons_point
                         (N.lor (N.shiftl (N.land ch 15) 12)
                            (N.lor (N.shiftl (low6 ch2) 6) (low6 ch3)))
                         (utf8_decode s3 (pos + 3) size)
              end
        end
      else if (ch <? 245)%N then
        match s1 with
        | [] => Failed (Unexpected_end_of_data pos size)
        | ch2 :: s2 =>
            if negb (is_continuation ch2)
               || (if (ch2 <? 144)%N then (ch =? 240)%N else (ch =? 244)%N)
            then Failed (Invalid_continuation_byte pos (pos + 1))
            else
              match s2 with
              | [] => Failed (Unexpected_end_of_data pos size)
              | ch3 :: s3 =>
                  if negb (is_continuation ch3)
                  then Failed (Invalid_continuation_byte pos (pos + 2))
                  else
                    match s3 with
                    | [] => Failed (Unexpected_end_of_data pos size)
                    | ch4 :: s4 =>
                        if negb (is_continuation ch4)
                        then Failed (Invalid_continuation_byte pos (pos + 3))
                        else cons_point
                               (N.lor (N.shiftl (N.land ch 7) 18)
                                  (N.lor (N.shiftl (low6 ch2) 12)
                                     (N.lor (N.shiftl (low6 ch3) 6)
                                        (low6 ch4))))
                               (utf8_decode s4 (pos + 4) size)
                    end
              end
        end
      else Failed (Invalid_start_byte pos)
  end.

Definition decode (s : list N) : decoded (list N) :=
  utf8_decode s 0 (length s).

(** [str.encode('utf-8')] of one code point that is not a surrogate. *)
Definition encode_point (cp : N) : list N :=
  if (cp <? 128)%N then [cp]
  else if (cp <? 2048)%N then
    [N.lor 192 (N.shiftr cp 6); N.lor 128 (N.land cp 63)]
  else if (cp <? 65536)%N then
    [N.lor 224 (N.shiftr cp 12); N.lor 128 (N.land (N.shiftr cp 6) 63);
     N.lor 128 (N.land cp 63)]
  else
    [N.lor 240 (N.shiftr cp 18); N.lor 128 (N.land (N.shiftr cp 12) 63);
     N.lor 128 (N.land (N.shiftr cp 6) 63); N.lor 128 (N.land cp 63)].

Definition encode (text : list N) : list N := text ≫= encode_point.

End Utf8.

(** [b64decode(encrypted_password).decode(UTF-8)]: the code points of the
    password. *)
Definition decrypt_password (encrypted_password : string) : decoded (list N) :=
  decoded_bind (Base64.b64decode encrypted_password) Utf8.decode.

(** The text with the code points [codes], each below 256. *)
Fixpoint text_of_codes (codes : list N) : string :=
  match codes with
  | [] => EmptyString
  | c :: codes' => String (ascii_of_N c) (text_of_codes codes')
  end.

(** [base64.b64encode(data).decode()] *)
Definition b64encode (data : list N) : string :=
  text_of_codes (Base64.b2a_base64 data).

(** ** [extract_info_from_line] *)

Definition dquote : string := String "034" EmptyString.

(** [value.strip(dquote).strip()] *)
Definition clean (value : string) : string :=
  Py.strip (Py.strip_chars dquote value).

(** [param.lower() == 'process' or param.lower() == 'instance'] *)
Definition is_required (param : string) : bool :=
  String.eqb (Py.lower param) "process"
  || String.eqb (Py.lower param) "instance".

(** The loop over the tokens, [parameters] being the dictionary built so
    far; [param, value = pair.split(=)] raises unless there are exactly two
    parts. *)
Fixpoint parse_pairs (pairs : list string) (parameters : gmap string string)
    : result (gmap string string) :=
  match pairs with
  | [] => Ok parameters
  | pair_ :: pairs' =>
      match Py.split "=" pair_ with
      | [param; value] =>
          if is_required param
          then parse_pairs pairs' (<[Py.lower param := clean value]> parameters)
          else parse_pairs pairs' (<[param := clean value]> parameters)
      | [_] =>
          Raise (ValueError "not enough values to unpack (expected 2, got 1)")
      | _ => Raise (ValueError "too many values to unpack (expected 2)")
      end
  end.

(** [d.pop(key)] *)
Definition pop (key : string) (d : gmap string string)
    : result (string * gmap string string) :=
  match d !! key with
  | Some v => Ok (v, delete key d)
  | None => Raise (KeyError key)
  end.

Definition extract_info_from_line (line : string)
    : result (string * string * gmap string string) :=
  result_bind (Shlex.split line) (λ pairs,
  result_bind (parse_pairs pairs ∅) (λ parameters,
  result_bind (pop "instance" parameters) (λ '(instance_name, parameters),
  result_bind (pop "process" parameters) (λ '(process_name, parameters),
  Ok (instance_name, process_name, parameters))))).

(** ** Splitting the lines into blocks *)

(** [itertools.groupby(l, key)] with each group made a list: the maximal
    runs of consecutive elements with equal key, with their key. *)
Fixpoint groupby {A} (key : A → bool) (l : list A) : list (bool * list A) :=
  match l with
  | [] => []
  | z :: l' =>
      match groupby key l' with
      | (x, y) :: groups =>
          if Bool.eqb (key z) x then (x, z :: y) :: groups
          else (key z, [z]) :: (x, y) :: groups
      | [] => [(key z, [z])]
      end
  end.

(** [z.lower().strip() == 'wait'] *)
Definition is_wait (z : string) : bool :=
  String.eqb (Py.strip (Py.lower z)) "wait".

(** [[list(y) for x, y in itertools.groupby(lines, ...) if not x]] *)
Definition line_sets (lines : list string) : list (list string) :=
  (filter (λ xy, xy.1 = false) (groupby is_wait lines)).*2.

(** [int(s)], as in Python 3.11: optional whitespace around an optional
    sign and decimal digits, which single underscores may separate; at
    most [int_max_str_digits] digits.  The whitespace of [int] is that of
    [str.isspace] without the separators U+001C to U+001F. *)
Definition is_decimal (c : ascii) : bool :=
  ((48 <=? Py.ord c) && (Py.ord c <=? 57))%N.

Definition int_space (c : ascii) : bool :=
  Py.isspace c && negb ((28 <=? Py.ord c) && (Py.ord c <=? 31))%N.

(** [sys.get_int_max_str_digits()], as the interpreter starts. *)
Definition int_max_str_digits : nat := 4300.

(** The scan of the digits and underscores at the head of [s]: the number
    they stand for after [acc], the number of digits after [ndigits], and
    what follows them.  [None] when there is no digit, or an underscore
    that no digit precedes or no digit follows. *)
Fixpoint int_scan (s : string) (acc : N) (ndigits : nat) (after_digit : bool)
    : option (N * nat * string) :=
  match s with
  | EmptyString => if after_digit then Some (acc, ndigits, s) else None
  | String c s' =>
      if is_decimal c
      then int_scan s' (10 * acc + (Py.ord c - 48))%N (S ndigits) true
      else if Ascii.eqb c "_"
      then (if after_digit then int_scan s' acc ndigits false else None)
      else if after_digit then Some (acc, ndigits, s) else None
  end.

(** The text of the [ValueError] for a string [s] that is no number: with
    at most 200 characters of [repr(s)]. *)
Definition invalid_literal (s : string) : string :=
  "invalid literal for int() with base 10: " +:+ Py.truncate 200 (Py.repr s).

(** The text of the [ValueError] for [ndigits] digits, too many. *)
Definition exceeds_limit (ndigits : nat) : string :=
  "Exceeds the limit (" +:+ Py.str_of_nat int_max_str_digits
  +:+ " digits) for integer string conversion: value has "
  +:+ Py.str_of_nat ndigits
  +:+ " digits; use sys.set_int_max_str_digits() to increase the limit".

(** The number after the sign, [s] being the whole argument: the limit is
    checked when the digits have been scanned, before what follows them
    is looked at. *)
Definition int_unsigned (s digits : string) : result N :=
  match int_scan digits 0 0 false with
  | None => Raise (ValueError (invalid_literal s))
  | Some (n, ndigits, rest) =>
      if (int_max_str_digits <? ndigits)%nat
      then Raise (ValueError (exceeds_limit ndigits))
      else match rest with
           | EmptyString => Ok n
           | _ => Raise (ValueError (invalid_literal s))
           end
  end.

Definition int (s : string) : result Z :=
  match Py.strip_with int_space s with
  | String "-" digits =>
      result_bind (int_unsigned s digits) (λ n, Ok (- Z.of_N n)%Z)
  | String "+" digits =>
      result_bind (int_unsigned s digits) (λ n, Ok (Z.of_N n))
  | digits => result_bind (int_unsigned s digits) (λ n, Ok (Z.of_N n))
  end.

Definition APPNAME : string := "RushTI".

(** ** Running lines, blocks and the whole script *)

Section Run.

(** A connected [TM1Service]. *)
Context {handle : Type}.

(** The call [tm1.processes.execute(process_name=..., **parameters)]
    followed by reading [response.elapsed]: the elapsed time, or the
    text [str(e)] of the [Exception] raised. *)
Variable execute : handle → string → gmap string string → N + string.

(** The body of the [try] of [setup_tm1_services] for one section of
    [config.ini]: decoding the password and connecting. *)
Variable connect : string → gmap string string → handle + string.

(** The call [tm1.logout()]: it returns, or raises. *)
Variable tm1_logout : handle → result unit.

(** The files there are, each with the list [file.readlines()] gives. *)
Variable files : gmap string (list string).

Variable CONFIG : string.

Abbreviation M := (M handle).
Abbreviation tm1_services_t := (registry handle).

Definition logging_info (m : message) : M unit := emit_event (Log INFO m).
Definition logging_error (m : message) : M unit := emit_event (Log ERROR m).

(** [config] is the list of the sections of [config.ini] other than the
    default one, [None] when the file does not exist. *)
Definition setup_tm1_services
    (config : option (list (string * gmap string string)))
    : M tm1_services_t :=
  match config with
  | None => raise (ValueError (CONFIG +:+ " does not exist."))
  | Some sections =>
      foldl (λ (acc : M tm1_services_t) '(tm1_server_name, params),
               do tm1_services <- acc;
               run emit_event (Connect tm1_server_name);
               match connect tm1_server_name params with
               | inl tm1 => ret (<[tm1_server_name := tm1]> tm1_services)
               | inr e =>
                   run logging_error
                         (Msg_text ("TM1 instance " +:+ tm1_server_name
                                    +:+ " not accessible. Error: " +:+ e));
                   ret tm1_services
               end)
            (ret ∅) sections
  end.

Definition execute_line (line : string) (tm1_services : tm1_services_t)
    : M unit :=
  if (String.length (Py.strip line) =? 0)%nat then ret tt
  else
    do (instance_name, process_name, parameters) <-
       lift (extract_info_from_line line);
    match tm1_services !! instance_name with
    | None =>
        logging_error
          (Msg_text ("Process " +:+ process_name +:+ " not executed on "
                     +:+ instance_name +:+ ". " +:+ instance_name
                     +:+ " not accessible."))
    | Some tm1 =>
        run logging_info
              (Msg_executing process_name parameters instance_name);
        run emit_event (Execute tm1 process_name parameters);
        match execute tm1 process_name parameters with
        | inl elapsed =>
            logging_info
              (Msg_successful process_name parameters instance_name elapsed)
        | inr error =>
            logging_error (Msg_failed process_name parameters error)
        end
    end.

(** [for future in futures: await future]: the first exception in list
    order is the one raised. *)
Fixpoint await_all (futures : list (result unit)) : result unit :=
  match futures with
  | [] => Ok tt
  | Ok _ :: futures' => await_all futures'
  | Raise e :: _ => Raise e
  end.

(** One turn of the loop of [work_through_tasks]: the [with] block.  The
    pool is made first; then every line of the block is submitted, and
    every submitted call runs, because leaving the block waits for the
    pool also when an awaited future raised.  The events of the calls
    are given in submission order.  With one worker that is the order of
    the run.  With more, the calls of a block run side by side and their
    records may come in another order (see [Pool] below for the
    scheduling): of the events of a block, what is stated for every number
    of workers is stated up to their order. *)
Definition run_line_set (max_workers : string) (line_set : list string)
    (tm1_services : tm1_services_t) : M unit :=
  do n <- lift (int max_workers);
  if (n <=? 0)%Z
  then raise (ValueError "max_workers must be greater than 0")
  else
    let futures := (λ line, execute_line line tm1_services) <$> line_set in
    (concat futures.*1, await_all futures.*2).

Fixpoint run_line_sets (max_workers : string)
    (line_sets : list (list string)) (tm1_services : tm1_services_t)
    : M unit :=
  match line_sets with
  | [] => ret tt
  | line_set :: line_sets' =>
      run run_line_set max_workers line_set tm1_services;
      run_line_sets max_workers line_sets' tm1_services
  end.

Definition work_through_tasks (path max_workers : string)
    (tm1_services : tm1_services_t) : M unit :=
  match files !! path with
  | None => raise (OSError "No such file or directory")
  | Some lines => run_line_sets max_workers (line_sets lines) tm1_services
  end.

(** The futures of a block whose exception nobody retrieves.  The loop
    awaits the futures in order and is left at the first that raised: the
    later ones that raised are never awaited. *)
Fixpoint never_retrieved (futures : list (result unit)) : list exn :=
  match futures with
  | [] => []
  | Ok _ :: futures' => never_retrieved futures'
  | Raise _ :: futures' =>
      omap (λ future : result unit,
              match future with
              | Ok _ => None
              | Raise e => Some e
              end) futures'
  end.

(** The futures of a block, with what the calls of its lines give; there
    is none when the pool could not be made. *)
Definition futures_of (max_workers : string) (line_set : list string)
    (tm1_services : tm1_services_t) : list (result unit) :=
  match int max_workers with
  | Ok n =>
      if (n <=? 0)%Z then []
      else (λ line, (execute_line line tm1_services).2) <$> line_set
  | Raise _ => []
  end.

(** The exceptions never retrieved that the loop leaves behind: those of
    the block it was left in, in the order of the lines. *)
Fixpoint abandoned (max_workers : string)
    (line_sets : list (list string)) (tm1_services : tm1_services_t)
    : list exn :=
  match line_sets with
  | [] => []
  | line_set :: line_sets' =>
      match (run_line_set max_workers line_set tm1_services).2 with
      | Ok _ => abandoned max_workers line_sets' tm1_services
      | Raise _ =>
          never_retrieved (futures_of max_workers line_set tm1_services)
      end
  end.

(** The loop over [tm1_services.values()], in the order of insertion; the
    first [tm1.logout()] that raises ends it. *)
Fixpoint logout_all (values : list handle) : M unit :=
  match values with
  | [] => ret tt
  | tm1 :: values' =>
      run emit_event (Logout tm1);
      run lift (tm1_logout tm1);
      logout_all values'
  end.

Definition logout (tm1_services : tm1_services_t) : M unit :=
  logout_all (registry_values tm1_services).

(** [os.path.isfile] *)
Definition isfile (path : string) : bool :=
  bool_decide (is_Some (files !! path)).

Definition translate_cmd_arguments (args : list string)
    : M (string * string) :=
  match args with
  | _ :: arg1 :: arg2 :: _ =>
      if negb (isfile arg1) then
        let msg := "Argument 1 (path to file) invalid. File needs to exist."
        in run logging_error (Msg_text msg); raise (ValueError msg)
      else if negb (Py.isdigit arg2) then
        let msg := "Argument 2 (max workers) invalid. Needs to be number."
        in run logging_error (Msg_text msg); raise (ValueError msg)
      else ret (arg1, arg2)
  | _ =>
      let msg := APPNAME +:+ " needs to be executed with two arguments."
      in run logging_error (Msg_text msg); raise (ValueError msg)
  end.

(** The part of the script after the registry is built. *)
Definition run_tasks (path_to_file max_workers : string)
    (tm1_services : tm1_services_t) : M unit :=
  try_finally (work_through_tasks path_to_file max_workers tm1_services)
              (logout tm1_services).

(** What the interpreter does once the script is over, by return or by
    exception: the futures are discarded, and for each one whose exception
    was never retrieved asyncio logs an error.  The list of the futures
    is discarded from its end, so that the records come in the reverse
    order of the lines; the exception that ends the script holds on to
    the futures until then. *)
Definition at_exit {A} (m : M A) (exceptions : list exn) : M A :=
  (m.1 ++ ((λ e, Log ERROR (Msg_never_retrieved e)) <$> reverse exceptions),
   m.2).

(** The exceptions never retrieved of the run of the file [path]. *)
Definition abandoned_in (path max_workers : string)
    (tm1_services : tm1_services_t) : list exn :=
  match files !! path with
  | None => []
  | Some lines => abandoned max_workers (line_sets lines) tm1_services
  end.

(** The script, for the command line [argv] and the contents [config] of
    [config.ini]. *)
Definition main (argv : list string)
    (config : option (list (string * gmap string string))) : M unit :=
  run logging_info (Msg_starts APPNAME argv);
  do (path_to_file, max_workers) <- translate_cmd_arguments argv;
  do tm1_services <- setup_tm1_services config;
  at_exit (run run_tasks path_to_file max_workers tm1_services;
           logging_info (Msg_ends APPNAME))
          (abandoned_in path_to_file max_workers tm1_services).

(** The events of the lines [lines], run one after the other. *)
Definition events_of (lines : list string) (tm1_services : registry handle)
    : list (event handle) :=
  concat ((λ line, (execute_line line tm1_services).1) <$> lines).

(** The line returns (it does not raise). *)
Definition returns (tm1_services : registry handle) (line : string)
    : Prop :=
  (execute_line line tm1_services).2 = Ok tt.

End Run.

(** ** Vocabulary of the properties *)

(** The number of maximal runs of consecutive elements of [l] that satisfy
    [p]; [inside] tells whether the element before [l] satisfies [p]. *)
Fixpoint runs_from {A} (p : A → bool) (inside : bool) (l : list A) : nat :=
  match l with
  | [] => 0
  | z :: l' =>
      if p z then (if inside then 0 else 1) + runs_from p true l'
      else runs_from p false l'
  end.

Definition count_runs {A} (p : A → bool) (l : list A) : nat :=
  runs_from p false l.

(** A line on which [execute_line] returns at once. *)
Definition is_blank (line : string) : bool :=
  (String.length (Py.strip line) =? 0)%nat.

(** The key a token's value is stored under. *)
Definition stored_key (param : string) : string :=
  if is_required param then Py.lower param else param.

(** Whether [param'] names the same entry as [param]: compared in lower
    case for [instance] and [process], as written otherwise. *)
Definition same_key (param param' : string) : bool :=
  if is_required param then String.eqb (Py.lower param') (Py.lower param)
  else String.eqb param' param.

Definition is_instance (param : string) : bool :=
  String.eqb (Py.lower param) "instance".
Definition is_process (param : string) : bool :=
  String.eqb (Py.lower param) "process".

(** The value of the last pair whose key satisfies [same]. *)
Fixpoint last_value (same : string → bool) (kvs : list (string * string))
    : option string :=
  match kvs with
  | [] => None
  | (k, v) :: kvs' =>
      match last_value same kvs' with
      | Some v' => Some v'
      | None => if same k then Some v else None
      end
  end.

(** A token of the form key=value, with its two parts. *)
Definition key_value (tok : string) (kv : string * string) : Prop :=
  Py.split "=" tok = [kv.1; kv.2].

Definition store (d : gmap string string) (kv : string * string)
    : gmap string string :=
  <[stored_key kv.1 := clean kv.2]> d.

(** A character the lexer appends to the token as it is. *)
Definition plain_char (c : ascii) : bool :=
  negb (Py.char_in c Shlex.whitespace) && negb (Py.char_in c Shlex.quotes)
  && negb (Py.char_in c Shlex.escape).

(** A character that stands for itself between quotes [q]: not the quote,
    and between double quotes not the escape character. *)
Definition quoted_char (q c : ascii) : bool :=
  negb (Ascii.eqb c q)
  && negb (Py.char_in c Shlex.escape && Py.char_in q Shlex.escapedquotes).

(** What may follow a token: the end of the line, or whitespace. *)
Definition token_end (rest : string) : bool :=
  match rest with
  | EmptyString => true
  | String ws _ => Py.char_in ws Shlex.whitespace
  end.

(** The tokens after the one that [rest] ends. *)
Definition rest_tokens (rest : string) : result (list string) :=
  match rest with
  | EmptyString => Ok []
  | String _ rest' => Shlex.split rest'
  end.

(** The text logged for a task whose instance is not in the registry. *)
Definition not_accessible (process_name instance_name : string) : string :=
  "Process " +:+ process_name +:+ " not executed on " +:+ instance_name
  +:+ ". " +:+ instance_name +:+ " not accessible.".

(** A token that is not of the form key=value. *)
Definition not_key_value (tok : string) : Prop :=
  length (Py.split "=" tok) ≠ 2.

(** The two kinds of malformed line: a token that is not key=value, or
    no [instance] or no [process] among the keys. *)
Definition malformed (toks : list string) : Prop :=
  Exists not_key_value toks
  ∨ ∃ kvs, Forall2 key_value toks kvs
           ∧ (last_value is_instance kvs = None
              ∨ last_value is_process kvs = None).

(** The value a parsed line holds for the key [param]. *)
Definition value_of (param : string)
    (parsed : string * string * gmap string string) : option string :=
  if is_instance param then Some parsed.1.1
  else if is_process param then Some parsed.1.2
  else parsed.2 !! param.

(** The connections on which [logout] calls [tm1.logout()]: those of
    [values] up to the first whose logout raises, that one included. *)
Fixpoint logged_out {handle : Type} (tm1_logout : handle → result unit)
    (values : list handle) : list handle :=
  match values with
  | [] => []
  | tm1 :: values' =>
      tm1 :: match tm1_logout tm1 with
             | Ok _ => logged_out tm1_logout values'
             | Raise _ => []
             end
  end.

(** The exception of the first logout that raises, if any. *)
Fixpoint first_raise {handle : Type} (tm1_logout : handle → result unit)
    (values : list handle) : result unit :=
  match values with
  | [] => Ok tt
  | tm1 :: values' =>
      match tm1_logout tm1 with
      | Ok _ => first_raise tm1_logout values'
      | Raise e => Raise e
      end
  end.

(** [trace] holds the events of the blocks [blocks], one block after the
    other, the events of the lines of a block in some order. *)
Definition block_by_block {handle : Type}
    (execute : handle → string → gmap string string → N + string)
    (tm1_services : registry handle) (blocks : list (list string))
    (trace : list (event handle)) : Prop :=
  ∃ traces,
    trace = concat traces
    ∧ Forall2 (λ t block, t ≡ₚ events_of execute block tm1_services)
        traces blocks.


(** The first and the last character of a string. *)
Definition first_char (s : string) : option ascii :=
  match s with
  | EmptyString => None
  | String c _ => Some c
  end.

Fixpoint last_char (s : string) : option ascii :=
  match s with
  | EmptyString => None
  | String c EmptyString => Some c
  | String _ s' => last_char s'
  end.

(** [s] neither starts nor ends with a character that satisfies [p]. *)
Definition trimmed (p : ascii → bool) (s : string) : Prop :=
  (∀ c, first_char s = Some c → p c = false)
  ∧ (∀ c, last_char s = Some c → p c = false).

Definition is_dquote (c : ascii) : bool := Ascii.eqb c "034".

(** ** Vocabulary of the further properties *)

(** The exceptions of the parser. *)
Definition parse_errors : list exn :=
  [ValueError "No closing quotation"; ValueError "No escaped character";
   ValueError "not enough values to unpack (expected 2, got 1)";
   ValueError "too many values to unpack (expected 2)";
   KeyError "instance"; KeyError "process"].

(** The digits 0 to 9 at the head of [s]. *)
Fixpoint decimal_prefix (s : string) : string :=
  match s with
  | EmptyString => EmptyString
  | String c s' =>
      if is_decimal c then String c (decimal_prefix s') else EmptyString
  end.

(** What follows the digits 0 to 9 at the head of [s]. *)
Fixpoint decimal_suffix (s : string) : string :=
  match s with
  | EmptyString => EmptyString
  | String c s' => if is_decimal c then decimal_suffix s' else s
  end.

(** The number a string of decimal digits stands for, after [acc]. *)
Fixpoint decimal (s : string) (acc : N) : N :=
  match s with
  | EmptyString => acc
  | String c s' => decimal s' (10 * acc + (Py.ord c - 48))%N
  end.

(** The registry after the sections [sections], from the registry
    [tm1_services]: each section that connects is entered under its name. *)
Definition connected {handle : Type}
    (connect : string → gmap string string → handle + string)
    (tm1_services : registry handle)
    (sections : list (string * gmap string string)) : registry handle :=
  foldl (λ s '(tm1_server_name, params),
           match connect tm1_server_name params with
           | inl tm1 => <[tm1_server_name := tm1]> s
           | inr _ => s
           end) tm1_services sections.

(** The connections made for the sections [sections], in their order. *)
Definition connections {handle : Type}
    (connect : string → gmap string string → handle + string)
    (sections : list (string * gmap string string)) : list handle :=
  omap (λ '(tm1_server_name, params),
          match connect tm1_server_name params with
          | inl tm1 => Some tm1
          | inr _ => None
          end) sections.

(** The connections a trace logs out of, in the order of the calls. *)
Definition logouts {handle : Type} (trace : list (event handle))
    : list handle :=
  omap (λ ev, match ev with
              | Logout tm1 => Some tm1
              | _ => None
              end) trace.

(** The events of one section: the attempt, and the error logged when it
    fails. *)
Definition section_events {handle : Type}
    (connect : string → gmap string string → handle + string)
    (section : string * gmap string string) : list (event handle) :=
  Connect section.1
  :: match connect section.1 section.2 with
     | inl _ => []
     | inr e => [Log ERROR (Msg_text ("TM1 instance " +:+ section.1
                                      +:+ " not accessible. Error: " +:+ e))]
     end.

(** A dictionary of stripped values, with no key that reads [instance]
    or [process] other than these two in lower case. *)
Definition stripped (d : gmap string string) : Prop :=
  (∀ k v, d !! k = Some v → Py.strip v = v)
  ∧ (∀ k, is_required k = true → is_Some (d !! k) →
          k = "instance" ∨ k = "process").

(** The number of occurrences of [c] in [s]. *)
Fixpoint count_char (c : ascii) (s : string) : nat :=
  match s with
  | EmptyString => 0
  | String d s' => (if Ascii.eqb d c then 1 else 0) + count_char c s'
  end.

(** [s] cut at every character that satisfies [sep]: never empty. *)
Fixpoint fields (sep : ascii → bool) (s : string) : list string :=
  match s with
  | EmptyString => [EmptyString]
  | String c s' =>
      if sep c then EmptyString :: fields sep s'
      else match fields sep s' with
           | h :: r => String c h :: r
           | [] => [String c EmptyString]
           end
  end.

(** Neither a quote nor the escape character. *)
Definition unquoted (c : ascii) : bool :=
  negb (Py.char_in c Shlex.quotes) && negb (Py.char_in c Shlex.escape).

Definition is_whitespace (c : ascii) : bool := Py.char_in c Shlex.whitespace.

(** A Unicode scalar value: a code point that is not a surrogate. *)
Definition scalar (cp : N) : Prop :=
  (cp < 55296 ∨ 57344 ≤ cp < 1114112)%N.

(** A character of the base64 alphabet, or the padding character. *)
Definition base64_char (c : N) : bool :=
  (c =? Base64.BASE64_PAD)%N || bool_decide (is_Some (Base64.table_a2b_base64 c)).

(** The base64 alphabet. *)
Definition alphabet (c : ascii) : bool :=
  bool_decide (is_Some (Base64.table_a2b_base64 (Py.ord c))).

(** ** The loop of [work_through_tasks] with its worker pool *)

Module Pool.

Local Open Scope nat_scope.

(** Where a call of [execute_line] made through the pool stands. *)
Inductive status : Type :=
  | Pending               (* not submitted *)
  | Queued                (* submitted, waiting for a worker *)
  | Running               (* a worker runs it *)
  | Done (raised : bool). (* its future has a result or an exception *)

Global Instance status_eq_dec : EqDecision status.
Proof. solve_decision. Defined.

(** Where the coroutine stands. *)
Inductive pc : Type :=
  | Creating (i : nat)           (* turn [i]: before the pool is made *)
  | Submitting (i k : nat)       (* [k] lines of block [i] submitted *)
  | Awaiting (i k : nat)         (* at [await] of future [k] of block [i] *)
  | Leaving (i : nat) (raised : bool) (* [shutdown(wait=True)] of pool [i] *)
  | Returned                     (* the loop is over *)
  | Refused (i : nat)            (* no pool for block [i]: raised *)
  | Aborted (i : nat).           (* raised out of the block of turn [i] *)

Record state : Type := State { at_pc : pc; table : list (list status) }.

Definition get (t : list (list status)) (i k : nat) : option status :=
  t !! i ≫= (.!! k).

Definition set (t : list (list status)) (i k : nat) (st : status)
    : list (list status) :=
  alter (<[k := st]>) i t.

Definition terminal (st : status) : Prop := ∃ raised, st = Done raised.

(** The number of busy workers of the pool of turn [i]. *)
Definition running (t : list (list status)) (i : nat) : nat :=
  length (filter (λ st, st = Running) (default [] (t !! i))).

Definition all_terminal (t : list (list status)) (i : nat) : Prop :=
  ∀ k st, get t i k = Some st → terminal st.

Section Steps.
Context {handle : Type}.
Variable execute : handle → string → gmap string string → N + string.
Variable tm1_services : registry handle.
Variable max_workers : string.
Variable blocks : list (list string).

Definition line_at (i k : nat) : option string := blocks !! i ≫= (.!! k).

Definition raises (line : string) : bool :=
  is_Raise (execute_line execute line tm1_services).2.

Definition init : state :=
  State (Creating 0)
        ((λ b : list string, (λ _ : string, Pending) <$> b) <$> blocks).

(** One move of the loop, by the coroutine or by a worker of the pool.
    - [step_return]: no block is left, the loop is over.
    - [step_refuse]: [int(max_workers)] raises or is not positive, and
      [ThreadPoolExecutor] raises.
    - [step_create]: the pool of the turn is made.
    - [step_submit]: [loop.run_in_executor] submits the next line.
    - [step_submitted]: the list of futures is complete.
    - [step_await_result], [step_await_raise]: [await future] goes on
      once the call is over, with its result or with its exception.
    - [step_await_end]: every future was awaited.
    - [step_leave], [step_leave_raise]: leaving the [with] block is
      [shutdown(wait=True)], which waits for every call of the pool.
    - [step_start]: with fewer than [max_workers] calls running, a worker
      takes the first call of the queue.
    - [step_finish]: a running call is over, with what [execute_line]
      gives on its line. *)
Inductive step : state → state → Prop :=
  | step_return t :
      step (State (Creating (length blocks)) t) (State Returned t)
  | step_refuse i t :
      i < length blocks →
      (∀ n, int max_workers = Ok n → (n ≤ 0)%Z) →
      step (State (Creating i) t) (State (Refused i) t)
  | step_create i n t :
      i < length blocks → int max_workers = Ok n → (0 < n)%Z →
      step (State (Creating i) t) (State (Submitting i 0) t)
  | step_submit i k t :
      get t i k = Some Pending →
      step (State (Submitting i k) t)
           (State (Submitting i (S k)) (set t i k Queued))
  | step_submitted i b t :
      blocks !! i = Some b →
      step (State (Submitting i (length b)) t) (State (Awaiting i 0) t)
  | step_await_result i k t :
      get t i k = Some (Done false) →
      step (State (Awaiting i k) t) (State (Awaiting i (S k)) t)
  | step_await_raise i k t :
      get t i k = Some (Done true) →
      step (State (Awaiting i k) t) (State (Leaving i true) t)
  | step_await_end i b t :
      blocks !! i = Some b →
      step (State (Awaiting i (length b)) t) (State (Leaving i false) t)
  | step_leave i t :
      all_terminal t i →
      step (State (Leaving i false) t) (State (Creating (S i)) t)
  | step_leave_raise i t :
      all_terminal t i →
      step (State (Leaving i true) t) (State (Aborted i) t)
  | step_start p i k n t :
      get t i k = Some Queued →
      (∀ j, j < k → get t i j ≠ Some Queued) →
      int max_workers = Ok n → (Z.of_nat (running t i) < n)%Z →
      step (State p t) (State p (set t i k Running))
  | step_finish p i k line t :
      get t i k = Some Running → line_at i k = Some line →
      step (State p t) (State p (set t i k (Done (raises line)))).

Definition reachable (s : state) : Prop := rtc step init s.

(** The [with] block of turn [i] has been left. *)
Definition left_block (p : pc) (i : nat) : Prop :=
  match p with
  | Creating j | Submitting j _ | Awaiting j _ | Leaving j _ | Refused j =>
      i < j
  | Aborted j => i ≤ j
  | Returned => True
  end.

Global Instance left_block_dec (p : pc) (i : nat) : Decision (left_block p i).
Proof. destruct p; simpl; apply _. Defined.

(** What the status of call [k] of block [i] can be at [p]. *)
Definition status_ok (p : pc) (i k : nat) (st : status) : Prop :=
  match p with
  | Creating j | Refused j => (i < j → terminal st) ∧ (j ≤ i → st = Pending)
  | Submitting j n =>
      (i < j → terminal st) ∧ (j < i → st = Pending)
      ∧ (i = j → n ≤ k → st = Pending) ∧ (i = j → k < n → st ≠ Pending)
  | Awaiting j _ | Leaving j _ =>
      (i < j → terminal st) ∧ (j < i → st = Pending) ∧ (i = j → st ≠ Pending)
  | Returned => terminal st
  | Aborted j => (i ≤ j → terminal st) ∧ (j < i → st = Pending)
  end.

(** A pool could be made. *)
Definition pool_ok : Prop := ∃ n, int max_workers = Ok n ∧ (0 < n)%Z.

(** Where the coroutine can be. *)
Definition pc_ok (p : pc) : Prop :=
  match p with
  | Creating i => i ≤ length blocks
  | Submitting i k | Awaiting i k =>
      pool_ok ∧ ∃ b, blocks !! i = Some b ∧ k ≤ length b
  | Leaving i _ => pool_ok ∧ i < length blocks
  | Returned | Refused _ | Aborted _ => True
  end.

Definition inv (s : state) : Prop :=
  (∀ i k, is_Some (get (table s) i k) ↔ is_Some (line_at i k))
  ∧ (∀ i k st, get (table s) i k = Some st → status_ok (at_pc s) i k st)
  ∧ pc_ok (at_pc s).

(** The coroutine has returned or raised. *)
Definition final (p : pc) : Prop :=
  match p with
  | Returned | Refused _ | Aborted _ => True
  | _ => False
  end.

Global Instance final_dec (p : pc) : Decision (final p).
Proof. destruct p; simpl; apply _. Defined.

(** Every call of block [i] has returned. *)
Definition clean_row (t : list (list status)) (i : nat) : Prop :=
  ∀ k st, get t i k = Some st → st = Done false.

(** What the calls that are over have given, and what the coroutine has
    seen of them: the blocks before the current one raised nothing; the
    futures awaited so far returned; the block is left raising when one
    of its calls raised. *)
Definition seen (s : state) : Prop :=
  (∀ i k r line,
     get (table s) i k = Some (Done r) → line_at i k = Some line →
     r = raises line)
  ∧ match at_pc s with
    | Creating j =>
        (∀ i, i < j → clean_row (table s) i) ∧ (0 < j → pool_ok)
    | Submitting j _ => ∀ i, i < j → clean_row (table s) i
    | Awaiting j n =>
        (∀ i, i < j → clean_row (table s) i)
        ∧ ∀ k, k < n → get (table s) j k = Some (Done false)
    | Leaving j false => ∀ i, i ≤ j → clean_row (table s) i
    | Leaving j true =>
        (∀ i, i < j → clean_row (table s) i)
        ∧ ∃ k, get (table s) j k = Some (Done true)
    | Aborted j =>
        pool_ok ∧ j < length blocks
        ∧ (∀ i, i < j → clean_row (table s) i)
        ∧ ∃ k, get (table s) j k = Some (Done true)
    | Returned => (blocks = [] ∨ pool_ok) ∧ ∀ i, clean_row (table s) i
    | Refused j =>
        j = 0 ∧ 0 < length blocks
        ∧ ∀ n, int max_workers = Ok n → (n ≤ 0)%Z
    end.

(** What is left to do: three moves for a call not yet submitted, two
    for a queued one, one for a running one; and the way the coroutine has
    to go, [period] being an upper bound of its moves in one turn. *)
Definition weight (st : status) : nat :=
  match st with
  | Pending => 3
  | Queued => 2
  | Running => 1
  | Done _ => 0
  end.

Definition work (t : list (list status)) : nat :=
  sum_list_with (sum_list_with weight) t.

Definition period : nat := sum_list_with length blocks + 4.

Definition position (p : pc) : nat :=
  match p with
  | Creating i => i * period
  | Submitting i _ => i * period + 1
  | Awaiting i k => i * period + 2 + k
  | Leaving i _ => i * period + 3 + sum_list_with length blocks
  | Returned | Refused _ | Aborted _ => S (length blocks) * period
  end.

Definition measure (s : state) : nat :=
  work (table s) + (S (length blocks) * period - position (at_pc s)).

End Steps.

End Pool.

(** ** A small run, to instantiate the properties *)

Module Demo.

Definition quoted (s : string) : string := dquote +:+ s +:+ dquote.

Definition task (instance_name process_name : string) : string :=
  "instance=" +:+ quoted instance_name +:+ " process=" +:+ quoted process_name
  +:+ Py.LF.

(** Two blocks: [P1] and [P2], a barrier, then [P3]. *)
Definition lines : list string :=
  [task "A" "P1"; task "A" "P2"; "wait" +:+ Py.LF; task "A" "P3"].

(** A line without [instance], a barrier, then [P2]. *)
Definition broken_lines : list string :=
  ["process=" +:+ quoted "P1" +:+ Py.LF; "wait" +:+ Py.LF; task "A" "P2"].

(** [P1], a barrier; then a block of [P3], a line without [instance],
    [P2] and a line without [process]; a barrier, then [P3]. *)
Definition faulty_lines : list string :=
  [task "A" "P1"; "wait" +:+ Py.LF;
   task "A" "P3"; "process=" +:+ quoted "P1" +:+ Py.LF; task "A" "P2";
   "instance=" +:+ quoted "A" +:+ Py.LF; "wait" +:+ Py.LF;
   task "A" "P3"].

Definition files : gmap string (list string) :=
  {[ "tasks.txt" := lines; "broken.txt" := broken_lines;
     "faulty.txt" := faulty_lines ]}.

(** Connections are numbered; instance [A] is connected. *)
Definition tm1_services : registry nat := [("A", 7)].

(** Every logout returns. *)
Definition tm1_logout (tm1 : nat) : result unit := Ok tt.

(** Two connections, [B] entered before [A], and a logout that raises on
    the connection of [B]. *)
Definition two_services : registry nat := [("B", 8); ("A", 7)].

Definition failing_logout (tm1 : nat) : result unit :=
  if (tm1 =? 8)%nat then Raise (Exception "logout failed") else Ok tt.

(** Both instances are connected. *)
Definition connect_both (tm1_server_name : string)
    (params : gmap string string) : nat + string :=
  if String.eqb tm1_server_name "B" then inl 8 else inl 7.

(** [P2] fails, the other processes take five units of time. *)
Definition execute (tm1 : nat) (process_name : string)
    (parameters : gmap string string) : N + string :=
  if String.eqb process_name "P2" then inr "P2 failed" else inl 5%N.

Definition connect (tm1_server_name : string)
    (params : gmap string string) : nat + string :=
  if String.eqb tm1_server_name "A" then inl 7 else inr "unreachable".

Definition config : option (list (string * gmap string string)) :=
  Some [("A", ∅); ("B", ∅)].

End Demo.

(** More values to instantiate the properties. *)

(** The superscript two, alone. *)
Definition superscript_two : string := String (ascii_of_N 178) EmptyString.

(** The digit one, 4301 times. *)
Definition many_ones : string :=
  string_of_list_ascii (replicate 4301 "1"%char).

(** The text of U+0050, U+00E9, U+20AC and U+1F600. *)
Definition some_password : list N := [80; 233; 8364; 128512]%N.

(** * Properties *)

(** ** The splitter *)

Section Groupby.
Context {A : Type} (key : A → bool).

Lemma groupby_head (l : list A) :
  match groupby key l, l with
  | [], [] => True
  | (x, y) :: _, z :: _ => x = key z ∧ ∃ y', y = z :: y'
  | _, _ => False
  end.
Proof.
  destruct l as [|z l]; simpl; [done|].
  destruct (groupby key l) as [|[x y] gs]; [eauto|].
  destruct (Bool.eqb (key z) x) eqn:E; [|eauto].
  apply Bool.eqb_prop in E. eauto.
Qed.

Lemma groupby_concat (l : list A) : concat (groupby key l).*2 = l.
Proof.
  induction l as [|z l IH]; simpl; [done|].
  destruct (groupby key l) as [|[x y] gs]; simpl in *; [by subst|].
  destruct (Bool.eqb (key z) x); simpl; by rewrite IH.
Qed.

Lemma groupby_groups (l : list A) :
  Forall (λ xy, xy.2 ≠ [] ∧ Forall (λ z, key z = xy.1) xy.2) (groupby key l).
Proof.
  induction l as [|z l IH]; simpl; [constructor|].
  destruct (groupby key l) as [|[x y] gs].
  { repeat constructor. done. }
  destruct (Bool.eqb (key z) x) eqn:E.
  - apply Bool.eqb_prop in E. inversion IH as [|?? [_ Hy] Hgs]; subst.
    constructor; [|done]. simpl in *. split; [done|]. by constructor.
  - constructor; [|done]. simpl. split; [done|]. by repeat constructor.
Qed.

End Groupby.

(** The blocks of [z :: l], from those of [l]. *)
Lemma line_sets_cons_wait (z : string) (l : list string) :
  is_wait z = true → line_sets (z :: l) = line_sets l.
Proof.
  intros Hz. unfold line_sets. simpl. rewrite Hz.
  destruct (groupby is_wait l) as [|[x y] gs] eqn:E; [done|].
  destruct x; simpl; by rewrite ?filter_cons.
Qed.

Lemma line_sets_cons_open (z : string) (l : list string) :
  is_wait z = false →
  match l with [] => True | b :: _ => is_wait b = true end →
  line_sets (z :: l) = [z] :: line_sets l.
Proof.
  intros Hz Hl. unfold line_sets. simpl. rewrite Hz.
  pose proof (groupby_head is_wait l) as Hh.
  destruct (groupby is_wait l) as [|[x y] gs] eqn:E; [done|].
  destruct l as [|b l']; [done|]. destruct Hh as [-> _]. rewrite Hl. simpl.
  by rewrite ?filter_cons.
Qed.

Lemma line_sets_cons_join (z b : string) (l : list string) :
  is_wait z = false → is_wait b = false →
  ∃ g gs, line_sets (b :: l) = g :: gs
          ∧ line_sets (z :: b :: l) = (z :: g) :: gs.
Proof.
  intros Hz Hb. unfold line_sets.
  pose proof (groupby_head is_wait (b :: l)) as Hh.
  change (groupby is_wait (z :: b :: l)) with
    (match groupby is_wait (b :: l) with
     | (x, y) :: groups =>
         if Bool.eqb (is_wait z) x then (x, z :: y) :: groups
         else (is_wait z, [z]) :: (x, y) :: groups
     | [] => [(is_wait z, [z])]
     end).
  destruct (groupby is_wait (b :: l)) as [|[x y] gs]; [done|].
  destruct Hh as [-> _]. rewrite Hz, Hb. simpl.
  rewrite ?filter_cons. simpl. eauto.
Qed.

Lemma line_sets_nil : line_sets [] = [].
Proof. reflexivity. Qed.

(** A barrier line ends the block before it and starts a new one. *)
Lemma line_sets_barrier (l1 l2 : list string) (z : string) :
  is_wait z = true → line_sets (l1 ++ z :: l2) = line_sets l1 ++ line_sets l2.
Proof.
  intros Hz. induction l1 as [|a l1 IH].
  { by apply line_sets_cons_wait. }
  rewrite <- app_comm_cons. destruct (is_wait a) eqn:Ha.
  { by rewrite !line_sets_cons_wait. }
  destruct l1 as [|b l1].
  { simpl app in *.
    rewrite (line_sets_cons_open a (z :: l2)), (line_sets_cons_open a [])
      by done.
    by rewrite <- IH. }
  rewrite <- app_comm_cons in *. destruct (is_wait b) eqn:Hb.
  { rewrite (line_sets_cons_open a (b :: l1 ++ z :: l2)),
      (line_sets_cons_open a (b :: l1)) by done.
    by rewrite IH. }
  destruct (line_sets_cons_join a b l1 Ha Hb) as (g & gs & E1 & E2).
  destruct (line_sets_cons_join a b (l1 ++ z :: l2) Ha Hb)
    as (g' & gs' & E1' & E2').
  rewrite E2, E2'. rewrite IH, E1 in E1'. simpl in E1'. by simplify_eq.
Qed.

(** Lines without a barrier among them are one block. *)
Lemma line_sets_run (l : list string) :
  l ≠ [] → Forall (λ z, is_wait z = false) l → line_sets l = [l].
Proof.
  induction l as [|a l IH]; [done|]. intros _ Hl.
  inversion Hl as [|?? Ha Hl']; subst.
  destruct l as [|b l]; [by rewrite line_sets_cons_open|].
  inversion Hl' as [|?? Hb _]; subst.
  destruct (line_sets_cons_join a b l Ha Hb) as (g & gs & E1 & E2).
  rewrite IH in E1 by done. by simplify_eq.
Qed.

Lemma line_sets_concat (lines : list string) :
  concat (line_sets lines) = filter (λ z, is_wait z = false) lines.
Proof.
  induction lines as [|a l IH]; [done|].
  rewrite filter_cons. destruct (is_wait a) eqn:Ha.
  { rewrite line_sets_cons_wait by done. by rewrite decide_False. }
  rewrite decide_True by done. rewrite <- IH.
  destruct l as [|b l]; [by rewrite line_sets_cons_open|].
  destruct (is_wait b) eqn:Hb; [by rewrite line_sets_cons_open|].
  destruct (line_sets_cons_join a b l Ha Hb) as (g & gs & E1 & E2).
  by rewrite E1, E2.
Qed.

Lemma line_sets_groups (lines : list string) :
  Forall (λ g, g ≠ [] ∧ Forall (λ z, is_wait z = false) g) (line_sets lines).
Proof.
  unfold line_sets. apply Forall_fmap, Forall_forall.
  intros [x y] Hin. apply list_elem_of_filter in Hin as [Hx Hin].
  pose proof (groupby_groups is_wait lines) as Hg.
  rewrite Forall_forall in Hg. specialize (Hg _ Hin). simpl in *. by subst.
Qed.

Lemma runs_from_inside {A} (p : A → bool) (l : list A) :
  runs_from p false l =
  runs_from p true l
  + match l with [] => 0 | z :: _ => if p z then 1 else 0 end.
Proof. destruct l as [|z l]; simpl; [done|]. destruct (p z); lia. Qed.

Lemma line_sets_length (lines : list string) :
  length (line_sets lines) = count_runs (λ z, negb (is_wait z)) lines.
Proof.
  unfold count_runs. induction lines as [|a l IH]; [done|]. simpl.
  destruct (is_wait a) eqn:Ha; simpl.
  { by rewrite line_sets_cons_wait. }
  rewrite runs_from_inside in IH.
  destruct l as [|b l]; [by rewrite line_sets_cons_open|].
  destruct (is_wait b) eqn:Hb.
  { rewrite line_sets_cons_open by done. simpl in *. rewrite Hb in *.
    simpl in *. lia. }
  destruct (line_sets_cons_join a b l Ha Hb) as (g & gs & E1 & E2).
  rewrite E2. rewrite E1 in IH. simpl in *. rewrite Hb in *. simpl in *. lia.
Qed.

(** C3, as amended: the number of blocks is the number of maximal runs of
    lines that are not barrier lines, blank lines counting as lines of a
    run like any other; every block is a non-empty list of lines, none of
    them a barrier line. *)
Theorem C3_line_sets_count (lines : list string) :
  length (line_sets lines) = count_runs (λ z, negb (is_wait z)) lines
  ∧ Forall (λ g, g ≠ [] ∧ Forall (λ z, is_wait z = false) g)
      (line_sets lines).
Proof. split; [apply line_sets_length | apply line_sets_groups]. Qed.

(** C3, as stated, fails: a blank line between two barrier lines is a
    block of its own, where there is no run of lines that are neither
    barrier nor blank. *)
Lemma C3_blank_between_barriers :
  let lines := ["wait" +:+ Py.LF; Py.LF; "wait" +:+ Py.LF] in
  line_sets lines = [[Py.LF]]
  ∧ count_runs (λ z, negb (is_wait z) && negb (is_blank z)) lines = 0
  ∧ length (line_sets lines)
    ≠ count_runs (λ z, negb (is_wait z) && negb (is_blank z)) lines.
Proof. vm_compute. repeat split; congruence. Qed.

(** Lower-casing and stripping whitespace commute. *)
Lemma isspace_lower_char (c : ascii) :
  Py.isspace (Py.lower_char c) = Py.isspace c.
Proof. by destruct c as [[] [] [] [] [] [] [] []]. Qed.

Lemma lower_lstrip (s : string) :
  Py.lower (Py.lstrip Py.isspace s) = Py.lstrip Py.isspace (Py.lower s).
Proof.
  induction s as [|c s IH]; [done|]. simpl. rewrite isspace_lower_char.
  by destruct (Py.isspace c).
Qed.

Lemma lower_rstrip (s : string) :
  Py.lower (Py.rstrip Py.isspace s) = Py.rstrip Py.isspace (Py.lower s).
Proof.
  induction s as [|c s IH]; [done|]. simpl. rewrite <- IH, isspace_lower_char.
  destruct (Py.rstrip Py.isspace s); [|done]. simpl.
  by destruct (Py.isspace c).
Qed.

Lemma lower_strip (s : string) :
  Py.lower (Py.strip s) = Py.strip (Py.lower s).
Proof.
  unfold Py.strip, Py.strip_with. by rewrite lower_rstrip, lower_lstrip.
Qed.

(** C4: the lines dropped by the splitter are those whose stripped,
    lower-cased text is [wait], stripping and lower-casing taken in either
    order, as [WAIT] and [ wait ] are; such a line is in no block and
    closes the block before it, so that barriers in a row or at either end
    add no block; no block is empty; the blocks, in order, are the other
    lines in file order. *)
Theorem C4_barrier_lines :
  (∀ lines z, z ∈ concat (line_sets lines)
              ↔ z ∈ lines ∧ Py.lower (Py.strip z) ≠ "wait")
  ∧ (∀ z, Py.lower (Py.strip z) = Py.strip (Py.lower z))
  ∧ (∀ l1 z l2, Py.lower (Py.strip z) = "wait" →
       line_sets (l1 ++ z :: l2) = line_sets l1 ++ line_sets l2)
  ∧ (∀ l, l ≠ [] → (∀ z, z ∈ l → Py.lower (Py.strip z) ≠ "wait") →
       line_sets l = [l])
  ∧ is_wait ("WAIT" +:+ Py.LF) = true ∧ is_wait " wait " = true
  ∧ (∀ l1 z1 z2 l2, Py.lower (Py.strip z1) = "wait" →
       Py.lower (Py.strip z2) = "wait" →
       line_sets (l1 ++ z1 :: z2 :: l2) = line_sets (l1 ++ z1 :: l2))
  ∧ (∀ lines, [] ∉ line_sets lines)
  ∧ (∀ lines, concat (line_sets lines)
              = filter (λ z, Py.lower (Py.strip z) ≠ "wait") lines).
Proof.
  assert (Hw : ∀ z, is_wait z = true ↔ Py.lower (Py.strip z) = "wait").
  { intros z. unfold is_wait. rewrite lower_strip. apply String.eqb_eq. }
  assert (Hn : ∀ z, is_wait z = false ↔ Py.lower (Py.strip z) ≠ "wait").
  { intros z. rewrite <- Hw. by destruct (is_wait z). }
  assert (Hc : ∀ lines, concat (line_sets lines)
                = filter (λ z, Py.lower (Py.strip z) ≠ "wait") lines).
  { intros lines. rewrite line_sets_concat. apply list_filter_iff, Hn. }
  split_and!.
  - intros lines z. rewrite Hc, list_elem_of_filter. tauto.
  - apply lower_strip.
  - intros l1 z l2 Hz. apply line_sets_barrier. by apply Hw.
  - intros l Hl Hall. apply line_sets_run; [done|].
    apply Forall_forall. intros z Hz. by apply Hn, Hall.
  - by vm_compute.
  - by vm_compute.
  - intros l1 z1 z2 l2 H1 H2.
    rewrite !line_sets_barrier by by apply Hw.
    by rewrite line_sets_cons_wait by by apply Hw.
  - intros lines Hin. pose proof (line_sets_groups lines) as Hg.
    rewrite Forall_forall in Hg. by destruct (Hg _ Hin).
  - apply Hc.
Qed.

Lemma C4_barrier_lines_witness :
  line_sets ([Demo.task "A" "P1"] ++ " Wait " :: [Demo.task "A" "P2"])
  = line_sets [Demo.task "A" "P1"] ++ line_sets [Demo.task "A" "P2"]
  ∧ line_sets ([Demo.task "A" "P1"] ++ "wait" :: "WAIT" :: [])
    = line_sets ([Demo.task "A" "P1"] ++ "wait" :: []).
Proof.
  destruct C4_barrier_lines as (_ & _ & Hsplit & _ & _ & _ & Htwo & _).
  split.
  - apply Hsplit. by vm_compute.
  - apply Htwo; by vm_compute.
Defined.

(** ** The line parser *)

Lemma parse_pairs_cons (tok : string) (kv : string * string)
    (toks : list string) (d : gmap string string) :
  key_value tok kv → parse_pairs (tok :: toks) d = parse_pairs toks (store d kv).
Proof.
  unfold key_value, store, stored_key. intros E. simpl. rewrite E.
  by destruct (is_required kv.1).
Qed.

Lemma parse_pairs_key_values (toks : list string)
    (kvs : list (string * string)) (d : gmap string string) :
  Forall2 key_value toks kvs → parse_pairs toks d = Ok (foldl store d kvs).
Proof.
  intros H. revert d. induction H as [|tok kv toks kvs Hkv _ IH]; intros d.
  { done. }
  rewrite (parse_pairs_cons tok kv) by done. apply IH.
Qed.

Lemma parse_pairs_app (toks toks' : list string) (d : gmap string string) :
  parse_pairs (toks ++ toks') d
  = result_bind (parse_pairs toks d) (parse_pairs toks').
Proof.
  revert d. induction toks as [|tok toks IH]; intros d; [done|]. simpl.
  destruct (Py.split "=" tok) as [|? [|? [|? ?]]]; try done.
  destruct (is_required _); apply IH.
Qed.

(** A later token for the same entry makes an earlier value irrelevant. *)
Lemma parse_pairs_shadow (toks toks' : list string) (tok : string)
    (kv : string * string) (K x : string) (d : gmap string string) :
  key_value tok kv → stored_key kv.1 = K →
  parse_pairs (toks ++ tok :: toks') (<[K := x]> d)
  = parse_pairs (toks ++ tok :: toks') d.
Proof.
  intros Hkv HK. revert d. induction toks as [|t toks IH]; intros d.
  { simpl app. rewrite !(parse_pairs_cons tok kv) by done. unfold store.
    by rewrite HK, insert_insert_eq. }
  simpl. destruct (Py.split "=" t) as [|k [|v [|? ?]]]; try done.
  assert (∀ K' y, parse_pairs (toks ++ tok :: toks') (<[K' := y]> (<[K := x]> d))
                  = parse_pairs (toks ++ tok :: toks') (<[K' := y]> d)) as Hs.
  { intros K' y. destruct (decide (K' = K)) as [->|Hne].
    - by rewrite insert_insert_eq.
    - rewrite insert_insert_ne by done. apply IH. }
  destruct (is_required k); apply Hs.
Qed.

Lemma lower_required (k : string) :
  is_required k = true → is_required (Py.lower k) = true ∧
                         Py.lower (Py.lower k) = Py.lower k.
Proof.
  unfold is_required. intros H. apply orb_true_iff in H as [H|H];
    apply String.eqb_eq in H; rewrite H; by vm_compute.
Qed.

Lemma stored_key_same (k k' : string) :
  same_key k k' = true → stored_key k' = stored_key k.
Proof.
  unfold same_key, stored_key. destruct (is_required k) eqn:Hk.
  - intros E. apply String.eqb_eq in E.
    assert (is_required k' = true) as ->; [|done].
    unfold is_required in *. by rewrite E.
  - intros E. apply String.eqb_eq in E. subst. by rewrite Hk.
Qed.

Lemma stored_key_instance (k : string) :
  stored_key k = "instance" ↔ is_instance k = true.
Proof.
  unfold stored_key, is_instance, is_required. rewrite String.eqb_eq.
  destruct (String.eqb (Py.lower k) "process") eqn:E1; simpl.
  { done. }
  destruct (String.eqb (Py.lower k) "instance") eqn:E2.
  { done. }
  apply String.eqb_neq in E2. split; [|done]. intros ->. by vm_compute in E2.
Qed.

Lemma stored_key_process (k : string) :
  stored_key k = "process" ↔ is_process k = true.
Proof.
  unfold stored_key, is_process, is_required. rewrite String.eqb_eq.
  destruct (String.eqb (Py.lower k) "process") eqn:E1; simpl.
  { done. }
  apply String.eqb_neq in E1.
  destruct (String.eqb (Py.lower k) "instance") eqn:E2.
  { apply String.eqb_eq in E2. rewrite E2. done. }
  split; [|done]. intros ->. by vm_compute in E1.
Qed.

Lemma stored_key_other (k k' : string) :
  is_required k = false → stored_key k' = k ↔ k' = k.
Proof.
  intros Hk. unfold stored_key. destruct (is_required k') eqn:Hk'; [|done].
  split.
  - intros E. apply lower_required in Hk' as [Hr _]. congruence.
  - intros ->. congruence.
Qed.

(** Looking a key up in the dictionary the loop builds. *)
Lemma lookup_foldl_store (kvs : list (string * string))
    (d : gmap string string) (K : string) :
  foldl store d kvs !! K
  = match last_value (λ k, String.eqb (stored_key k) K) kvs with
    | Some v => Some (clean v)
    | None => d !! K
    end.
Proof.
  revert d. induction kvs as [|[k v] kvs IH]; intros d; [done|]. simpl.
  rewrite IH. destruct (last_value _ kvs); [done|]. unfold store. simpl.
  destruct (String.eqb (stored_key k) K) eqn:E.
  - apply String.eqb_eq in E. subst. by rewrite lookup_insert_eq.
  - apply String.eqb_neq in E. by rewrite lookup_insert_ne.
Qed.

Lemma last_value_ext (same same' : string → bool)
    (kvs : list (string * string)) :
  (∀ k, same k = same' k) → last_value same kvs = last_value same' kvs.
Proof.
  intros H. induction kvs as [|[k v] kvs IH]; [done|]. simpl.
  by rewrite IH, H.
Qed.

Lemma last_value_last (same : string → bool) (l1 l2 : list (string * string))
    (k v : string) :
  same k = true → Forall (λ kv, same kv.1 = false) l2 →
  last_value same (l1 ++ (k, v) :: l2) = Some v.
Proof.
  intros Hk Hl2.
  assert (last_value same l2 = None) as E2.
  { induction Hl2 as [|[k' v'] l2 Hk' _ IH]; [done|]. simpl in *.
    by rewrite IH, Hk'. }
  induction l1 as [|[k1 v1] l1 IH]; simpl.
  - by rewrite E2, Hk.
  - by rewrite IH.
Qed.

(** What [extract_info_from_line] gives on a line whose tokens all are
    key=value tokens. *)
Lemma extract_info_from_line_pairs (line : string) (toks : list string)
    (kvs : list (string * string)) :
  Shlex.split line = Ok toks → Forall2 key_value toks kvs →
  extract_info_from_line line
  = match last_value is_instance kvs, last_value is_process kvs with
    | Some i, Some p =>
        Ok (clean i, clean p,
            delete "process" (delete "instance" (foldl store ∅ kvs)))
    | None, _ => Raise (KeyError "instance")
    | Some _, None => Raise (KeyError "process")
    end.
Proof.
  intros Hs Hkv. unfold extract_info_from_line. rewrite Hs. simpl.
  rewrite (parse_pairs_key_values toks kvs) by done. simpl. unfold pop.
  rewrite lookup_foldl_store.
  rewrite (last_value_ext _ is_instance).
  2:{ intros k. apply eq_true_iff_eq. rewrite String.eqb_eq.
      apply stored_key_instance. }
  destruct (last_value is_instance kvs) as [i|]; [|done]. simpl.
  rewrite lookup_delete_ne by done. rewrite lookup_foldl_store.
  rewrite (last_value_ext _ is_process).
  2:{ intros k. apply eq_true_iff_eq. rewrite String.eqb_eq.
      apply stored_key_process. }
  by destruct (last_value is_process kvs) as [p|].
Qed.

Lemma lookup_parameters (kvs : list (string * string)) (k : string) :
  delete "process" (delete "instance" (foldl store ∅ kvs)) !! k
  = if is_required k then None else clean <$> last_value (String.eqb k) kvs.
Proof.
  destruct (is_required k) eqn:Hk.
  - destruct (decide (k = "process")) as [->|H1].
    { by rewrite lookup_delete_eq. }
    rewrite lookup_delete_ne by done.
    destruct (decide (k = "instance")) as [->|H2].
    { by rewrite lookup_delete_eq. }
    rewrite lookup_delete_ne by done. rewrite lookup_foldl_store.
    rewrite (last_value_ext _ (λ _, false)).
    { rewrite lookup_empty.
      assert (∀ l : list (string * string), last_value (λ _, false) l = None)
        as ->; [|done].
      induction l as [|[??] l IH]; simpl; by rewrite ?IH. }
    intros k'. apply String.eqb_neq. unfold stored_key.
    destruct (is_required k') eqn:Hk'.
    + unfold is_required in Hk'. apply orb_true_iff in Hk' as [E|E];
        apply String.eqb_eq in E; congruence.
    + congruence.
  - assert (k ≠ "process" ∧ k ≠ "instance") as [H1 H2].
    { split; intros ->; by vm_compute in Hk. }
    rewrite !lookup_delete_ne by done. rewrite lookup_foldl_store.
    rewrite lookup_empty.
    rewrite (last_value_ext _ (String.eqb k)).
    { by destruct (last_value _ kvs). }
    intros k'. apply eq_true_iff_eq. rewrite !String.eqb_eq.
    rewrite stored_key_other by done. split; congruence.
Qed.

(** ** The lexer on quoted values *)

Lemma string_app_cons (c : ascii) (s1 s2 : string) :
  String c s1 +:+ s2 = String c (s1 +:+ s2).
Proof. reflexivity. Qed.

Lemma string_app_nil_l (s : string) : "" +:+ s = s.
Proof. reflexivity. Qed.

Lemma string_app_assoc (s1 s2 s3 : string) :
  (s1 +:+ s2) +:+ s3 = s1 +:+ (s2 +:+ s3).
Proof.
  induction s1 as [|c s1 IH]; [done|]. rewrite !string_app_cons. by f_equal.
Qed.

Lemma string_app_nil_r (s : string) : s +:+ "" = s.
Proof.
  induction s as [|c s IH]; [done|]. rewrite string_app_cons. by f_equal.
Qed.

Lemma snoc_app (token : string) (c : ascii) (s : string) :
  Shlex.snoc token c +:+ s = token +:+ String c s.
Proof. unfold Shlex.snoc. by rewrite string_app_assoc. Qed.

Lemma lex_word_plain (w input : string) (esc : Shlex.state) (quoted : bool)
    (token : string) :
  Py.all_chars plain_char w = true →
  Shlex.lex (w +:+ input) Shlex.In_word esc quoted token
  = Shlex.lex input Shlex.In_word esc quoted (token +:+ w).
Proof.
  revert token. induction w as [|c w IH]; intros token Hw.
  { by rewrite string_app_nil_l, string_app_nil_r. }
  simpl in Hw. apply andb_true_iff in Hw as [Hc Hw].
  unfold plain_char in Hc.
  apply andb_true_iff in Hc as [Hc H3]. apply andb_true_iff in Hc as [H1 H2].
  apply negb_true_iff in H1, H2, H3.
  rewrite string_app_cons. cbn [Shlex.lex]. rewrite H1, H2, H3.
  rewrite IH by done. by rewrite snoc_app.
Qed.

Lemma lex_quoted_body (q : ascii) (body input : string) (esc : Shlex.state)
    (quoted : bool) (token : string) :
  Py.all_chars (quoted_char q) body = true →
  Shlex.lex (body +:+ String q input) (Shlex.In_quote q) esc quoted token
  = Shlex.lex input Shlex.In_word esc true (token +:+ body).
Proof.
  revert token quoted. induction body as [|c body IH]; intros token quoted Hb.
  { rewrite string_app_nil_l, string_app_nil_r. cbn [Shlex.lex].
    by rewrite Ascii.eqb_refl. }
  simpl in Hb. apply andb_true_iff in Hb as [Hc Hb]. unfold quoted_char in Hc.
  apply andb_true_iff in Hc as [H1 H2]. apply negb_true_iff in H1, H2.
  rewrite string_app_cons. cbn [Shlex.lex]. rewrite H1, H2.
  rewrite IH by done. by rewrite snoc_app.
Qed.

Lemma lex_token_end (rest : string) (esc : Shlex.state) (token : string) :
  token_end rest = true →
  Shlex.lex rest Shlex.In_word esc true token
  = result_bind (rest_tokens rest) (λ toks, Ok (token :: toks)).
Proof.
  destruct rest as [|ws rest]; [done|]. simpl. intros ->.
  by rewrite orb_true_r.
Qed.

(** A key and a quoted value are lexed as one token: the key followed by
    the value as it stands between the quotes, spaces included. *)
Lemma shlex_split_quoted (q : ascii) (k body rest : string) :
  Py.char_in q Shlex.quotes = true →
  Py.all_chars plain_char k = true →
  Py.all_chars (quoted_char q) body = true →
  token_end rest = true →
  Shlex.split (k +:+ String q (body +:+ String q rest))
  = result_bind (rest_tokens rest) (λ toks, Ok ((k +:+ body) :: toks)).
Proof.
  intros Hq Hk Hb Hrest. unfold Shlex.split.
  assert (Py.char_in q Shlex.whitespace = false
          ∧ Py.char_in q Shlex.escape = false) as [Hq1 Hq2].
  { simpl in Hq. apply orb_true_iff in Hq as [Hq|Hq].
    - apply Ascii.eqb_eq in Hq as ->. by vm_compute.
    - rewrite orb_false_r in Hq. apply Ascii.eqb_eq in Hq as ->.
      by vm_compute. }
  destruct k as [|c k].
  { rewrite !string_app_nil_l. cbn [Shlex.lex]. rewrite Hq1, Hq2, Hq.
    rewrite lex_quoted_body by done. by apply lex_token_end. }
  simpl in Hk. apply andb_true_iff in Hk as [Hc Hk]. unfold plain_char in Hc.
  apply andb_true_iff in Hc as [Hc H3]. apply andb_true_iff in Hc as [H1 H2].
  apply negb_true_iff in H1, H2, H3.
  rewrite string_app_cons. cbn [Shlex.lex]. rewrite H1, H2, H3.
  rewrite lex_word_plain by done. cbn [Shlex.lex]. rewrite Hq1, Hq.
  rewrite lex_quoted_body by done. by apply lex_token_end.
Qed.

(** ** Stripping at both ends *)

Lemma all_chars_ext (p q : ascii → bool) (s : string) :
  (∀ c, p c = q c) → Py.all_chars p s = Py.all_chars q s.
Proof.
  intros H. induction s as [|c s IH]; [done|]. simpl. by rewrite H, IH.
Qed.

Lemma all_chars_app (p : ascii → bool) (s1 s2 : string) :
  Py.all_chars p (s1 +:+ s2) = Py.all_chars p s1 && Py.all_chars p s2.
Proof.
  induction s1 as [|c s1 IH]; [done|]. rewrite string_app_cons. simpl.
  by rewrite IH, andb_assoc.
Qed.

(** What [lstrip] removes satisfies [p], and what it leaves does not start
    with such a character. *)
Lemma lstrip_split (p : ascii → bool) (s : string) :
  ∃ pre, s = pre +:+ Py.lstrip p s ∧ Py.all_chars p pre = true
         ∧ ∀ c, first_char (Py.lstrip p s) = Some c → p c = false.
Proof.
  induction s as [|c s (pre & E & Hpre & Hc)].
  { by exists "". }
  simpl. destruct (p c) eqn:Hpc.
  - exists (String c pre). rewrite string_app_cons, <- E. simpl.
    by rewrite Hpc, Hpre.
  - exists "". split_and!; [done|done|]. simpl. by intros ? [= <-].
Qed.

Lemma rstrip_first_char (p : ascii → bool) (s : string) (c : ascii) :
  first_char (Py.rstrip p s) = Some c → first_char s = Some c.
Proof.
  destruct s as [|d s]; [done|]. simpl.
  destruct (Py.rstrip p s); [|done]. by destruct (p d).
Qed.

(** What [rstrip] removes satisfies [p], and what it leaves does not end
    with such a character. *)
Lemma rstrip_split (p : ascii → bool) (s : string) :
  ∃ post, s = Py.rstrip p s +:+ post ∧ Py.all_chars p post = true
          ∧ ∀ c, last_char (Py.rstrip p s) = Some c → p c = false.
Proof.
  induction s as [|c s (post & E & Hpost & Hc)].
  { by exists "". }
  simpl. destruct (Py.rstrip p s) as [|d r] eqn:Hr.
  - rewrite string_app_nil_l in E. subst post. destruct (p c) eqn:Hpc.
    + exists (String c s). split_and!; [done| |done]. simpl.
      by rewrite Hpc, Hpost.
    + exists s. split_and!; [done|done|]. simpl. by intros ? [= <-].
  - exists post. rewrite string_app_cons, <- E. split_and!; [done|done|].
    intros c' Hc'. by apply Hc.
Qed.

(** [s.strip(chars)], told without [strip]: [s] is what is left between
    two runs of characters to remove, and what is left neither starts nor
    ends with such a character. *)
Lemma strip_with_split (p : ascii → bool) (s : string) :
  ∃ pre post,
    s = pre +:+ (Py.strip_with p s +:+ post)
    ∧ Py.all_chars p pre = true ∧ Py.all_chars p post = true
    ∧ trimmed p (Py.strip_with p s).
Proof.
  unfold Py.strip_with.
  destruct (lstrip_split p s) as (pre & E1 & Hpre & Hfirst).
  destruct (rstrip_split p (Py.lstrip p s)) as (post & E2 & Hpost & Hlast).
  exists pre, post. split_and!; [|done|done|].
  - by rewrite <- E2.
  - split; [|done]. intros c Hc. apply Hfirst. by eapply rstrip_first_char.
Qed.

(** [value.strip(dquote).strip()], told without [strip]: the value is its
    cleaned text between whitespace, and that between double quotes; the
    text between the quotes neither starts nor ends with a double quote,
    and the cleaned text neither starts nor ends with whitespace. *)
Lemma clean_split (value : string) :
  ∃ q1 w1 w2 q2,
    value = q1 +:+ (w1 +:+ (clean value +:+ w2)) +:+ q2
    ∧ Py.all_chars is_dquote q1 = true ∧ Py.all_chars is_dquote q2 = true
    ∧ Py.all_chars Py.isspace w1 = true ∧ Py.all_chars Py.isspace w2 = true
    ∧ trimmed is_dquote (w1 +:+ (clean value +:+ w2))
    ∧ trimmed Py.isspace (clean value).
Proof.
  unfold clean, Py.strip, Py.strip_chars.
  set (in_dquote := λ c, Py.char_in c dquote).
  assert (∀ c, in_dquote c = is_dquote c) as Hq.
  { intros c. unfold in_dquote, is_dquote. simpl. apply orb_false_r. }
  destruct (strip_with_split in_dquote value)
    as (q1 & q2 & E1 & Hq1 & Hq2 & [Hfirst Hlast]).
  destruct (strip_with_split Py.isspace (Py.strip_with in_dquote value))
    as (w1 & w2 & E2 & Hw1 & Hw2 & Ht).
  exists q1, w1, w2, q2.
  rewrite <- (all_chars_ext _ _ q1 Hq), <- (all_chars_ext _ _ q2 Hq).
  rewrite <- E2. split_and!; try done.
  split; intros c Hc; rewrite <- Hq; auto.
Qed.

(** ** Well-formed lines *)

(** C7: a quoted value stays in the token of its key, spaces and all, as
    in the line with [pName]; on a line of key=value tokens, the
    instance and the process are the values of the last keys that read
    [instance] and [process] in lower case, every other key is kept as it
    is written, and each value has its double quotes and then its
    whitespace stripped at both ends.  What the stripping removes is told
    without the functions that do it: a value is the text kept, between
    two runs of whitespace, between two runs of double quotes; the text
    between the quotes neither starts nor ends with a double quote, and
    the text kept neither starts nor ends with whitespace.  So the
    double quotes that the lexer leaves in a token, those of a value
    between single quotes, are removed as well. *)
Theorem C7_extract_info_from_line :
  (∀ q k body rest,
     Py.char_in q Shlex.quotes = true →
     Py.all_chars plain_char k = true →
     Py.all_chars (quoted_char q) body = true →
     token_end rest = true →
     Shlex.split (k +:+ String q (body +:+ String q rest))
     = result_bind (rest_tokens rest) (λ toks, Ok ((k +:+ body) :: toks)))
  ∧ extract_info_from_line
      ("instance=" +:+ Demo.quoted "A" +:+ " process=" +:+ Demo.quoted "P1"
       +:+ " pName=" +:+ Demo.quoted "hello world")
    = Ok ("A", "P1", {[ "pName" := "hello world" ]})
  ∧ (∀ line toks kvs i p,
       Shlex.split line = Ok toks → Forall2 key_value toks kvs →
       last_value is_instance kvs = Some i →
       last_value is_process kvs = Some p →
       ∃ parameters,
         extract_info_from_line line
         = Ok (Py.strip (Py.strip_chars dquote i),
               Py.strip (Py.strip_chars dquote p), parameters)
         ∧ ∀ k, parameters !! k
                = if is_required k then None
                  else (λ v, Py.strip (Py.strip_chars dquote v))
                       <$> last_value (String.eqb k) kvs)
  ∧ (∀ value,
       let kept := Py.strip (Py.strip_chars dquote value) in
       ∃ q1 w1 w2 q2,
         value = q1 +:+ (w1 +:+ (kept +:+ w2)) +:+ q2
         ∧ Py.all_chars is_dquote q1 = true
         ∧ Py.all_chars is_dquote q2 = true
         ∧ Py.all_chars Py.isspace w1 = true
         ∧ Py.all_chars Py.isspace w2 = true
         ∧ trimmed is_dquote (w1 +:+ (kept +:+ w2))
         ∧ trimmed Py.isspace kept)
  ∧ extract_info_from_line
      ("instance=A process=P1 pX='" +:+ Demo.quoted " x" +:+ "'")
    = Ok ("A", "P1", {[ "pX" := "x" ]}).
Proof.
  split_and!.
  - intros q k body rest Hq Hk Hb Hrest.
    by apply (shlex_split_quoted q k body rest).
  - by vm_compute.
  - intros line toks kvs i p Hs Hkv Hi Hp.
    rewrite (extract_info_from_line_pairs line toks kvs), Hi, Hp by done.
    eexists. split; [done|]. apply lookup_parameters.
  - intros value. apply clean_split.
  - by vm_compute.
Qed.

Lemma C7_extract_info_from_line_witness :
  Shlex.split ("pName=" +:+ String "034" ("hello world"
               +:+ String "034" " pX=1"))
  = Ok ["pName=hello world"; "pX=1"]
  ∧ ∃ parameters,
      extract_info_from_line
        ("INSTANCE=A Process=P1 pName=" +:+ Demo.quoted " x " +:+ " pname=y")
      = Ok ("A", "P1", parameters)
      ∧ parameters !! "pName" = Some "x" ∧ parameters !! "pname" = Some "y"
      ∧ parameters !! "instance" = None.
Proof.
  destruct C7_extract_info_from_line as (Hq & _ & Hk & _). split.
  - rewrite (Hq "034"%char "pName=" "hello world" " pX=1"); by vm_compute.
  - destruct (Hk ("INSTANCE=A Process=P1 pName=" +:+ Demo.quoted " x "
                  +:+ " pname=y")
                ["INSTANCE=A"; "Process=P1"; "pName= x "; "pname=y"]
                [("INSTANCE", "A"); ("Process", "P1"); ("pName", " x ");
                 ("pname", "y")] "A" "P1")
      as (parameters & He & Hl); [by vm_compute|repeat constructor|done..|].
    exists parameters. split; [exact He|].
    rewrite !Hl. by vm_compute.
Defined.

(** C10: when a key comes more than once on a line, the earlier token
    counts for nothing, in the dictionary and in whether the loop raises;
    on a line of key=value tokens with an instance and a process, parsing
    returns, and holds for each key the stripped value of its last
    token. *)
Theorem C10_last_occurrence :
  (∀ t1 tok t2 tok' t3 kv kv' d,
     key_value tok kv → key_value tok' kv' → same_key kv.1 kv'.1 = true →
     parse_pairs (t1 ++ tok :: t2 ++ tok' :: t3) d
     = parse_pairs (t1 ++ t2 ++ tok' :: t3) d)
  ∧ (∀ line toks kvs l1 k v l2,
       Shlex.split line = Ok toks → Forall2 key_value toks kvs →
       kvs = l1 ++ (k, v) :: l2 →
       Forall (λ kv, same_key k kv.1 = false) l2 →
       is_Some (last_value is_instance kvs) →
       is_Some (last_value is_process kvs) →
       ∃ parsed, extract_info_from_line line = Ok parsed
                 ∧ value_of k parsed = Some (clean v)).
Proof.
  split.
  - intros t1 tok t2 tok' t3 kv kv' d Hkv Hkv' Hsame.
    rewrite (parse_pairs_app t1 (tok :: _)), (parse_pairs_app t1 (t2 ++ _)).
    destruct (parse_pairs t1 d) as [d1|e]; [|done].
    unfold result_bind. rewrite (parse_pairs_cons tok kv) by done.
    unfold store. apply (parse_pairs_shadow t2 t3 tok' kv'); [done|].
    by apply stored_key_same.
  - intros line toks kvs l1 k v l2 Hs Hkv -> Hl2 [i Hi] [p Hp].
    rewrite (extract_info_from_line_pairs line toks _ Hs Hkv), Hi, Hp.
    eexists. split; [done|]. unfold value_of. simpl.
    destruct (is_instance k) eqn:Eki.
    { rewrite (last_value_last is_instance l1 l2 k v) in Hi; [congruence|done|].
      eapply Forall_impl; [exact Hl2|]. intros [k' v']. simpl.
      unfold same_key, is_required, is_instance in *. rewrite Eki, orb_true_r.
      apply String.eqb_eq in Eki. by rewrite Eki. }
    destruct (is_process k) eqn:Ekp.
    { rewrite (last_value_last is_process l1 l2 k v) in Hp; [congruence|done|].
      eapply Forall_impl; [exact Hl2|]. intros [k' v']. simpl.
      unfold same_key, is_required, is_process in *. rewrite Ekp. simpl.
      apply String.eqb_eq in Ekp. by rewrite Ekp. }
    rewrite lookup_parameters.
    assert (is_required k = false) as Hr.
    { unfold is_required, is_instance, is_process in *. by rewrite Eki, Ekp. }
    rewrite Hr, (last_value_last (String.eqb k) l1 l2 k v); [done| |].
    + apply String.eqb_refl.
    + eapply Forall_impl; [exact Hl2|]. intros [k' v']. simpl.
      unfold same_key. rewrite Hr. by rewrite String.eqb_sym.
Qed.

Lemma C10_last_occurrence_witness :
  parse_pairs ([] ++ "pX=1" :: ["instance=A"] ++ "pX=2" :: ["process=P"]) ∅
  = parse_pairs ([] ++ ["instance=A"] ++ "pX=2" :: ["process=P"]) ∅
  ∧ ∃ parsed,
      extract_info_from_line "instance=A process=P pX=1 INSTANCE=B pX=2"
      = Ok parsed
      ∧ value_of "INSTANCE" parsed = Some (clean "B").
Proof.
  destruct C10_last_occurrence as [Hshadow Hlast]. split.
  - by apply (Hshadow [] "pX=1" ["instance=A"] "pX=2" ["process=P"]
                ("pX", "1") ("pX", "2") ∅).
  - apply (Hlast "instance=A process=P pX=1 INSTANCE=B pX=2"
             ["instance=A"; "process=P"; "pX=1"; "INSTANCE=B"; "pX=2"]
             ([("instance", "A"); ("process", "P"); ("pX", "1")]
              ++ ("INSTANCE", "B") :: [("pX", "2")])
             [("instance", "A"); ("process", "P"); ("pX", "1")]
             "INSTANCE" "B" [("pX", "2")]).
    + by vm_compute.
    + repeat constructor.
    + done.
    + repeat constructor.
    + by eexists.
    + by eexists.
Defined.

(** ** Malformed lines *)

Lemma parse_pairs_not_key_value (toks : list string)
    (d : gmap string string) :
  Exists not_key_value toks → ∃ msg, parse_pairs toks d = Raise (ValueError msg).
Proof.
  intros H. revert d. induction H as [tok toks Hbad|tok toks _ IH]; intros d.
  - unfold not_key_value in Hbad. simpl.
    destruct (Py.split "=" tok) as [|? [|? [|? ?]]]; simpl in *;
      try done; eauto.
  - simpl. destruct (Py.split "=" tok) as [|? [|? [|? ?]]]; eauto.
    destruct (is_required _); apply IH.
Qed.

Lemma extract_info_from_line_malformed (line : string) (toks : list string) :
  Shlex.split line = Ok toks → malformed toks →
  ∃ e, extract_info_from_line line = Raise e.
Proof.
  intros Hs [Hbad|(kvs & Hkv & Hmiss)].
  - destruct (parse_pairs_not_key_value toks ∅ Hbad) as [msg E].
    exists (ValueError msg). unfold extract_info_from_line. by rewrite Hs; simpl; rewrite E.
  - rewrite (extract_info_from_line_pairs line toks kvs) by done.
    destruct (last_value is_instance kvs); [|by eexists].
    destruct Hmiss as [?| ->]; [done|by eexists].
Qed.

(** ** Running one line *)

Section Run_properties.
Context {handle : Type}.
Variable execute : handle → string → gmap string string → N + string.
Variable connect : string → gmap string string → handle + string.
Variable files : gmap string (list string).
Variable CONFIG : string.

Abbreviation execute_line' := (execute_line execute).
Abbreviation run_line_set' := (run_line_set execute).
Abbreviation run_line_sets' := (run_line_sets execute).
Abbreviation work_through_tasks' := (work_through_tasks execute files).
Abbreviation events_of := (events_of execute).
Abbreviation returns := (returns execute).

Lemma execute_line_blank (line : string) (tm1_services : registry handle) :
  is_blank line = true → execute_line' line tm1_services = ([], Ok tt).
Proof. unfold is_blank, execute_line. by intros ->. Qed.

Lemma execute_line_raise (line : string) (tm1_services : registry handle)
    (e : exn) :
  is_blank line = false → extract_info_from_line line = Raise e →
  execute_line' line tm1_services = ([], Raise e).
Proof. unfold is_blank, execute_line. by intros -> ->. Qed.

Lemma execute_line_absent (line : string) (tm1_services : registry handle)
    (instance_name process_name : string) (parameters : gmap string string) :
  is_blank line = false →
  extract_info_from_line line = Ok (instance_name, process_name, parameters) →
  tm1_services !! instance_name = None →
  execute_line' line tm1_services
  = ([Log ERROR (Msg_text (not_accessible process_name instance_name))],
     Ok tt).
Proof.
  unfold is_blank, execute_line. intros -> -> H. unfold bind. simpl.
  by rewrite H.
Qed.

Lemma execute_line_present (line : string) (tm1_services : registry handle)
    (instance_name process_name : string) (parameters : gmap string string)
    (tm1 : handle) :
  is_blank line = false →
  extract_info_from_line line = Ok (instance_name, process_name, parameters) →
  tm1_services !! instance_name = Some tm1 →
  execute_line' line tm1_services
  = ([Log INFO (Msg_executing process_name parameters instance_name);
      Execute tm1 process_name parameters;
      match execute tm1 process_name parameters with
      | inl elapsed =>
          Log INFO (Msg_successful process_name parameters instance_name
                      elapsed)
      | inr error => Log ERROR (Msg_failed process_name parameters error)
      end], Ok tt).
Proof.
  unfold is_blank, execute_line. intros -> -> H. unfold bind. simpl.
  rewrite H. simpl. by destruct (execute tm1 process_name parameters).
Qed.

(** A line raises only through [extract_info_from_line]. *)
Lemma execute_line_result (line : string) (tm1_services : registry handle) :
  (execute_line' line tm1_services).2
  = if is_blank line then Ok tt
    else result_bind (extract_info_from_line line) (λ _, Ok tt).
Proof.
  unfold is_blank, execute_line. destruct (_ =? 0)%nat; [done|].
  destruct (extract_info_from_line line) as [[[i p] params]|e]; [|done].
  unfold bind. simpl. destruct (tm1_services !! i); [|done]. simpl.
  by destruct (execute _ _ _).
Qed.

(** ** Running blocks *)

Lemma events_of_app (l1 l2 : list string) (s : registry handle) :
  events_of (l1 ++ l2) s = events_of l1 s ++ events_of l2 s.
Proof. unfold events_of. by rewrite fmap_app, concat_app. Qed.

Lemma run_line_set_events (max_workers : string) (n : Z)
    (line_set : list string) (s : registry handle) :
  int max_workers = Ok n → (0 < n)%Z →
  run_line_set' max_workers line_set s
  = (events_of line_set s,
     await_all ((λ line, (execute_line' line s).2) <$> line_set)).
Proof.
  intros Hn Hz. unfold run_line_set, bind, lift. rewrite Hn. simpl.
  apply Z.leb_gt in Hz. rewrite Hz. unfold events_of.
  by rewrite <- !list_fmap_compose.
Qed.

Lemma await_all_returns (s : registry handle) (lines : list string) :
  Forall (returns s) lines →
  await_all ((λ line, (execute_line' line s).2) <$> lines) = Ok tt.
Proof.
  induction 1 as [|line lines H _ IH]; [done|]. simpl.
  unfold returns in H. by rewrite H.
Qed.

Lemma await_all_raises (s : registry handle) (l1 l2 : list string)
    (line : string) (e : exn) :
  Forall (returns s) l1 → (execute_line' line s).2 = Raise e →
  await_all ((λ line, (execute_line' line s).2) <$> l1 ++ line :: l2)
  = Raise e.
Proof.
  intros H1 He. induction H1 as [|a l1 H _ IH]; simpl.
  - by rewrite He.
  - unfold returns in H. by rewrite H.
Qed.

Lemma run_line_sets_returns (max_workers : string) (n : Z)
    (blocks : list (list string)) (s : registry handle) :
  int max_workers = Ok n → (0 < n)%Z →
  Forall (Forall (returns s)) blocks →
  run_line_sets' max_workers blocks s = (events_of (concat blocks) s, Ok tt).
Proof.
  intros Hn Hz. induction 1 as [|b blocks Hb _ IH]; [done|]. simpl.
  rewrite (run_line_set_events _ n), IH by done.
  rewrite await_all_returns by done. unfold bind. simpl.
  by rewrite events_of_app.
Qed.

Lemma run_line_sets_app (max_workers : string) (n : Z)
    (blocks blocks' : list (list string)) (s : registry handle) :
  int max_workers = Ok n → (0 < n)%Z →
  Forall (Forall (returns s)) blocks →
  run_line_sets' max_workers (blocks ++ blocks') s
  = (events_of (concat blocks) s
     ++ (run_line_sets' max_workers blocks' s).1,
     (run_line_sets' max_workers blocks' s).2).
Proof.
  intros Hn Hz. induction 1 as [|b blocks Hb _ IH].
  { simpl. by destruct (run_line_sets' _ _ _). }
  simpl. rewrite (run_line_set_events _ n), IH by done.
  rewrite await_all_returns by done. unfold bind. simpl.
  by rewrite events_of_app, app_assoc.
Qed.

Lemma run_line_sets_raises (max_workers : string) (n : Z)
    (l1 l2 : list string) (line : string) (e : exn)
    (blocks : list (list string)) (s : registry handle) :
  int max_workers = Ok n → (0 < n)%Z →
  Forall (returns s) l1 → (execute_line' line s).2 = Raise e →
  run_line_sets' max_workers ((l1 ++ line :: l2) :: blocks) s
  = (events_of (l1 ++ line :: l2) s, Raise e).
Proof.
  intros Hn Hz H1 He. simpl. rewrite (run_line_set_events _ n) by done.
  by rewrite (await_all_raises s l1 l2 line e).
Qed.

Lemma returns_not_raise (s : registry handle) (line : string) :
  returns s line ↔ is_Raise (execute_line' line s).2 = false.
Proof.
  unfold returns. destruct (execute_line' line s).2 as [[]|e]; simpl;
    split; intros H; done.
Qed.

Lemma await_all_exists (s : registry handle) (lines : list string) :
  Exists (λ line, ¬ returns s line) lines →
  ∃ e, await_all ((λ line, (execute_line' line s).2) <$> lines) = Raise e.
Proof.
  induction lines as [|line lines IH]; intros H; [by inversion H|]. simpl.
  destruct (execute_line' line s).2 as [[]|e] eqn:E; [|by eexists].
  apply IH. inversion H as [?? Hn|]; subst; [|done]. by destruct Hn.
Qed.

(** The loop stops at the first block with a line that raises, having
    run that block to its end. *)
Lemma run_line_sets_first_raise (max_workers : string) (n : Z)
    (before after : list (list string)) (b : list string)
    (s : registry handle) :
  int max_workers = Ok n → (0 < n)%Z →
  Forall (Forall (returns s)) before →
  Exists (λ line, ¬ returns s line) b →
  ∃ e, run_line_sets' max_workers (before ++ b :: after) s
       = (events_of (concat before ++ b) s, Raise e).
Proof.
  intros Hn Hn0 Hbefore Hb.
  destruct (await_all_exists s b Hb) as [e He]. exists e.
  rewrite (run_line_sets_app max_workers n) by done. simpl.
  rewrite (run_line_set_events _ n) by done. rewrite He. unfold bind. simpl.
  by rewrite events_of_app.
Qed.

(** Without a pool the loop stops at once, unless there is no block. *)
Lemma run_line_sets_refused (max_workers : string)
    (blocks : list (list string)) (s : registry handle) :
  (∀ n, int max_workers = Ok n → (n ≤ 0)%Z) → blocks ≠ [] →
  (run_line_sets' max_workers blocks s).1 = []
  ∧ is_Raise (run_line_sets' max_workers blocks s).2 = true.
Proof.
  intros Hn Hb. destruct blocks as [|b blocks]; [done|]. simpl.
  unfold run_line_set, bind, lift. simpl.
  destruct (int max_workers) as [n|e]; [|done]. simpl.
  specialize (Hn n eq_refl). apply Z.leb_le in Hn. by rewrite Hn.
Qed.

End Run_properties.

(** ** The worker pool *)

Module Pool_facts.

Import Pool.
Local Open Scope nat_scope.

Section Steps.
Context {handle : Type}.
Variable execute : handle → string → gmap string string → N + string.
Variable tm1_services : registry handle.
Variable max_workers : string.
Variable blocks : list (list string).

Abbreviation line_at := (Pool.line_at blocks).
Abbreviation init := (Pool.init blocks).
Abbreviation step := (Pool.step execute tm1_services max_workers blocks).
Abbreviation reachable :=
  (Pool.reachable execute tm1_services max_workers blocks).
Abbreviation pool_ok := (Pool.pool_ok max_workers).
Abbreviation pc_ok := (Pool.pc_ok max_workers blocks).
Abbreviation inv := (Pool.inv max_workers blocks).

Lemma get_set_eq (t : list (list status)) (i k : nat) (st : status) :
  get (set t i k st) i k = (λ _, st) <$> get t i k.
Proof.
  unfold get, set. rewrite list_lookup_alter_eq.
  destruct (t !! i) as [row|]; simpl; [|done].
  rewrite list_lookup_insert. case_decide as H.
  - destruct H as [_ H]. apply lookup_lt_is_Some in H as [x ->]. done.
  - destruct (row !! k) eqn:E; [|done].
    apply lookup_lt_Some in E. naive_solver.
Qed.

Lemma get_set_ne (t : list (list status)) (i k i' k' : nat) (st : status) :
  (i', k') ≠ (i, k) → get (set t i k st) i' k' = get t i' k'.
Proof.
  intros Hne. unfold get, set. destruct (decide (i = i')) as [->|Hi].
  - rewrite list_lookup_alter_eq. destruct (t !! i') as [row|]; simpl; [|done].
    apply list_lookup_insert_ne. congruence.
  - by rewrite list_lookup_alter_ne.
Qed.

Lemma get_set_Some (t : list (list status)) (i k i' k' : nat)
    (st st0 st' : status) :
  get t i k = Some st0 → get (set t i k st) i' k' = Some st' →
  (i' = i ∧ k' = k ∧ st' = st) ∨ ((i', k') ≠ (i, k) ∧ get t i' k' = Some st').
Proof.
  intros H0 H. destruct (decide ((i', k') = (i, k))) as [E|E].
  - simplify_eq. rewrite get_set_eq, H0 in H. simpl in H. left. naive_solver.
  - rewrite get_set_ne in H by done. by right.
Qed.

Lemma get_set_is_Some (t : list (list status)) (i k i' k' : nat)
    (st : status) :
  is_Some (get (set t i k st) i' k') ↔ is_Some (get t i' k').
Proof.
  destruct (decide ((i', k') = (i, k))) as [E|E].
  - simplify_eq. rewrite get_set_eq. apply fmap_is_Some.
  - by rewrite get_set_ne.
Qed.

Lemma line_at_lt (i k : nat) :
  is_Some (line_at i k) → i < length blocks.
Proof.
  unfold line_at. intros [line H]. destruct (blocks !! i) eqn:E; [|done].
  by apply lookup_lt_Some in E.
Qed.

(** A call that is under way keeps its place when it moves on. *)
Lemma status_ok_move (p : pc) (i k : nat) (st st' : status) :
  status_ok p i k st → st ≠ Pending → ¬ terminal st → st' ≠ Pending →
  status_ok p i k st'.
Proof.
  intros Hok Hp Ht Hp'.
  destruct p; simpl in *; destruct_and?; split_and?; intros;
    first [done | exfalso; first [by apply Ht; eauto | by apply Hp; eauto]].
Qed.

Lemma inv_init : inv init.
Proof.
  split_and!; simpl; [| |lia].
  - intros i k. unfold get, line_at. rewrite list_lookup_fmap.
    destruct (blocks !! i) as [b|]; simpl; [|done].
    rewrite list_lookup_fmap. apply fmap_is_Some.
  - intros i k st. unfold get. rewrite list_lookup_fmap.
    destruct (blocks !! i) as [b|]; simpl; [|done].
    rewrite list_lookup_fmap. destruct (b !! k); simpl; [|done].
    intros [= <-]. split; [lia|done].
Qed.

Lemma inv_step (s s' : state) : inv s → step s s' → inv s'.
Proof.
  intros (Hshape & Hok & Hpc) Hstep. split_and!.
  { destruct Hstep; simpl; intros i' k'; rewrite ?get_set_is_Some;
      apply Hshape. }
  2:{ assert (∀ t i k, is_Some (get t i k) →
                (∀ i k, is_Some (get t i k) ↔ is_Some (line_at i k)) →
                ∃ b, blocks !! i = Some b ∧ S k ≤ length b) as Hlt.
      { intros t i k Hs Hsh. apply Hsh in Hs. unfold line_at in Hs.
        destruct (blocks !! i) as [b|]; [|by destruct Hs].
        exists b. split; [done|]. by apply lookup_lt_is_Some in Hs. }
      destruct Hstep; simpl in *; destruct_and?; try done.
      - split; [by eexists|]. apply lookup_lt_is_Some_2 in H as [b Hb].
        exists b. split; [done|lia].
      - split; [done|]. eapply Hlt; eauto.
      - split; [done|]. exists b. split; [done|lia].
      - split; [done|]. eapply Hlt; eauto.
      - split; [done|]. destruct H1 as (b & Hb & _).
        by apply lookup_lt_Some in Hb.
      - split; [done|]. by apply lookup_lt_Some in H. }
  intros i' k' st' Hget.
  destruct Hstep; simpl in *.
  - specialize (Hok _ _ _ Hget). 
    assert (i' < length blocks) as Hlt.
    { eapply line_at_lt, Hshape. eauto. }
    simpl in Hok. by apply Hok.
  - specialize (Hok _ _ _ Hget). done.
  - specialize (Hok _ _ _ Hget). destruct Hok. split_and!; auto with lia.
  - eapply get_set_Some in Hget as [(-> & -> & ->)|[Hne Hget]]; [| |done].
    + split_and!; (done || lia).
    + specialize (Hok _ _ _ Hget). simpl in Hok. destruct_and!.
      split_and!; auto.
      * intros -> ?. auto with lia.
      * intros -> ?. assert (k' ≠ k) by congruence. auto with lia.
  - specialize (Hok _ _ _ Hget). simpl in *.
    destruct Hok as (H1 & H2 & H3 & H4). split_and!; auto.
    intros ->. apply H4; [done|].
    assert (is_Some (line_at i k')) as Hl by (apply Hshape; eauto).
    unfold line_at in Hl. rewrite H in Hl. simpl in Hl.
    by apply lookup_lt_is_Some in Hl.
  - by specialize (Hok _ _ _ Hget). 
  - by specialize (Hok _ _ _ Hget). 
  - by specialize (Hok _ _ _ Hget). 
  - specialize (Hok _ _ _ Hget). simpl in Hok. destruct_and!. split; intros.
    + destruct (decide (i' = i)) as [->|]; [by eapply H|]. auto with lia.
    + auto with lia.
  - specialize (Hok _ _ _ Hget). simpl in Hok. destruct_and!. split; intros.
    + destruct (decide (i' = i)) as [->|]; [by eapply H|]. auto with lia.
    + auto with lia.
  - eapply get_set_Some in Hget as [(-> & -> & ->)|[Hne Hget]]; [| |done].
    + eapply status_ok_move; [by apply Hok|done| |done]. by intros [? ?].
    + by apply Hok.
  - eapply get_set_Some in Hget as [(-> & -> & ->)|[Hne Hget]]; [| |done].
    + eapply status_ok_move; [by apply Hok|done| |done]. by intros [? ?].
    + by apply Hok.
Qed.

Lemma inv_reachable (s : state) : reachable s → inv s.
Proof.
  revert s. apply (rtc_ind_r inv init); [apply inv_init|].
  intros y z _ Hstep Hy. by eapply inv_step.
Qed.

(** Once a call of a later block is submitted, the earlier blocks are
    over. *)
Lemma inv_dispatched (s : state) (i j k : nat) (st : status) :
  inv s → i < j → get (table s) j k = Some st → st ≠ Pending →
  all_terminal (table s) i.
Proof.
  intros (_ & Hok & _) Hij Hj Hst k' st' Hi.
  apply Hok in Hj, Hi. destruct (at_pc s) as [c|c n|c n|c r| |c|c];
    simpl in *; destruct_and?; try done.
  - destruct (decide (c ≤ j)); [exfalso; auto|]. auto with lia.
  - destruct (decide (c < j)); [exfalso; auto|]. auto with lia.
  - destruct (decide (c < j)); [exfalso; auto|]. auto with lia.
  - destruct (decide (c < j)); [exfalso; auto|]. auto with lia.
  - destruct (decide (c ≤ j)); [exfalso; auto|]. auto with lia.
  - destruct (decide (c < j)); [exfalso; auto|]. auto with lia.
Qed.

(** Once the block of a turn is left, its calls are over. *)
Lemma inv_left_block (s : state) (i : nat) :
  inv s → left_block (at_pc s) i → all_terminal (table s) i.
Proof.
  intros (_ & Hok & _) Hleft k st Hi. apply Hok in Hi.
  destruct (at_pc s); simpl in *; destruct_and?; auto.
Qed.

Lemma get_row (t : list (list status)) (i k : nat) :
  get t i k = default [] (t !! i) !! k.
Proof. unfold get. by destruct (t !! i). Qed.

(** While a submitted call is not over, a worker can move: a running call
    can finish; with no call running a worker is free for the first
    queued call. *)
Lemma worker_can_step (p : pc) (t : list (list status)) (i k : nat)
    (st : status) :
  (∀ i k, is_Some (get t i k) ↔ is_Some (line_at i k)) → pool_ok →
  get t i k = Some st → st ≠ Pending → ¬ terminal st →
  ∃ s', step (State p t) s'.
Proof.
  intros Hshape (n & Hn & Hn0) Hget Hp Ht.
  assert (∀ k', get t i k' = Some Running → ∃ s', step (State p t) s') as Hrun.
  { intros k' Hk'. assert (is_Some (line_at i k')) as [line Hline].
    { apply Hshape. eauto. }
    eexists. by eapply step_finish. }
  destruct st as [| | |r]; [done| |by eapply Hrun|destruct Ht; by eexists].
  set (row := default [] (t !! i)).
  destruct (list_find (λ st, st = Running) row) as [[k' st']|] eqn:Ef.
  { apply list_find_Some in Ef as (Hk' & -> & _).
    apply (Hrun k'). by rewrite get_row. }
  apply list_find_None in Ef.
  assert (running t i = 0) as Hr.
  { unfold running. fold row. induction Ef as [|x l Hx _ IH]; [done|].
    by rewrite filter_cons, decide_False. }
  assert (is_Some (list_find (λ st, st = Queued) row)) as [[k1 st1] Eq].
  { rewrite get_row in Hget. apply list_elem_of_lookup_2 in Hget.
    by eapply list_find_elem_of. }
  apply list_find_Some in Eq as (Hk1 & -> & Hmin).
  eexists. eapply step_start with (k := k1) (n := n);
    [by rewrite get_row| |done|].
  - intros j Hj Hq. rewrite get_row in Hq. by eapply Hmin.
  - rewrite Hr. lia.
Qed.

(** The loop is never stuck: until the coroutine has returned or raised,
    some step can be taken. *)
Lemma inv_progress (s : state) :
  inv s → ¬ final (at_pc s) → ∃ s', step s s'.
Proof.
  destruct s as [p t]. intros (Hshape & Hok & Hpc) Hfin. simpl in *.
  assert (∀ i b k, blocks !! i = Some b → k < length b →
            ∃ st, get t i k = Some st) as Hentry.
  { intros i b k Hb Hk. apply Hshape. unfold line_at. rewrite Hb. simpl.
    by apply lookup_lt_is_Some_2. }
  destruct p as [i|i k|i k|i r| |i|i]; simpl in *; try done.
  - destruct (decide (i = length blocks)) as [->|Hne].
    { eexists. apply step_return. }
    assert (i < length blocks) by lia.
    destruct (int max_workers) as [n|e] eqn:En.
    + destruct (decide (n ≤ 0)%Z) as [Hn|Hn].
      * eexists. apply step_refuse; [done|]. intros n' Hn'. congruence.
      * eexists. eapply step_create; [done|done|lia].
    + eexists. apply step_refuse; [done|]. intros n Hn. congruence.
  - destruct Hpc as (Hpool & b & Hb & Hk).
    destruct (decide (k = length b)) as [->|Hne].
    { eexists. by apply step_submitted. }
    destruct (Hentry i b k Hb) as [st Hst]; [lia|].
    pose proof (Hok _ _ _ Hst) as (_ & _ & Hpend & _). simpl in Hpend.
    rewrite Hpend in Hst by done. eexists. by apply step_submit.
  - destruct Hpc as (Hpool & b & Hb & Hk).
    destruct (decide (k = length b)) as [->|Hne].
    { eexists. by eapply step_await_end. }
    destruct (Hentry i b k Hb) as [st Hst]; [lia|].
    pose proof (Hok _ _ _ Hst) as (_ & _ & Hsub). simpl in Hsub.
    destruct st as [| | |[|]].
    + by destruct Hsub.
    + eapply worker_can_step; eauto. by intros [? ?].
    + eapply worker_can_step; eauto. by intros [? ?].
    + eexists. by apply step_await_raise.
    + eexists. by apply step_await_result.
  - destruct Hpc as (Hpool & Hi).
    set (row := default [] (t !! i)).
    destruct (list_find (λ st, st = Queued ∨ st = Running) row)
      as [[k st]|] eqn:Ef.
    { apply list_find_Some in Ef as (Hk & Hst & _).
      unfold row in Hk. rewrite <- get_row in Hk.
      eapply worker_can_step; eauto.
      - by destruct Hst as [-> | ->].
      - intros [? ->]. by destruct Hst. }
    apply list_find_None in Ef. rewrite Forall_forall in Ef.
    assert (all_terminal t i) as Hall.
    { intros k st Hst. pose proof (Hok _ _ _ Hst) as (_ & _ & Hsub).
      rewrite get_row in Hst. apply list_elem_of_lookup_2, Ef in Hst.
      destruct st as [| | |r']; [by destruct Hsub|tauto|tauto|by eexists]. }
    destruct r; eexists; [by apply step_leave_raise|by apply step_leave].
Qed.

Abbreviation seen := (Pool.seen execute tm1_services max_workers blocks).

Lemma clean_row_set (t : list (list status)) (i k i' : nat)
    (st0 st : status) :
  get t i k = Some st0 → st0 ≠ Done false →
  clean_row t i' → clean_row (set t i k st) i'.
Proof.
  intros H0 Hne Hclean k' st' Hget.
  eapply get_set_Some in Hget as [(-> & -> & ->)|[_ Hget]]; [| |done].
  - by apply Hclean in H0.
  - by eapply Hclean.
Qed.

Lemma get_set_Done (t : list (list status)) (i k j k' : nat)
    (st0 st : status) (r : bool) :
  get t i k = Some st0 → (∀ r, st0 ≠ Done r) →
  get t j k' = Some (Done r) → get (set t i k st) j k' = Some (Done r).
Proof.
  intros H0 Hne Hget. rewrite get_set_ne; [done|].
  intros [= -> ->]. rewrite H0 in Hget. injection Hget as ->.
  by apply (Hne r).
Qed.

(** A worker's move leaves what the coroutine has seen as it is. *)
Lemma seen_worker (p : pc) (t : list (list status)) (i k : nat)
    (st0 st : status) :
  get t i k = Some st0 → (∀ r, st0 ≠ Done r) →
  (∀ r line, st = Done r → line_at i k = Some line → r = raises
     execute tm1_services line) →
  seen (State p t) → seen (State p (set t i k st)).
Proof.
  intros H0 Hne Hst [Hres Hpc].
  assert (∀ i', clean_row t i' → clean_row (set t i k st) i') as Hclean.
  { intros i'. eapply clean_row_set; [done|]. apply Hne. }
  assert (∀ j k' r, get t j k' = Some (Done r) →
            get (set t i k st) j k' = Some (Done r)) as Hdone.
  { intros j k' r. by eapply get_set_Done. }
  split; simpl in *.
  - intros i' k' r line Hget Hline.
    eapply get_set_Some in Hget as [(-> & -> & Hr)|[_ Hget]]; [| |done].
    + by eapply Hst.
    + by eapply Hres.
  - destruct p as [j|j n|j n|j [|]| |j|j]; simpl in *; destruct_and?;
      split_and?; eauto;
      match goal with H : ∃ _, _ |- _ => destruct H as [k' Hk']; eauto end.
Qed.

Lemma seen_init : seen init.
Proof.
  split; simpl.
  - intros i k r line Hget. unfold get in Hget.
    rewrite list_lookup_fmap in Hget.
    destruct (blocks !! i) as [b|]; simpl in Hget; [|done].
    rewrite list_lookup_fmap in Hget. by destruct (b !! k).
  - split; intros; lia.
Qed.

Lemma seen_step (s s' : state) : inv s → seen s → step s s' → seen s'.
Proof.
  intros (Hshape & Hok & Hpc) Hseen Hstep.
  destruct Hstep as [t|i t Hi Hn|i n t Hi Hn Hn0|i k t Hget|i b t Hb
                    |i k t Hget|i k t Hget|i b t Hb|i t Hall|i t Hall
                    |p i k n t Hget Hmin Hn Hrun|p i k line t Hget Hline];
    simpl in *.
  - destruct Hseen as [Hres [Hclean Hpool]]. split; [done|]. simpl. split.
    + destruct blocks; [by left|right]. apply Hpool. simpl. lia.
    + intros i. destruct (decide (i < length blocks)); [by apply Hclean|].
      intros k st Hget. assert (is_Some (line_at i k)) as Hl.
      { apply Hshape. eauto. }
      apply line_at_lt in Hl. lia.
  - destruct Hseen as [Hres [Hclean Hpool]]. split; [done|]. simpl.
    split_and!; [|lia|done].
    destruct (decide (i = 0)) as [|Hi0]; [done|].
    destruct Hpool as (n & Hn' & Hn0); [lia|]. apply Hn in Hn'. lia.
  - destruct Hseen as [Hres [Hclean Hpool]]. by split.
  - destruct Hseen as [Hres Hclean]. split; simpl.
    + intros i' k' r line Hget' Hline.
      eapply get_set_Some in Hget' as [(_ & _ & ?)|[_ Hget']]; [done| |done].
      by eapply Hres.
    + intros i' Hi'. eapply clean_row_set; [done|done|]. by apply Hclean.
  - destruct Hseen as [Hres Hclean]. split; [done|]. simpl.
    split; [done|]. intros; lia.
  - destruct Hseen as [Hres [Hclean Hk]]. split; [done|]. simpl.
    split; [done|]. intros k' Hk'.
    destruct (decide (k' = k)) as [->|]; [done|]. apply Hk. lia.
  - destruct Hseen as [Hres [Hclean Hk]]. split; [done|]. simpl. eauto.
  - destruct Hseen as [Hres [Hclean Hk]]. split; [done|]. simpl.
    intros i' Hi'. destruct (decide (i' = i)) as [->|]; [|apply Hclean; lia].
    intros k st Hget. assert (is_Some (line_at i k)) as Hl.
    { apply Hshape. eauto. }
    unfold Pool.line_at in Hl. rewrite Hb in Hl. simpl in Hl.
    apply lookup_lt_is_Some in Hl. rewrite Hk in Hget by done. congruence.
  - destruct Hseen as [Hres Hclean]. destruct Hpc as [Hpool Hi].
    split; [done|]. simpl. split; [|done]. intros i' Hi'. apply Hclean. lia.
  - destruct Hseen as [Hres [Hclean Hk]]. destruct Hpc as [Hpool Hi].
    by split.
  - eapply seen_worker; [done| |done|done]. done.
  - eapply seen_worker; [done|done| |done].
    intros r l [= <-] Hl. congruence.
Qed.

Lemma seen_reachable (s : state) : reachable s → seen s.
Proof.
  intros Hr. assert (inv s ∧ seen s) as [_ ?]; [|done]. revert s Hr.
  apply (rtc_ind_r (λ s, inv s ∧ seen s) init).
  - split; [apply inv_init|apply seen_init].
  - intros y z _ Hstep [Hi Hs]. split; [by eapply inv_step|by eapply seen_step].
Qed.

(** The blocks whose rows are clean are made of lines that return. *)
Lemma clean_rows_return (t : list (list status)) (bs : list (list string)) :
  (∀ i k, is_Some (get t i k) ↔ is_Some (line_at i k)) →
  (∀ i k r line, get t i k = Some (Done r) → line_at i k = Some line →
     r = raises execute tm1_services line) →
  (∀ i b, bs !! i = Some b → blocks !! i = Some b ∧ clean_row t i) →
  Forall (Forall (returns execute tm1_services)) bs.
Proof.
  intros Hshape Hres Hbs. apply Forall_lookup. intros i b Hb.
  apply Forall_lookup. intros k line Hline.
  destruct (Hbs i b Hb) as [Hb' Hclean].
  assert (line_at i k = Some line) as Hl.
  { unfold Pool.line_at. by rewrite Hb'. }
  destruct (proj2 (Hshape i k)) as [st Hst]; [by eexists|].
  pose proof (Hclean k st Hst) as ->.
  apply (proj2 (returns_not_raise execute tm1_services line)).
  symmetry. exact (Hres i k false line Hst Hl).
Qed.

(** When the coroutine has returned or raised, [run_line_sets] gives its
    outcome, and lists the events of the lines of the blocks that were
    run; the calls of these blocks are over, the others were never
    submitted. *)
Lemma final_agrees (s : state) :
  reachable s → final (at_pc s) →
  let r := run_line_sets execute max_workers blocks tm1_services in
  match at_pc s with
  | Returned => r = (events_of execute (concat blocks) tm1_services, Ok tt)
  | Aborted j =>
      r.1 = events_of execute (concat (take (S j) blocks)) tm1_services
      ∧ is_Raise r.2 = true
  | Refused _ => r.1 = [] ∧ is_Raise r.2 = true
  | _ => True
  end
  ∧ ∀ i k line,
      line_at i k = Some line →
      get (table s) i k
      = Some (if decide (left_block (at_pc s) i)
              then Done (raises execute tm1_services line) else Pending).
Proof.
  intros Hr Hfin.
  pose proof (inv_reachable s Hr) as (Hshape & Hok & Hpc).
  pose proof (seen_reachable s Hr) as [Hres Hseen].
  destruct s as [p t]. simpl in *. split.
  - destruct p as [j|j n|j n|j r| |j|j]; try done.
    + destruct Hseen as [[->|(n & Hn & Hn0)] Hclean]; [done|].
      apply (run_line_sets_returns execute max_workers n); [done..|].
      apply (clean_rows_return t); [done..|]. eauto.
    + destruct Hseen as (_ & Hlen & Hn).
      apply run_line_sets_refused; [done|].
      intros E. rewrite E in Hlen. simpl in Hlen. lia.
    + destruct Hseen as ((n & Hn & Hn0) & Hj & Hclean & k & Hk).
      apply lookup_lt_is_Some_2 in Hj as [b Hb].
      assert (is_Some (line_at j k)) as [line Hline].
      { apply Hshape. eauto. }
      destruct (run_line_sets_first_raise execute max_workers n
                  (take j blocks) (drop (S j) blocks) b tm1_services)
        as [e He]; [done|done| | |].
      * apply (clean_rows_return t); [done..|]. intros i b' Hb'.
        apply lookup_take_Some in Hb' as [Hb' Hi]. eauto.
      * apply Exists_exists. exists line. split.
        { unfold Pool.line_at in Hline. rewrite Hb in Hline.
          by eapply list_elem_of_lookup_2. }
        intros Hret.
        apply (proj1 (returns_not_raise execute tm1_services line)) in Hret.
        pose proof (Hres j k true line Hk Hline) as Hraise.
        unfold Pool.raises in Hraise. congruence.
      * rewrite (take_drop_middle blocks j b) in He by done.
        rewrite He. simpl. split; [|done]. f_equal.
        rewrite (take_S_r blocks j b) by done.
        rewrite concat_app. simpl. by rewrite app_nil_r.
  - intros i k line Hline.
    destruct (proj2 (Hshape i k)) as [st Hst]; [by eexists|].
    rewrite Hst. f_equal. specialize (Hok _ _ _ Hst).
    assert (terminal st → st = Done (raises execute tm1_services line)) as Ht.
    { intros [r ->]. f_equal. by eapply Hres. }
    destruct p as [j|j n|j n|j r| |j|j]; try done; simpl in *;
      try case_decide; destruct_and?; auto with lia.
Qed.

(** *** Every run of the loop ends *)

Abbreviation measure := (Pool.measure blocks).
Abbreviation period := (Pool.period blocks).

Lemma row_work_insert (row : list status) (k : nat) (st0 st : status) :
  row !! k = Some st0 →
  sum_list_with weight (<[k := st]> row) + weight st0
  = sum_list_with weight row + weight st.
Proof.
  revert k. induction row as [|x row IH]; intros [|k] H; simplify_eq/=.
  - lia.
  - specialize (IH k H). lia.
Qed.

Lemma work_set (t : list (list status)) (i k : nat) (st0 st : status) :
  get t i k = Some st0 →
  work (set t i k st) + weight st0 = work t + weight st.
Proof.
  unfold work, get, set. revert i.
  induction t as [|row t IH]; intros [|i] H; simplify_eq/=.
  - pose proof (row_work_insert row k st0 st H). lia.
  - specialize (IH i H). lia.
Qed.

Lemma block_length_le (i : nat) (b : list string) :
  blocks !! i = Some b → length b ≤ sum_list_with length blocks.
Proof.
  intros H. apply list_elem_of_lookup_2 in H.
  by apply (sum_list_with_in b length blocks).
Qed.

(** Each move brings the loop nearer to its end. *)
Lemma measure_step (s s' : state) :
  inv s → step s s' → measure s' < measure s.
Proof.
  intros (Hshape & Hok & Hpc) Hstep. unfold Pool.measure.
  assert (∀ i, i < length blocks →
            i * period + period ≤ length blocks * period) as Hturn.
  { intros i Hi. generalize period. intros P. nia. }
  assert (∀ i k, is_Some (get (table s) i k) →
            ∃ b, blocks !! i = Some b ∧ k < length b
                 ∧ length b ≤ sum_list_with length blocks) as Hline.
  { intros i k Hs. apply Hshape in Hs. unfold Pool.line_at in Hs.
    destruct (blocks !! i) as [b|] eqn:Hb; [|by destruct Hs].
    exists b. split_and!; [done| |by eapply block_length_le].
    by apply lookup_lt_is_Some in Hs. }
  destruct Hstep as [t|i t Hi Hn|i n t Hi Hn Hn0|i k t Hget|i b t Hb
                    |i k t Hget|i k t Hget|i b t Hb|i t Hall|i t Hall
                    |p i k n t Hget Hmin Hn Hrun|p i k line t Hget Hline'];
    simpl in *; unfold Pool.period in *.
  - lia.
  - specialize (Hturn i Hi). lia.
  - specialize (Hturn i Hi). lia.
  - pose proof (work_set t i k Pending Queued Hget) as Hw. simpl in Hw.
    destruct Hpc as (_ & b & Hb & _). apply lookup_lt_Some in Hb.
    specialize (Hturn i Hb). lia.
  - apply lookup_lt_Some in Hb. specialize (Hturn i Hb). lia.
  - destruct (Hline i k) as (b & Hb & Hk & Hlen); [by eexists|].
    apply lookup_lt_Some in Hb. specialize (Hturn i Hb). lia.
  - destruct (Hline i k) as (b & Hb & Hk & Hlen); [by eexists|].
    apply lookup_lt_Some in Hb. specialize (Hturn i Hb). lia.
  - pose proof (block_length_le i b Hb) as Hlen.
    apply lookup_lt_Some in Hb. specialize (Hturn i Hb). lia.
  - destruct Hpc as [_ Hi]. specialize (Hturn i Hi). lia.
  - destruct Hpc as [_ Hi]. specialize (Hturn i Hi). lia.
  - pose proof (work_set t i k Queued Running Hget) as Hw. simpl in Hw. lia.
  - pose proof (work_set t i k Running (Done (raises execute tm1_services line))
                  Hget) as Hw. simpl in Hw. lia.
Qed.

(** From every state the loop can be in, it can be brought to its end. *)
Lemma reaches_final (s : state) :
  inv s → ∃ s', rtc step s s' ∧ final (at_pc s').
Proof.
  remember (measure s) as m eqn:Hm. revert s Hm.
  induction (lt_wf m) as [m _ IH]. intros s -> Hinv.
  destruct (decide (final (at_pc s))) as [Hfin|Hfin].
  { by exists s. }
  destruct (inv_progress s Hinv Hfin) as [s1 Hstep].
  destruct (IH (measure s1) (measure_step s s1 Hinv Hstep) s1 eq_refl)
    as (s' & Hrtc & Hf); [by eapply inv_step|].
  exists s'. split; [by eapply rtc_l|done].
Qed.

(** A run of the loop has no more moves than its measure at the start. *)
Lemma nsteps_bounded (n : nat) (s s' : state) :
  inv s → nsteps step n s s' → n ≤ measure s.
Proof.
  intros Hinv Hn. revert Hinv.
  induction Hn as [|n x y z Hxy _ IH]; intros Hinv; [lia|].
  pose proof (measure_step x y Hinv Hxy).
  specialize (IH (inv_step x y Hinv Hxy)). lia.
Qed.

End Steps.

End Pool_facts.

(** ** Tasks, one at a time *)

(** C6: a task whose instance is not in the registry logs one error, that
    the instance is not accessible, and returns: no remote call is made
    for it. *)
Theorem C6_absent_instance {handle : Type}
    (execute : handle → string → gmap string string → N + string)
    (line : string) (tm1_services : registry handle)
    (instance_name process_name : string) (parameters : gmap string string) :
  is_blank line = false →
  extract_info_from_line line = Ok (instance_name, process_name, parameters) →
  tm1_services !! instance_name = None →
  execute_line execute line tm1_services
  = ([Log ERROR (Msg_text ("Process " +:+ process_name +:+ " not executed on "
                           +:+ instance_name +:+ ". " +:+ instance_name
                           +:+ " not accessible."))], Ok tt)
  ∧ ∀ tm1 p params,
      Execute tm1 p params ∉ (execute_line execute line tm1_services).1.
Proof.
  intros Hb He Hs.
  rewrite (execute_line_absent execute line tm1_services instance_name
             process_name parameters) by done.
  split; [done|]. intros tm1 p params Hin. simpl in Hin.
  apply list_elem_of_singleton in Hin. discriminate.
Qed.

Lemma C6_absent_instance_witness :
  execute_line Demo.execute (Demo.task "B" "P1") Demo.tm1_services
  = ([Log ERROR (Msg_text "Process P1 not executed on B. B not accessible.")],
     Ok tt)
  ∧ ∀ tm1 p params,
      Execute tm1 p params
      ∉ (execute_line Demo.execute (Demo.task "B" "P1") Demo.tm1_services).1.
Proof.
  apply (C6_absent_instance Demo.execute (Demo.task "B" "P1")
           Demo.tm1_services "B" "P1" ∅); by vm_compute.
Defined.

(** C5: when the remote call of a task raises, [execute_line] logs the
    failure with the text of the error and returns; when it succeeds, the
    success is logged with the elapsed time of the response.  Either way
    the line returns, so the other lines of its block, and the blocks
    after it, run as they would have: with lines around it that return,
    every line of every block is run and the loop returns. *)
Theorem C5_remote_failure {handle : Type}
    (execute : handle → string → gmap string string → N + string)
    (line : string) (tm1_services : registry handle)
    (instance_name process_name : string) (parameters : gmap string string)
    (tm1 : handle) :
  is_blank line = false →
  extract_info_from_line line = Ok (instance_name, process_name, parameters) →
  tm1_services !! instance_name = Some tm1 →
  (∀ error, execute tm1 process_name parameters = inr error →
     execute_line execute line tm1_services
     = ([Log INFO (Msg_executing process_name parameters instance_name);
         Execute tm1 process_name parameters;
         Log ERROR (Msg_failed process_name parameters error)], Ok tt))
  ∧ (∀ elapsed, execute tm1 process_name parameters = inl elapsed →
     execute_line execute line tm1_services
     = ([Log INFO (Msg_executing process_name parameters instance_name);
         Execute tm1 process_name parameters;
         Log INFO (Msg_successful process_name parameters instance_name
                     elapsed)], Ok tt))
  ∧ (∀ max_workers n before l1 l2 after,
       int max_workers = Ok n → (0 < n)%Z →
       Forall (Forall (returns execute tm1_services)) before →
       Forall (returns execute tm1_services) l1 →
       Forall (returns execute tm1_services) l2 →
       Forall (Forall (returns execute tm1_services)) after →
       run_line_sets execute max_workers
         (before ++ (l1 ++ line :: l2) :: after) tm1_services
       = (events_of execute (concat (before ++ (l1 ++ line :: l2) :: after))
            tm1_services, Ok tt)).
Proof.
  intros Hb He Hs.
  pose proof (execute_line_present execute line tm1_services instance_name
                process_name parameters tm1 Hb He Hs) as Hline.
  split_and!.
  - intros error Herr. by rewrite Hline, Herr.
  - intros elapsed Hok. by rewrite Hline, Hok.
  - intros max_workers n before l1 l2 after Hn Hn0 Hbefore H1 H2 Hafter.
    apply (run_line_sets_returns execute max_workers n); [done..|].
    apply Forall_app. split; [done|]. constructor; [|done].
    apply Forall_app. split; [done|]. constructor; [|done].
    unfold returns. by rewrite Hline.
Qed.

Lemma C5_remote_failure_witness :
  execute_line Demo.execute (Demo.task "A" "P2") Demo.tm1_services
  = ([Log INFO (Msg_executing "P2" ∅ "A"); Execute 7 "P2" ∅;
      Log ERROR (Msg_failed "P2" ∅ "P2 failed")], Ok tt)
  ∧ run_line_sets Demo.execute "1"
      ([] ++ ([Demo.task "A" "P1"] ++ Demo.task "A" "P2" :: [])
          :: [[Demo.task "A" "P3"]]) Demo.tm1_services
    = (events_of Demo.execute
         (concat ([] ++ ([Demo.task "A" "P1"] ++ Demo.task "A" "P2" :: [])
                     :: [[Demo.task "A" "P3"]])) Demo.tm1_services, Ok tt).
Proof.
  destruct (C5_remote_failure Demo.execute (Demo.task "A" "P2")
              Demo.tm1_services "A" "P2" ∅ 7) as (Hfail & _ & Hrun);
    [by vm_compute..|].
  split.
  - apply Hfail. by vm_compute.
  - apply (Hrun "1" 1%Z); [by vm_compute|done|..];
      repeat constructor; by vm_compute.
Defined.

(** ** After the loop *)

Section Abandoned.
Context {handle : Type}.
Variable execute : handle → string → gmap string string → N + string.
Variable files : gmap string (list string).

(** The events of blocks that ran to their end, as a trace of these
    blocks. *)
Lemma block_by_block_events_of (blocks : list (list string))
    (s : registry handle) :
  block_by_block execute s blocks (events_of execute (concat blocks) s).
Proof.
  exists ((λ b, events_of execute b s) <$> blocks). split.
  - induction blocks as [|b blocks IH]; [done|]. simpl.
    by rewrite events_of_app, IH.
  - induction blocks as [|b blocks IH]; constructor; done.
Qed.


(** The loop awaits every future of a block it leaves by return. *)
Lemma never_retrieved_returns (futures : list (result unit)) :
  await_all futures = Ok tt → never_retrieved futures = [].
Proof.
  induction futures as [|[[]|e] futures IH]; simpl; [done|auto|done].
Qed.




Lemma bind_result {A B : Type} (m : M handle A) (k : A → M handle B) :
  (bind m k).2 = match m.2 with
                 | Ok a => (k a).2
                 | Raise e => Raise e
                 end.
Proof. unfold bind. by destruct m.2. Qed.


(** A loop that returns leaves nothing behind. *)
Lemma abandoned_returns (max_workers : string) (blocks : list (list string))
    (s : registry handle) :
  (run_line_sets execute max_workers blocks s).2 = Ok tt →
  abandoned execute max_workers blocks s = [].
Proof.
  induction blocks as [|b blocks IH]; [done|]. simpl. rewrite bind_result.
  destruct (run_line_set execute max_workers b s).2 as [[]|e]; [|done].
  apply IH.
Qed.



End Abandoned.

(** ** Logging out *)

Section Logout.
Context {handle : Type}.
Variable tm1_logout : handle → result unit.

Lemma logout_all_events (values : list handle) :
  (logout_all tm1_logout values).1 = Logout <$> logged_out tm1_logout values.
Proof.
  induction values as [|tm1 values IH]; [done|]. simpl.
  unfold bind, emit_event, lift. simpl.
  destruct (tm1_logout tm1) as [[]|e]; simpl; [|done]. by rewrite IH.
Qed.

Lemma logout_all_result (values : list handle) :
  (logout_all tm1_logout values).2 = first_raise tm1_logout values.
Proof.
  induction values as [|tm1 values IH]; [done|]. simpl.
  unfold bind, emit_event, lift. simpl.
  destruct (tm1_logout tm1) as [[]|e]; simpl; [|done]. by rewrite IH.
Qed.

(** When no logout raises every connection is logged out. *)
Lemma logged_out_all (values : list handle) :
  Forall (λ tm1, tm1_logout tm1 = Ok tt) values →
  logged_out tm1_logout values = values
  ∧ first_raise tm1_logout values = Ok tt.
Proof.
  induction 1 as [|tm1 values H _ [IH1 IH2]]; [done|]. simpl.
  by rewrite H, IH1, IH2.
Qed.

(** The first logout that raises is the last one called. *)
Lemma logged_out_stop (before after : list handle) (tm1 : handle) (e : exn) :
  Forall (λ tm1, tm1_logout tm1 = Ok tt) before → tm1_logout tm1 = Raise e →
  logged_out tm1_logout (before ++ tm1 :: after) = before ++ [tm1]
  ∧ first_raise tm1_logout (before ++ tm1 :: after) = Raise e.
Proof.
  intros Hb He. induction Hb as [|a before Ha _ [IH1 IH2]]; simpl.
  - by rewrite He.
  - by rewrite Ha, IH1, IH2.
Qed.

(** Only connections of the registry are logged out. *)
Lemma logged_out_sublist (values : list handle) (tm1 : handle) :
  tm1 ∈ logged_out tm1_logout values → tm1 ∈ values.
Proof.
  induction values as [|a values IH]; [done|]. simpl.
  rewrite !elem_of_cons. intros [->|H]; [by left|]. right.
  destruct (tm1_logout a); [auto|by apply elem_of_nil in H].
Qed.


End Logout.

(** What [main] does once the arguments are accepted and the registry is
    built. *)
Lemma main_after_setup {handle : Type}
    (execute : handle → string → gmap string string → N + string)
    (connect : string → gmap string string → handle + string)
    (tm1_logout : handle → result unit)
    (files : gmap string (list string)) (CONFIG : string)
    (argv : list string) (config : option (list (string * gmap string string)))
    (path_to_file max_workers : string) (tm1_services : registry handle)
    (events_a events_s : list (event handle)) :
  translate_cmd_arguments files argv
  = (events_a, Ok (path_to_file, max_workers)) →
  setup_tm1_services connect CONFIG config = (events_s, Ok tm1_services) →
  main execute connect tm1_logout files CONFIG argv config
  = let r := run_tasks execute tm1_logout files path_to_file max_workers
               tm1_services in
    (Log INFO (Msg_starts APPNAME argv) :: events_a ++ events_s ++ r.1
     ++ match r.2 with Ok _ => [Log INFO (Msg_ends APPNAME)] | Raise _ => [] end
     ++ ((λ e, Log ERROR (Msg_never_retrieved e))
         <$> reverse (abandoned_in execute files path_to_file max_workers
                        tm1_services)),
     r.2).
Proof.
  intros Ha Hs. unfold main, bind. simpl. rewrite Ha. simpl. rewrite Hs. simpl.
  unfold at_exit, bind. simpl.
  destruct (logout tm1_logout tm1_services).2 as [[]|e];
    [destruct (work_through_tasks execute files path_to_file max_workers
                 tm1_services).2 as [[]|e]|];
    simpl; by rewrite <- ?app_assoc.
Qed.

(** ** Malformed lines in a run *)





(** ** The whole run *)




Lemma run_line_sets_zero {handle : Type}
    (execute : handle → string → gmap string string → N + string)
    (line_sets : list (list string)) (tm1_services : registry handle) :
  line_sets ≠ [] →
  run_line_sets execute "0" line_sets tm1_services
  = ([], Raise (ValueError "max_workers must be greater than 0")).
Proof. by destruct line_sets. Qed.

Lemma abandoned_zero {handle : Type}
    (execute : handle → string → gmap string string → N + string)
    (line_sets : list (list string)) (tm1_services : registry handle) :
  abandoned execute "0" line_sets tm1_services = [].
Proof. by destruct line_sets. Qed.

(** C9: the check of the second argument accepts every string of digits,
    [0] among them.  With [0] the script builds the registry and enters
    the loop; making the pool of the first block raises, before any line
    is run, and the script ends with that exception after the logout.
    With no block at all, no pool is made and the script ends normally.
    That is the run when no logout raises; when one does, the script ends
    with the exception of that logout. *)
Theorem C9_zero_workers {handle : Type}
    (execute : handle → string → gmap string string → N + string)
    (connect : string → gmap string string → handle + string)
    (tm1_logout : handle → result unit)
    (files : gmap string (list string)) (CONFIG : string) :
  (∀ argv0 path max_workers rest,
     isfile files path = true → Py.isdigit max_workers = true →
     translate_cmd_arguments (handle := handle) files
       (argv0 :: path :: max_workers :: rest)
     = ([], Ok (path, max_workers)))
  ∧ Py.isdigit "0" = true
  ∧ (∀ argv0 path lines config events_s tm1_services,
       files !! path = Some lines →
       setup_tm1_services connect CONFIG config = (events_s, Ok tm1_services) →
       (logout tm1_logout tm1_services).2 = Ok tt →
       main execute connect tm1_logout files CONFIG [argv0; path; "0"] config
       = if decide (line_sets lines = [])
         then (Log INFO (Msg_starts APPNAME [argv0; path; "0"]) :: events_s
               ++ (logout tm1_logout tm1_services).1
               ++ [Log INFO (Msg_ends APPNAME)],
               Ok tt)
         else (Log INFO (Msg_starts APPNAME [argv0; path; "0"]) :: events_s
               ++ (logout tm1_logout tm1_services).1,
               Raise (ValueError "max_workers must be greater than 0")))
  ∧ (∀ argv0 path lines config events_s tm1_services e,
       files !! path = Some lines →
       setup_tm1_services connect CONFIG config = (events_s, Ok tm1_services) →
       (logout tm1_logout tm1_services).2 = Raise e →
       main execute connect tm1_logout files CONFIG [argv0; path; "0"] config
       = (Log INFO (Msg_starts APPNAME [argv0; path; "0"]) :: events_s
          ++ (logout tm1_logout tm1_services).1, Raise e)).
Proof.
  assert (∀ argv0 path max_workers rest,
     isfile files path = true → Py.isdigit max_workers = true →
     translate_cmd_arguments (handle := handle) files
       (argv0 :: path :: max_workers :: rest)
     = ([], Ok (path, max_workers))) as Ha.
  { intros argv0 path max_workers rest Hf Hd. unfold translate_cmd_arguments.
    by rewrite Hf, Hd. }
  assert (∀ argv0 path lines config events_s tm1_services,
       files !! path = Some lines →
       setup_tm1_services connect CONFIG config = (events_s, Ok tm1_services) →
       main execute connect tm1_logout files CONFIG [argv0; path; "0"] config
       = let out := logout tm1_logout tm1_services in
         let work := run_line_sets execute "0" (line_sets lines) tm1_services in
         let res := match out.2 with Ok _ => work.2 | Raise e => Raise e end in
         (Log INFO (Msg_starts APPNAME [argv0; path; "0"]) :: events_s
          ++ work.1 ++ out.1
          ++ match res with
             | Ok _ => [Log INFO (Msg_ends APPNAME)]
             | Raise _ => []
             end, res)) as Hmain.
  { intros argv0 path lines config events_s tm1_services Hf Hs.
    rewrite (main_after_setup execute connect tm1_logout files CONFIG _ config
               path "0" tm1_services [] events_s); [|apply Ha|done].
    2:{ unfold isfile. apply bool_decide_eq_true. by eexists. }
    2:{ done. }
    unfold abandoned_in, run_tasks, try_finally, work_through_tasks.
    rewrite Hf, abandoned_zero. cbv zeta. simpl.
    by rewrite app_nil_r, <- !app_assoc. }
  split_and!; [done|done|..].
  - intros argv0 path lines config events_s tm1_services Hf Hs Hout.
    rewrite (Hmain argv0 path lines config events_s tm1_services Hf Hs).
    cbv zeta. rewrite Hout. case_decide as Hl.
    + by rewrite Hl.
    + rewrite run_line_sets_zero by done. simpl. by rewrite app_nil_r.
  - intros argv0 path lines config events_s tm1_services e Hf Hs Hout.
    rewrite (Hmain argv0 path lines config events_s tm1_services Hf Hs).
    cbv zeta. rewrite Hout. rewrite app_nil_r.
    destruct (decide (line_sets lines = [])) as [Hl|Hl].
    + by rewrite Hl.
    + by rewrite run_line_sets_zero by done.
Qed.

Lemma C9_zero_workers_witness :
  translate_cmd_arguments (handle := nat) Demo.files
    ["RushTI.py"; "tasks.txt"; "0"]
  = ([], Ok ("tasks.txt", "0"))
  ∧ main Demo.execute Demo.connect Demo.tm1_logout Demo.files "config.ini"
      ["RushTI.py"; "tasks.txt"; "0"] Demo.config
    = ([Log INFO (Msg_starts "RushTI" ["RushTI.py"; "tasks.txt"; "0"]);
        Connect "A"; Connect "B";
        Log ERROR (Msg_text
          "TM1 instance B not accessible. Error: unreachable");
        Logout 7],
       Raise (ValueError "max_workers must be greater than 0"))
  ∧ main Demo.execute Demo.connect_both Demo.failing_logout Demo.files
      "config.ini" ["RushTI.py"; "tasks.txt"; "0"] (Some [("B", ∅); ("A", ∅)])
    = ([Log INFO (Msg_starts "RushTI" ["RushTI.py"; "tasks.txt"; "0"]);
        Connect "B"; Connect "A"; Logout 8],
       Raise (Exception "logout failed")).
Proof.
  destruct (C9_zero_workers Demo.execute Demo.connect Demo.tm1_logout
              Demo.files "config.ini") as (Ha & _ & Hmain & _).
  destruct (C9_zero_workers Demo.execute Demo.connect_both
              Demo.failing_logout Demo.files "config.ini")
    as (_ & _ & _ & Hfail).
  split_and!.
  - apply Ha; by vm_compute.
  - rewrite (Hmain "RushTI.py" "tasks.txt" Demo.lines Demo.config
               [Connect "A"; Connect "B";
                Log ERROR (Msg_text
                  "TM1 instance B not accessible. Error: unreachable")]
               Demo.tm1_services); by vm_compute.
  - rewrite (Hfail "RushTI.py" "tasks.txt" Demo.lines
               (Some [("B", ∅); ("A", ∅)]) [Connect "B"; Connect "A"]
               Demo.two_services (Exception "logout failed"));
      by vm_compute.
Defined.

(** ** The barrier *)

(** C1: in every state the loop can reach, with any limit on the workers,
    once a line of a block is submitted every call of every earlier block
    has its result or exception; once the block of a turn is left, by
    return or by exception, so has every call of it; the calls are those
    of the lines of the blocks.  The loop is not stuck before the
    coroutine has returned or raised, and every run of it ends: the number
    of its moves is bounded. *)
Theorem C1_batch_barrier {handle : Type}
    (execute : handle → string → gmap string string → N + string)
    (tm1_services : registry handle) (max_workers : string)
    (lines : list string) (s : Pool.state) :
  Pool.reachable execute tm1_services max_workers (line_sets lines) s →
  (∀ i j k st,
     (i < j)%nat → Pool.get (Pool.table s) j k = Some st →
     st ≠ Pool.Pending → Pool.all_terminal (Pool.table s) i)
  ∧ (∀ i, Pool.left_block (Pool.at_pc s) i →
          Pool.all_terminal (Pool.table s) i)
  ∧ (∀ i k, is_Some (Pool.get (Pool.table s) i k)
            ↔ is_Some (line_sets lines !! i ≫= (.!! k)))
  ∧ (¬ Pool.final (Pool.at_pc s) →
     ∃ s', Pool.step execute tm1_services max_workers (line_sets lines) s s')
  ∧ (∃ s', rtc (Pool.step execute tm1_services max_workers (line_sets lines))
             s s'
           ∧ Pool.final (Pool.at_pc s'))
  ∧ (∀ n s',
       nsteps (Pool.step execute tm1_services max_workers (line_sets lines))
         n s s' →
       (n ≤ Pool.measure (line_sets lines) s)%nat).
Proof.
  intros Hr. apply Pool_facts.inv_reachable in Hr. split_and!.
  - intros i j k st Hij Hget Hst.
    by eapply Pool_facts.inv_dispatched; [exact Hr|..].
  - intros i Hleft. by eapply Pool_facts.inv_left_block; [exact Hr|].
  - apply Hr.
  - intros Hfin. by eapply Pool_facts.inv_progress; [exact Hr|].
  - by eapply Pool_facts.reaches_final.
  - intros n s' Hn. by eapply Pool_facts.nsteps_bounded.
Qed.

Ltac side := first [by vm_compute | simpl; lia | vm_compute; lia].

(** With one worker for a block of two lines: the second block is
    entered, and its line submitted, after both calls of the first block
    are over. *)
Lemma demo_reachable :
  Pool.reachable Demo.execute Demo.tm1_services "1" (line_sets Demo.lines)
    (Pool.State (Pool.Submitting 1 1)
       [[Pool.Done false; Pool.Done false]; [Pool.Queued]]).
Proof.
  unfold Pool.reachable.
  replace (line_sets Demo.lines) with
    [[Demo.task "A" "P1"; Demo.task "A" "P2"]; [Demo.task "A" "P3"]]
    by by vm_compute.
  eapply rtc_l. { eapply (Pool.step_create _ _ _ _ 0 1%Z); side. }
  eapply rtc_l. { eapply Pool.step_submit. side. }
  eapply rtc_l.
  { eapply Pool.step_start with (i := 0%nat) (k := 0%nat) (n := 1%Z); side. }
  eapply rtc_l. { eapply Pool.step_submit. side. }
  eapply rtc_l. { eapply (Pool.step_submitted _ _ _ _ 0 [_; _]). side. }
  eapply rtc_l.
  { eapply Pool.step_finish with (i := 0%nat) (k := 0%nat); side. }
  eapply rtc_l. { eapply Pool.step_await_result. side. }
  eapply rtc_l.
  { eapply Pool.step_start with (i := 0%nat) (k := 1%nat) (n := 1%Z);
      [side| |side|side].
    intros j Hj. assert (j = 0%nat) as -> by lia. side. }
  eapply rtc_l.
  { eapply Pool.step_finish with (i := 0%nat) (k := 1%nat); side. }
  eapply rtc_l. { eapply Pool.step_await_result. side. }
  eapply rtc_l. { eapply (Pool.step_await_end _ _ _ _ 0 [_; _]). side. }
  eapply rtc_l.
  { eapply Pool.step_leave. intros k st Hst.
    destruct k as [|[|k]]; vm_compute in Hst; simplify_eq; by eexists. }
  eapply rtc_l. { eapply (Pool.step_create _ _ _ _ 1 1%Z); side. }
  eapply rtc_l. { eapply Pool.step_submit. side. }
  vm_compute. apply rtc_refl.
Qed.

Lemma C1_batch_barrier_witness :
  Pool.all_terminal [[Pool.Done false; Pool.Done false]; [Pool.Queued]] 0
  ∧ ∃ s', Pool.step Demo.execute Demo.tm1_services "1" (line_sets Demo.lines)
            (Pool.State (Pool.Submitting 1 1)
               [[Pool.Done false; Pool.Done false]; [Pool.Queued]]) s'.
Proof.
  destruct (C1_batch_barrier Demo.execute Demo.tm1_services "1" Demo.lines
              _ demo_reachable) as (Hd & _ & _ & Hp & _).
  split.
  - apply (Hd 0%nat 1%nat 0%nat Pool.Queued); [lia|done|done].
  - apply Hp. simpl. tauto.
Defined.

(** * Further properties *)

(** Division and remainder on [nat], for [lia]. *)
From Stdlib Require Import ZifyNat.

(** ** Stripping *)

Lemma lstrip_head (p : ascii → bool) (s : string) :
  match Py.lstrip p s with
  | EmptyString => Py.all_chars p s = true
  | String c _ => p c = false
  end.
Proof.
  induction s as [|c s IH]; [done|]. simpl.
  destruct (p c) eqn:E; [|done]. simpl. done.
Qed.

Lemma rstrip_empty (p : ascii → bool) (s : string) :
  Py.rstrip p s = "" ↔ Py.all_chars p s = true.
Proof.
  induction s as [|c s IH]; [done|]. simpl.
  destruct (Py.rstrip p s) as [|d r].
  - destruct (p c); simpl; [|done]. split; [intros _; by apply IH|done].
  - split; [done|]. intros H. apply andb_true_iff in H as [_ H].
    by apply IH in H.
Qed.

Lemma rstrip_head (p : ascii → bool) (c : ascii) (s : string) :
  p c = false → ∃ r, Py.rstrip p (String c s) = String c r.
Proof.
  intros Hc. simpl. destruct (Py.rstrip p s); rewrite ?Hc; eauto.
Qed.

Lemma rstrip_idemp (p : ascii → bool) (s : string) :
  Py.rstrip p (Py.rstrip p s) = Py.rstrip p s.
Proof.
  induction s as [|c s IH]; [done|]. simpl.
  destruct (Py.rstrip p s) as [|d r] eqn:E.
  - destruct (p c) eqn:Hc; [done|]. simpl. by rewrite Hc.
  - change (Py.rstrip p (String c (String d r))) with
      (match Py.rstrip p (String d r) with
       | EmptyString => if p c then EmptyString else String c EmptyString
       | r' => String c r'
       end).
    by rewrite IH.
Qed.

(** The whitespace goes when the text is nothing but whitespace. *)
Lemma strip_with_empty (p : ascii → bool) (s : string) :
  Py.strip_with p s = "" ↔ Py.all_chars p s = true.
Proof.
  unfold Py.strip_with. pose proof (lstrip_head p s) as Hl.
  destruct (Py.lstrip p s) as [|c t] eqn:E.
  { split; [done|]. by intros _. }
  destruct (rstrip_head p c t Hl) as [r ->]. split; [done|].
  intros Hall. exfalso. clear r.
  revert E. induction s as [|d s IH]; [done|]. simpl in *.
  apply andb_true_iff in Hall as [Hd Hall]. rewrite Hd. by apply IH.
Qed.

(** Stripping twice is stripping once. *)
Lemma strip_with_idemp (p : ascii → bool) (s : string) :
  Py.strip_with p (Py.strip_with p s) = Py.strip_with p s.
Proof.
  unfold Py.strip_with. pose proof (lstrip_head p s) as Hl.
  destruct (Py.lstrip p s) as [|c t]; [done|].
  destruct (rstrip_head p c t Hl) as [r E]. rewrite E.
  cbn [Py.lstrip]. rewrite Hl. rewrite <- E. apply rstrip_idemp.
Qed.

Lemma strip_with_id (p : ascii → bool) (s : string) :
  Py.all_chars (λ c, negb (p c)) s = true → Py.strip_with p s = s.
Proof.
  intros H. unfold Py.strip_with.
  assert (Py.lstrip p s = s) as ->.
  { destruct s as [|c s]; [done|]. simpl in *.
    apply andb_true_iff in H as [Hc _]. apply negb_true_iff in Hc.
    by rewrite Hc. }
  induction s as [|c s IH]; [done|]. simpl in *.
  apply andb_true_iff in H as [Hc H]. apply negb_true_iff in Hc.
  rewrite IH by done. destruct s; by rewrite ?Hc.
Qed.

Lemma is_blank_spec (line : string) :
  is_blank line = true ↔ Py.all_chars Py.isspace line = true.
Proof.
  unfold is_blank. rewrite Nat.eqb_eq, <- (strip_with_empty Py.isspace line).
  unfold Py.strip. by destruct (Py.strip_with Py.isspace line).
Qed.

Lemma clean_stripped (value : string) : Py.strip (clean value) = clean value.
Proof. unfold clean, Py.strip. apply strip_with_idemp. Qed.

Lemma all_chars_impl (p q : ascii → bool) (s : string) :
  (∀ c, p c = true → q c = true) →
  Py.all_chars p s = true → Py.all_chars q s = true.
Proof.
  intros H. induction s as [|c s IH]; [done|]. simpl.
  rewrite !andb_true_iff. intros [Hc Hs]. auto.
Qed.

(** ** What the parser raises, and when *)

Lemma lex_raises (input : string) (st esc : Shlex.state) (quoted : bool)
    (token : string) (e : exn) :
  Shlex.lex input st esc quoted token = Raise e →
  e = ValueError "No closing quotation" ∨ e = ValueError "No escaped character".
Proof.
  revert st esc quoted token.
  induction input as [|c input IH]; intros st esc quoted token.
  { destruct st; simpl; unfold Shlex.emit; simpl;
      repeat case_match; naive_solver. }
  assert (∀ q t r, Shlex.emit q t r = Raise e → r = Raise e) as Hemit.
  { intros q t [toks|e'] H; unfold Shlex.emit in H; simpl in H;
      repeat case_match; naive_solver. }
  destruct st; cbn [Shlex.lex]; repeat case_match; intros Hr;
    try apply Hemit in Hr; by eapply IH.
Qed.

Lemma parse_pairs_raises (toks : list string) (d : gmap string string)
    (e : exn) :
  parse_pairs toks d = Raise e →
  e = ValueError "not enough values to unpack (expected 2, got 1)"
  ∨ e = ValueError "too many values to unpack (expected 2)".
Proof.
  revert d. induction toks as [|tok toks IH]; intros d; [done|]. simpl.
  repeat case_match; intros Hr; try (by eapply IH); naive_solver.
Qed.

Lemma extract_info_from_line_raises (line : string) (e : exn) :
  extract_info_from_line line = Raise e → e ∈ parse_errors.
Proof.
  unfold extract_info_from_line, parse_errors, pop.
  destruct (Shlex.split line) as [toks|e1] eqn:E1; simpl.
  2:{ intros [= ->]. apply lex_raises in E1 as [-> | ->]; set_solver. }
  destruct (parse_pairs toks ∅) as [d|e2] eqn:E2; simpl.
  2:{ intros [= ->]. apply parse_pairs_raises in E2 as [-> | ->]; set_solver. }
  destruct (d !! "instance"); simpl; [|intros [= <-]; set_solver].
  destruct (delete "instance" d !! "process"); simpl; [done|].
  intros [= <-]; set_solver.
Qed.

Lemma key_values_or_not (toks : list string) :
  (∃ kvs, Forall2 key_value toks kvs) ∨ Exists not_key_value toks.
Proof.
  induction toks as [|tok toks [[kvs IH]|IH]].
  - left. by exists [].
  - destruct (Py.split "=" tok) as [|k [|v [|? ?]]] eqn:E.
    1,2,4: right; left; unfold not_key_value; by rewrite E.
    left. exists ((k, v) :: kvs). by constructor.
  - right. by right.
Qed.

(** X1: on a line that the lexer accepts, the parser raises exactly when
    the line is malformed: a token without [=] or with more than one, or
    no [instance], or no [process].  Every other line parses. *)
Theorem extract_info_from_line_raises_iff (line : string)
    (toks : list string) :
  Shlex.split line = Ok toks →
  (∃ e, extract_info_from_line line = Raise e) ↔ malformed toks.
Proof.
  intros Hs. split; [|by apply extract_info_from_line_malformed].
  intros [e He]. destruct (key_values_or_not toks) as [[kvs Hkv]|Hbad].
  2:{ by left. }
  right. exists kvs. split; [done|].
  rewrite (extract_info_from_line_pairs line toks kvs) in He by done.
  destruct (last_value is_instance kvs); [|by left].
  destruct (last_value is_process kvs); [done|by right].
Qed.

Lemma extract_info_from_line_raises_iff_witness :
  (∃ e, extract_info_from_line "instance=A process" = Raise e)
  ↔ malformed ["instance=A"; "process"].
Proof. by apply (extract_info_from_line_raises_iff "instance=A process"). Defined.

(** ** Tokens *)

Lemma split_length (sep : ascii) (s : string) :
  length (Py.split sep s) = S (count_char sep s).
Proof.
  induction s as [|c s IH]; [done|]. simpl.
  destruct (Ascii.eqb c sep); simpl; [by rewrite IH|].
  destruct (Py.split sep s); simpl in *; lia.
Qed.

Lemma count_char_in (c : ascii) (s : string) :
  count_char c s = 0%nat ↔ Py.char_in c s = false.
Proof.
  induction s as [|d s IH]; [done|]. simpl. rewrite (Ascii.eqb_sym c d).
  destruct (Ascii.eqb d c); simpl; [done|]. apply IH.
Qed.

Lemma count_char_app (c : ascii) (s1 s2 : string) :
  count_char c (s1 +:+ s2) = (count_char c s1 + count_char c s2)%nat.
Proof.
  induction s1 as [|d s1 IH]; [done|]. rewrite string_app_cons. simpl.
  rewrite IH. lia.
Qed.

(** Without the separator the text is the only part. *)
Lemma split_none (sep : ascii) (s : string) :
  count_char sep s = 0%nat → Py.split sep s = [s].
Proof.
  induction s as [|c s IH]; [done|]. simpl.
  destruct (Ascii.eqb c sep); [done|]. intros H. by rewrite IH.
Qed.

(** With the separator once, the parts are what stands before and after
    it. *)
Lemma split_once (sep : ascii) (s : string) :
  count_char sep s = 1%nat →
  ∃ k v, Py.split sep s = [k; v] ∧ s = k +:+ String sep v
         ∧ count_char sep k = 0%nat ∧ count_char sep v = 0%nat.
Proof.
  induction s as [|c s IH]; [done|]. simpl.
  destruct (Ascii.eqb_spec c sep) as [->|Hne]; simpl.
  - intros [= H]. exists "", s. by rewrite split_none.
  - intros H. destruct (IH H) as (k & v & -> & -> & Hk & Hv).
    exists (String c k), v. split_and!; try done. simpl.
    apply Ascii.eqb_neq in Hne. by rewrite Hne.
Qed.

Lemma split_join (sep : ascii) (k v : string) :
  count_char sep k = 0%nat → count_char sep v = 0%nat →
  Py.split sep (k +:+ String sep v) = [k; v].
Proof.
  intros Hk Hv. induction k as [|c k IH].
  { rewrite string_app_nil_l. simpl. rewrite Ascii.eqb_refl.
    by rewrite split_none. }
  rewrite string_app_cons. simpl in *.
  destruct (Ascii.eqb c sep); [done|]. by rewrite IH.
Qed.

(** X2: a token is a key with its value exactly when it holds the sign [=]
    once; the key is then what stands before the sign and the value what
    stands after it.  A token without the sign, and a token with more than
    one, as when the value holds the sign, makes the loop over the tokens
    raise, whatever the tokens after it. *)
Theorem token_key_value (tok : string) :
  (∀ k v, key_value tok (k, v)
          ↔ tok = k +:+ "=" +:+ v ∧ count_char "=" tok = 1%nat)
  ∧ (not_key_value tok ↔ count_char "=" tok ≠ 1%nat)
  ∧ ∀ toks d,
      (count_char "=" tok = 0%nat →
       parse_pairs (tok :: toks) d
       = Raise (ValueError "not enough values to unpack (expected 2, got 1)"))
      ∧ ((1 < count_char "=" tok)%nat →
         parse_pairs (tok :: toks) d
         = Raise (ValueError "too many values to unpack (expected 2)")).
Proof.
  pose proof (split_length "=" tok) as Hlen. split_and!.
  - intros k v. unfold key_value. simpl. split.
    + intros E. rewrite E in Hlen. simpl in Hlen.
      assert (count_char "=" tok = 1%nat) as H1 by lia. split; [|done].
      destruct (split_once "=" tok H1) as (k' & v' & E' & -> & _).
      rewrite E' in E. by injection E as -> ->.
    + intros [-> H1]. change (k +:+ "=" +:+ v) with (k +:+ String "=" v) in *.
      rewrite count_char_app in H1. simpl in H1.
      apply split_join; lia.
  - unfold not_key_value. rewrite Hlen. lia.
  - intros toks d. split; intros H; simpl.
    + by rewrite split_none.
    + destruct (Py.split "=" tok) as [|? [|? [|? ?]]]; simpl in Hlen;
        done || lia.
Qed.

Lemma token_key_value_witness :
  key_value "pFilter=x" ("pFilter", "x")
  ∧ parse_pairs ("pFilter=a=b" :: ["instance=A"]) ∅
    = Raise (ValueError "too many values to unpack (expected 2)").
Proof.
  split.
  - by apply (token_key_value "pFilter=x").
  - destruct (token_key_value "pFilter=a=b") as (_ & _ & H).
    apply (H ["instance=A"] ∅). simpl. lia.
Defined.

(** ** What the parser hands on *)

Lemma is_required_lower (param : string) :
  is_required param = true →
  Py.lower param = "instance" ∨ Py.lower param = "process".
Proof.
  unfold is_required. intros [H|H]%orb_true_iff; apply String.eqb_eq in H; auto.
Qed.

Lemma stripped_insert (d : gmap string string) (param value : string) :
  stripped d → stripped (<[stored_key param := clean value]> d).
Proof.
  intros [Hv Hk]. split.
  - intros k v. destruct (decide (k = stored_key param)) as [->|Hne].
    + rewrite lookup_insert_eq. intros [= <-]. apply clean_stripped.
    + rewrite lookup_insert_ne by done. apply Hv.
  - intros k Hr. destruct (decide (k = stored_key param)) as [->|Hne].
    + intros _. unfold stored_key in *.
      destruct (is_required param) eqn:Hp; [|congruence].
      by apply is_required_lower.
    + rewrite lookup_insert_ne by done. by apply Hk.
Qed.

Lemma parse_pairs_stripped (toks : list string) (d d' : gmap string string) :
  parse_pairs toks d = Ok d' → stripped d → stripped d'.
Proof.
  revert d. induction toks as [|tok toks IH]; intros d; simpl.
  { by intros [= <-]. }
  destruct (Py.split "=" tok) as [|param [|value [|? ?]]]; try done.
  intros Hp Hd. pose proof (stripped_insert d param value Hd) as Hi.
  unfold stored_key in Hi. destruct (is_required param); by eapply IH.
Qed.

(** X3: what [extract_info_from_line] returns is stripped: the instance,
    the process and every parameter value come without whitespace at
    either end, and no parameter is left whose name reads [instance] or
    [process] in any case, so that none of the two is passed on to the
    process as a parameter. *)
Theorem extract_info_from_line_stripped (line : string)
    (instance_name process_name : string) (parameters : gmap string string) :
  extract_info_from_line line = Ok (instance_name, process_name, parameters) →
  Py.strip instance_name = instance_name
  ∧ Py.strip process_name = process_name
  ∧ (∀ k v, parameters !! k = Some v → Py.strip v = v)
  ∧ (∀ k, Py.lower k = "instance" ∨ Py.lower k = "process" →
          parameters !! k = None).
Proof.
  unfold extract_info_from_line, pop.
  destruct (Shlex.split line) as [toks|]; [|done]. simpl.
  destruct (parse_pairs toks ∅) as [d|] eqn:Hd; [|done]. simpl.
  apply parse_pairs_stripped in Hd as [Hv Hk].
  2:{ split; intros k; rewrite lookup_empty; [done|]. by intros _ [??]. }
  destruct (d !! "instance") as [i|] eqn:Hi; [|done]. simpl.
  rewrite lookup_delete_ne by done.
  destruct (d !! "process") as [p|] eqn:Hp; [|done]. simpl.
  intros [= <- <- <-]. split_and!; [by eapply Hv..| |].
  - intros k v Hl. apply lookup_delete_Some in Hl as [_ Hl].
    apply lookup_delete_Some in Hl as [_ Hl]. by eapply Hv.
  - intros k Hr.
    destruct (delete "process" (delete "instance" d) !! k) as [v|] eqn:Hl;
      [|done].
    apply lookup_delete_Some in Hl as [H1 Hl].
    apply lookup_delete_Some in Hl as [H2 Hl].
    destruct (Hk k) as [?|?]; [|by eexists|done..].
    unfold is_required. destruct Hr as [-> | ->]; by vm_compute.
Qed.

Lemma extract_info_from_line_stripped_witness :
  Py.strip "A" = "A" ∧ Py.strip "P1" = "P1"
  ∧ (∀ k v, ({[ "pName" := "x" ]} : gmap string string) !! k = Some v →
            Py.strip v = v)
  ∧ (∀ k, Py.lower k = "instance" ∨ Py.lower k = "process" →
          ({[ "pName" := "x" ]} : gmap string string) !! k = None).
Proof.
  apply (extract_info_from_line_stripped
           ("INSTANCE=A Process=P1 pName=" +:+ Demo.quoted " x ")).
  by vm_compute.
Defined.

(** ** Lines without quotes *)

Lemma fields_cons (sep : ascii → bool) (s : string) :
  ∃ h r, fields sep s = h :: r.
Proof.
  destruct s as [|c s]; simpl; [by eexists _, _|].
  destruct (sep c); [by eexists _, _|].
  destruct (fields sep s); by eexists _, _.
Qed.

Lemma lex_unquoted (input : string) (st esc : Shlex.state) (token : string) :
  Py.all_chars unquoted input = true →
  (st = Shlex.In_space ∧ token = "") ∨ (st = Shlex.In_word ∧ token ≠ "") →
  ∀ h r, fields is_whitespace input = h :: r →
  Shlex.lex input st esc false token
  = Ok (filter (λ t, t ≠ "") ((token +:+ h) :: r)).
Proof.
  revert st esc token.
  induction input as [|c input IH]; intros st esc token Hu Hst h r Hf.
  { simpl in Hf. injection Hf as <- <-. rewrite string_app_nil_r.
    destruct Hst as [[-> ->]|[-> Ht]]; simpl; unfold Shlex.emit; simpl.
    - by rewrite filter_cons, decide_False by by intros H.
    - destruct token; [done|]. simpl. by rewrite filter_cons, decide_True. }
  simpl in Hu. apply andb_true_iff in Hu as [Hc Hu]. unfold unquoted in Hc.
  apply andb_true_iff in Hc as [Hq He]. apply negb_true_iff in Hq, He.
  destruct (fields_cons is_whitespace input) as (h' & r' & Hf').
  simpl in Hf. rewrite Hf' in Hf. unfold is_whitespace in Hf.
  destruct (Py.char_in c Shlex.whitespace) eqn:Hw.
  - injection Hf as <- <-. rewrite string_app_nil_r.
    rewrite <- (string_app_nil_l h') at 1.
    destruct Hst as [[-> ->]|[-> Ht]]; cbn [Shlex.lex]; rewrite Hw.
    + simpl. rewrite (IH Shlex.In_space esc "" Hu) with (h := h') (r := r');
        [|by left|done].
      rewrite (filter_cons _ ""), decide_False by by intros H. done.
    + destruct token as [|d token]; [done|]. simpl.
      rewrite (IH Shlex.In_space Shlex.In_space "" Hu) with (h := h') (r := r');
        [|by left|done].
      unfold Shlex.emit. simpl. by rewrite (filter_cons _ (String d token)),
        decide_True by done.
  - injection Hf as <- <-.
    destruct Hst as [[-> ->]|[-> Ht]]; cbn [Shlex.lex]; rewrite Hw, Hq, He.
    + rewrite (IH Shlex.In_word esc (String c "") Hu) with (h := h') (r := r');
        [done|by right|done].
    + rewrite (IH Shlex.In_word esc (Shlex.snoc token c) Hu)
        with (h := h') (r := r'); [|right|done].
      * by rewrite snoc_app.
      * split; [done|]. unfold Shlex.snoc. by destruct token.
Qed.

(** X4: on a line without quotes and without backslashes the lexer never
    raises, and its tokens are the words of the line: the line cut at
    every blank, tab, carriage return and line feed, the empty pieces
    dropped. *)
Theorem shlex_split_unquoted (line : string) :
  Py.all_chars unquoted line = true →
  Shlex.split line
  = Ok (filter (λ t, t ≠ "") (fields is_whitespace line)).
Proof.
  intros Hu. unfold Shlex.split.
  destruct (fields_cons is_whitespace line) as (h & r & Hf). rewrite Hf.
  rewrite <- (string_app_nil_l h). apply lex_unquoted; [done|by left|done].
Qed.

Lemma shlex_split_unquoted_witness :
  Shlex.split "  instance=A   process=P1 "
  = Ok (filter (λ t, t ≠ "")
          (fields is_whitespace "  instance=A   process=P1 ")).
Proof. apply shlex_split_unquoted. by vm_compute. Defined.

(** ** What a line can do *)

Section Line.
Context {handle : Type}.
Variable execute : handle → string → gmap string string → N + string.

(** The three traces of a line that returns, and the one of a line that
    raises. *)
Lemma execute_line_cases (line : string) (tm1_services : registry handle) :
  (is_blank line = true ∧ execute_line execute line tm1_services = ([], Ok tt))
  ∨ (is_blank line = false ∧
     ∃ e, extract_info_from_line line = Raise e
          ∧ execute_line execute line tm1_services = ([], Raise e))
  ∨ (is_blank line = false ∧
     ∃ instance_name process_name parameters,
       extract_info_from_line line
       = Ok (instance_name, process_name, parameters)
       ∧ ((tm1_services !! instance_name = None
           ∧ execute_line execute line tm1_services
             = ([Log ERROR (Msg_text
                              (not_accessible process_name instance_name))],
                Ok tt))
          ∨ ∃ tm1 l m,
              tm1_services !! instance_name = Some tm1
              ∧ execute_line execute line tm1_services
                = ([Log INFO (Msg_executing process_name parameters
                                instance_name);
                    Execute tm1 process_name parameters; Log l m], Ok tt)
              ∧ ∀ app_name, m ≠ Msg_ends app_name)).
Proof.
  destruct (is_blank line) eqn:Hb.
  { left. split; [done|]. by apply execute_line_blank. }
  right. destruct (extract_info_from_line line) as [[[i p] params]|e] eqn:He.
  2:{ left. split; [done|]. exists e. split; [done|].
      by apply execute_line_raise. }
  right. split; [done|]. exists i, p, params. split; [done|].
  destruct (tm1_services !! i) as [tm1|] eqn:Hs.
  - right. exists tm1.
    rewrite (execute_line_present execute line tm1_services i p params tm1)
      by done.
    destruct (execute tm1 p params); eauto 10.
  - left. split; [done|].
    by apply (execute_line_absent execute line tm1_services i p params).
Qed.

End Line.

(** X5: a line is passed over in silence, nothing logged, nothing called and
    nothing raised, exactly when it holds nothing but whitespace. *)
Theorem execute_line_silent {handle : Type}
    (execute : handle → string → gmap string string → N + string)
    (line : string) (tm1_services : registry handle) :
  execute_line execute line tm1_services = ([], Ok tt)
  ↔ Py.all_chars Py.isspace line = true.
Proof.
  rewrite <- is_blank_spec.
  destruct (execute_line_cases execute line tm1_services)
    as [[Hb E]|[[Hb (e & He & E)]|[Hb (i & p & params & He & H)]]];
    rewrite Hb.
  - done.
  - rewrite E. split; intros; discriminate.
  - destruct H as [[Hs E]|(tm1' & l & m & Hs & E & _)]; rewrite E;
      split; intros; discriminate.
Qed.

(** X6: a task line can fail in six ways only: the two errors of the lexer
    (a quote that is not closed, a trailing backslash), the two of the
    unpacking of a token (no [=], more than one), and the two missing keys.
    When [execute_line] raises, it is with the exception of the parser, on
    a line that is not blank, and before it has logged or called
    anything. *)
Theorem execute_line_exceptions {handle : Type}
    (execute : handle → string → gmap string string → N + string)
    (line : string) (tm1_services : registry handle) (e : exn) :
  (execute_line execute line tm1_services).2 = Raise e →
  e ∈ [ValueError "No closing quotation"; ValueError "No escaped character";
       ValueError "not enough values to unpack (expected 2, got 1)";
       ValueError "too many values to unpack (expected 2)";
       KeyError "instance"; KeyError "process"]
  ∧ extract_info_from_line line = Raise e
  ∧ Py.all_chars Py.isspace line = false
  ∧ (execute_line execute line tm1_services).1 = [].
Proof.
  intros Hr.
  assert (Py.all_chars Py.isspace line = false ↔ is_blank line = false) as Hbl.
  { rewrite <- !not_true_iff_false. by rewrite is_blank_spec. }
  rewrite Hbl.
  destruct (execute_line_cases execute line tm1_services)
    as [[Hb E]|[[Hb (e' & He & E)]|[Hb (i & p & params & He & H)]]].
  - by rewrite E in Hr.
  - rewrite E in Hr |- *. injection Hr as ->. split_and!; try done.
    by apply (extract_info_from_line_raises line).
  - destruct H as [[Hs E]|(tm1' & l & m & Hs & E & _)]; by rewrite E in Hr.
Qed.

Lemma execute_line_exceptions_witness :
  extract_info_from_line ("process=" +:+ Demo.quoted "P1" +:+ Py.LF)
  = Raise (KeyError "instance")
  ∧ (execute_line Demo.execute ("process=" +:+ Demo.quoted "P1" +:+ Py.LF)
       Demo.tm1_services).1 = [].
Proof.
  destruct (execute_line_exceptions Demo.execute
              ("process=" +:+ Demo.quoted "P1" +:+ Py.LF) Demo.tm1_services
              (KeyError "instance")) as (_ & He & _ & Hev); [by vm_compute|].
  by split.
Defined.

(** ** What a run can do *)

Section Blocks.
Context {handle : Type}.
Variable execute : handle → string → gmap string string → N + string.
Variable files : gmap string (list string).

(** The loop runs the blocks in order and stops after [k] of them; it
    returns only when it has run them all. *)
Lemma run_line_sets_prefix (max_workers : string)
    (blocks : list (list string)) (s : registry handle) :
  ∃ k, (run_line_sets execute max_workers blocks s).1
       = events_of execute (concat (take k blocks)) s
       ∧ ((run_line_sets execute max_workers blocks s).2 = Ok tt →
          k = length blocks).
Proof.
  induction blocks as [|b blocks (k & IH1 & IH2)].
  { by exists 0%nat. }
  simpl. unfold run_line_set at 1 2, bind, lift. simpl.
  destruct (int max_workers) as [n|e] eqn:Hn; simpl.
  2:{ by exists 0%nat. }
  destruct (n <=? 0)%Z eqn:Hz; simpl.
  { by exists 0%nat. }
  destruct (await_all _) as [[]|e] eqn:Ha; simpl.
  - exists (S k). simpl. rewrite events_of_app, IH1.
    split; [|intros H; by rewrite IH2].
    unfold events_of. by rewrite <- !list_fmap_compose.
  - exists 1%nat. simpl. rewrite app_nil_r. split; [|done].
    unfold events_of. by rewrite <- !list_fmap_compose.
Qed.

Lemma elem_of_concat {A} (x : A) (ls : list (list A)) :
  x ∈ concat ls ↔ ∃ l, x ∈ l ∧ l ∈ ls.
Proof.
  induction ls as [|l ls IH]; simpl.
  { split; [by intros ?%elem_of_nil|]. by intros (l & _ & ?%elem_of_nil). }
  rewrite elem_of_app, IH. split.
  - intros [H|(l' & H1 & H2)]; [exists l|exists l']; split; try done.
    + apply list_elem_of_here.
    + by apply list_elem_of_further.
  - intros (l' & H1 & [->|H2]%elem_of_cons); [by left|right; eauto].
Qed.

Lemma elem_of_events_of (ev : event handle) (lines : list string)
    (s : registry handle) :
  ev ∈ events_of execute lines s
  ↔ ∃ line, line ∈ lines ∧ ev ∈ (execute_line execute line s).1.
Proof.
  unfold events_of. rewrite elem_of_concat. split.
  - intros (evs & Hev & Hin). apply list_elem_of_fmap in Hin as (line & -> & Hin).
    eauto.
  - intros (line & Hin & Hev). eexists. split; [exact Hev|].
    apply list_elem_of_fmap. eauto.
Qed.

Lemma elem_of_run_line_sets (ev : event handle) (max_workers : string)
    (blocks : list (list string)) (s : registry handle) :
  ev ∈ (run_line_sets execute max_workers blocks s).1 →
  ∃ line, line ∈ concat blocks ∧ ev ∈ (execute_line execute line s).1.
Proof.
  destruct (run_line_sets_prefix max_workers blocks s) as (k & -> & _).
  rewrite elem_of_events_of. intros (line & Hin & Hev). exists line.
  split; [|done]. rewrite <- (take_drop k blocks), concat_app.
  apply elem_of_app. by left.
Qed.

Lemma elem_of_work_through_tasks (ev : event handle)
    (path max_workers : string) (s : registry handle) :
  ev ∈ (work_through_tasks execute files path max_workers s).1 →
  ∃ lines line, files !! path = Some lines ∧ line ∈ lines
                ∧ is_wait line = false
                ∧ ev ∈ (execute_line execute line s).1.
Proof.
  unfold work_through_tasks. destruct (files !! path) as [lines|] eqn:Hf.
  2:{ simpl. by intros ?%elem_of_nil. }
  intros (line & Hin & Hev)%elem_of_run_line_sets.
  rewrite line_sets_concat in Hin. apply list_elem_of_filter in Hin as [Hw Hin].
  by exists lines, line.
Qed.

Lemma execute_in_line (line : string) (s : registry handle)
    (tm1 : handle) (process_name : string) (parameters : gmap string string) :
  Execute tm1 process_name parameters ∈ (execute_line execute line s).1 →
  is_blank line = false
  ∧ ∃ instance_name,
      extract_info_from_line line
      = Ok (instance_name, process_name, parameters)
      ∧ s !! instance_name = Some tm1.
Proof.
  destruct (execute_line_cases execute line s)
    as [[Hb E]|[[Hb (e & He & E)]|[Hb (i & p & params & He & H)]]].
  - rewrite E. by intros ?%elem_of_nil.
  - rewrite E. by intros ?%elem_of_nil.
  - destruct H as [[Hs E]|(tm1' & l & m & Hs & E & _)]; rewrite E; simpl.
    + intros Hin. apply list_elem_of_singleton in Hin. discriminate.
    + intros Hin. apply elem_of_cons in Hin as [Hin|Hin]; [discriminate|].
      apply elem_of_cons in Hin as [Hin|Hin].
      2:{ apply list_elem_of_singleton in Hin. discriminate. }
      injection Hin as -> -> ->. split; [done|]. by exists i.
Qed.

End Blocks.

(** X7: whatever the file, the number of workers and the outcome of the
    run, a process is called only for a line of the file that is not a
    barrier line and parses, with the process name and the parameters of
    that line, on the connection the registry holds for the instance the
    line names. *)
Theorem work_through_tasks_calls {handle : Type}
    (execute : handle → string → gmap string string → N + string)
    (files : gmap string (list string)) (path max_workers : string)
    (tm1_services : registry handle)
    (tm1 : handle) (process_name : string) (parameters : gmap string string) :
  Execute tm1 process_name parameters
  ∈ (work_through_tasks execute files path max_workers tm1_services).1 →
  ∃ lines line instance_name,
    files !! path = Some lines ∧ line ∈ lines
    ∧ Py.strip (Py.lower line) ≠ "wait"
    ∧ extract_info_from_line line
      = Ok (instance_name, process_name, parameters)
    ∧ tm1_services !! instance_name = Some tm1.
Proof.
  intros (lines & line & Hf & Hin & Hw & Hev)%elem_of_work_through_tasks.
  apply execute_in_line in Hev as (_ & i & He & Hs).
  exists lines, line, i. split_and!; try done.
  unfold is_wait in Hw. by apply String.eqb_neq in Hw.
Qed.

Lemma work_through_tasks_calls_witness :
  ∃ lines line instance_name,
    Demo.files !! "tasks.txt" = Some lines ∧ line ∈ lines
    ∧ Py.strip (Py.lower line) ≠ "wait"
    ∧ extract_info_from_line line = Ok (instance_name, "P3", ∅)
    ∧ Demo.tm1_services !! instance_name = Some 7.
Proof.
  apply (work_through_tasks_calls Demo.execute Demo.files "tasks.txt" "1"
           Demo.tm1_services 7 "P3" ∅).
  vm_compute. do 7 apply list_elem_of_further. apply list_elem_of_here.
Defined.

(** X8: in the run of a file, whatever the number of workers and whether
    the run returns or raises, the tasks done are those of the first
    blocks of the file, none left out: the events of the loop are those of
    the lines of these blocks, one block after the other, the events of
    the lines of a block in some order; when the run returns these are
    all the blocks, and the events are those of every line that is not a
    barrier line.  (What asyncio logs for a future that was never awaited
    is logged when the script is over, not in the loop.) *)
Theorem work_through_tasks_blocks {handle : Type}
    (execute : handle → string → gmap string string → N + string)
    (files : gmap string (list string)) (path max_workers : string)
    (lines : list string) (tm1_services : registry handle) :
  files !! path = Some lines →
  let r := work_through_tasks execute files path max_workers tm1_services in
  (∃ k, block_by_block execute tm1_services (take k (line_sets lines)) r.1
        ∧ (r.2 = Ok tt → k = length (line_sets lines)))
  ∧ (r.2 = Ok tt →
     r.1 ≡ₚ events_of execute
              (filter (λ z, Py.strip (Py.lower z) ≠ "wait") lines)
              tm1_services).
Proof.
  intros Hf. cbv zeta. unfold work_through_tasks. rewrite Hf.
  destruct (run_line_sets_prefix execute max_workers (line_sets lines)
              tm1_services) as (k & Hev & Hk).
  split.
  - exists k. split; [|done]. rewrite Hev. apply block_by_block_events_of.
  - intros Hr. rewrite Hev, (Hk Hr), firstn_all.
    rewrite line_sets_concat.
    assert (filter (λ x, is_wait x = false) lines
            = filter (λ z, Py.strip (Py.lower z) ≠ "wait") lines) as ->;
      [|done].
    apply list_filter_iff. intros z.
    unfold is_wait. by rewrite String.eqb_neq.
Qed.

Lemma work_through_tasks_blocks_witness :
  (work_through_tasks Demo.execute Demo.files "tasks.txt" "2"
     Demo.tm1_services).1
  ≡ₚ events_of Demo.execute
       (filter (λ z, Py.strip (Py.lower z) ≠ "wait") Demo.lines)
       Demo.tm1_services.
Proof.
  destruct (work_through_tasks_blocks Demo.execute Demo.files "tasks.txt" "2"
              Demo.lines Demo.tm1_services) as [_ H]; [done|].
  apply H. by vm_compute.
Defined.

(** ** When a run returns *)

Section Returns.
Context {handle : Type}.
Variable execute : handle → string → gmap string string → N + string.

(** Whether a line returns is a matter of the line alone. *)
Lemma returns_iff (s : registry handle) (line : string) :
  returns execute s line
  ↔ is_blank line = true ∨ ∃ parsed, extract_info_from_line line = Ok parsed.
Proof.
  unfold returns. rewrite execute_line_result.
  destruct (is_blank line); [by split; auto|].
  destruct (extract_info_from_line line) as [parsed|e]; simpl.
  - split; [eauto|done].
  - split; [done|]. by intros [?|[? ?]].
Qed.

Lemma await_all_iff (s : registry handle) (lines : list string) :
  await_all ((λ line, (execute_line execute line s).2) <$> lines) = Ok tt
  ↔ Forall (returns execute s) lines.
Proof.
  split; [|apply await_all_returns].
  induction lines as [|line lines IH]; [by constructor|]. simpl.
  destruct (execute_line execute line s).2 as [[]|e] eqn:E; [|done].
  intros H. constructor; [done|by apply IH].
Qed.

Lemma run_line_sets_returns_iff (max_workers : string) (n : Z)
    (blocks : list (list string)) (s : registry handle) :
  int max_workers = Ok n → (0 < n)%Z →
  (run_line_sets execute max_workers blocks s).2 = Ok tt
  ↔ Forall (Forall (returns execute s)) blocks.
Proof.
  intros Hn Hn0. induction blocks as [|b blocks IH]; [by split; constructor|].
  simpl. rewrite (run_line_set_events execute max_workers n) by done.
  unfold bind. simpl. rewrite Forall_cons, <- IH, <- await_all_iff.
  destruct (await_all _) as [[]|e]; simpl; [tauto|].
  split; [done|by intros [? _]].
Qed.

End Returns.

(** X9: whether the run of a file returns does not depend on the registry
    or on what the remote calls do.  It returns exactly when the file has
    no block, or [int(max_workers)] is positive and every line that is not
    a barrier line is blank or parses; a process that fails and an
    instance that is not accessible leave the outcome as it is. *)
Theorem work_through_tasks_returns {handle : Type}
    (execute : handle → string → gmap string string → N + string)
    (files : gmap string (list string)) (path max_workers : string)
    (lines : list string) (tm1_services : registry handle) :
  files !! path = Some lines →
  (work_through_tasks execute files path max_workers tm1_services).2 = Ok tt
  ↔ line_sets lines = []
    ∨ ((∃ n, int max_workers = Ok n ∧ (0 < n)%Z)
       ∧ ∀ line, line ∈ lines → Py.strip (Py.lower line) ≠ "wait" →
           Py.all_chars Py.isspace line = true
           ∨ ∃ parsed, extract_info_from_line line = Ok parsed).
Proof.
  intros Hf. unfold work_through_tasks. rewrite Hf.
  assert ((∀ line, line ∈ lines → Py.strip (Py.lower line) ≠ "wait" →
             Py.all_chars Py.isspace line = true
             ∨ ∃ parsed, extract_info_from_line line = Ok parsed)
          ↔ Forall (Forall (returns execute tm1_services)) (line_sets lines))
    as Hlines.
  { rewrite <- Forall_concat, line_sets_concat, Forall_forall.
    setoid_rewrite list_elem_of_filter. setoid_rewrite returns_iff.
    setoid_rewrite is_blank_spec. unfold is_wait.
    setoid_rewrite String.eqb_neq.
    split; [intros H line [Hw Hin]; by apply H|].
    intros H line Hin Hw. by apply H. }
  rewrite Hlines. clear Hlines.
  destruct (line_sets lines) as [|b blocks] eqn:Hl; [by split; auto|].
  rewrite <- Hl. split.
  - intros Hr. right.
    destruct (int max_workers) as [n|e] eqn:Hn.
    2:{ rewrite Hl in Hr. simpl in Hr. unfold run_line_set, bind, lift in Hr.
        by rewrite Hn in Hr. }
    destruct (decide (0 < n)%Z) as [Hn0|Hn0].
    + split; [by exists n|].
      by apply (run_line_sets_returns_iff execute max_workers n).
    + destruct (run_line_sets_refused execute max_workers (line_sets lines)
                  tm1_services) as [_ Hraise].
      * intros n' Hn'. rewrite Hn in Hn'. injection Hn' as <-. lia.
      * by rewrite Hl.
      * by rewrite Hr in Hraise.
  - intros [E|[(n & Hn & Hn0) Hall]]; [by rewrite Hl in E|].
    by apply (run_line_sets_returns_iff execute max_workers n).
Qed.

Lemma work_through_tasks_returns_witness :
  (work_through_tasks Demo.execute Demo.files "tasks.txt" "1"
     Demo.tm1_services).2 = Ok tt
  ↔ line_sets Demo.lines = []
    ∨ ((∃ n, int "1" = Ok n ∧ (0 < n)%Z)
       ∧ ∀ line, line ∈ Demo.lines → Py.strip (Py.lower line) ≠ "wait" →
           Py.all_chars Py.isspace line = true
           ∨ ∃ parsed, extract_info_from_line line = Ok parsed).
Proof.
  by apply (work_through_tasks_returns Demo.execute Demo.files "tasks.txt" "1"
              Demo.lines Demo.tm1_services).
Defined.

(** ** The pool and the function *)

(** X10: however the coroutine and the workers of the pool interleave, when
    the loop is over it has returned exactly when [run_line_sets] returns,
    and it has run the blocks whose events [run_line_sets] lists: every
    call of these blocks is over, with the outcome [execute_line] has on
    its line, and no line of a later block was submitted. *)
Theorem pool_run_agrees {handle : Type}
    (execute : handle → string → gmap string string → N + string)
    (tm1_services : registry handle) (max_workers : string)
    (blocks : list (list string)) (s : Pool.state) :
  Pool.reachable execute tm1_services max_workers blocks s →
  Pool.final (Pool.at_pc s) →
  let r := run_line_sets execute max_workers blocks tm1_services in
  (Pool.at_pc s = Pool.Returned ↔ r.2 = Ok tt)
  ∧ ∃ n, r.1 = events_of execute (concat (take n blocks)) tm1_services
         ∧ ∀ i k line,
             Pool.line_at blocks i k = Some line →
             Pool.get (Pool.table s) i k
             = Some (if decide (i < n)%nat
                     then Pool.Done (Pool.raises execute tm1_services line)
                     else Pool.Pending).
Proof.
  intros Hr Hfin.
  pose proof (Pool_facts.final_agrees execute tm1_services max_workers
                blocks s Hr Hfin) as [Hres Hrows].
  pose proof (Pool_facts.seen_reachable execute tm1_services max_workers
                blocks s Hr) as [_ Hseen].
  cbv zeta in *. destruct s as [p t]. simpl in *.
  destruct p as [j|j m|j m|j b| |j|j]; try done.
  - rewrite Hres. split; [done|]. exists (length blocks).
    rewrite firstn_all. split; [done|].
    intros i k line Hl. rewrite (Hrows i k line Hl). simpl.
    rewrite decide_True; [done|].
    unfold Pool.line_at in Hl. destruct (blocks !! i) eqn:Hb; [|done].
    by eapply lookup_lt_Some.
  - destruct Hres as [Hev Hraise]. destruct Hseen as (-> & _).
    split. { split; [done|]. intros E. by rewrite E in Hraise. }
    exists 0%nat. split; [done|].
    intros i k line Hl. rewrite (Hrows i k line Hl). simpl.
    repeat case_decide; done || lia.
  - destruct Hres as [Hev Hraise].
    split. { split; [done|]. intros E. by rewrite E in Hraise. }
    exists (S j). split; [done|].
    intros i k line Hl. rewrite (Hrows i k line Hl). simpl.
    repeat case_decide; done || lia.
Qed.

(** The run of [demo_reachable], brought to its end. *)
Lemma demo_final :
  Pool.reachable Demo.execute Demo.tm1_services "1" (line_sets Demo.lines)
    (Pool.State Pool.Returned
       [[Pool.Done false; Pool.Done false]; [Pool.Done false]]).
Proof.
  unfold Pool.reachable. etrans; [apply demo_reachable|].
  replace (line_sets Demo.lines) with
    [[Demo.task "A" "P1"; Demo.task "A" "P2"]; [Demo.task "A" "P3"]]
    by by vm_compute.
  eapply rtc_l. { eapply (Pool.step_submitted _ _ _ _ 1 [_]). side. }
  eapply rtc_l.
  { eapply Pool.step_start with (i := 1%nat) (k := 0%nat) (n := 1%Z);
      [side| |side|side].
    intros j Hj. lia. }
  eapply rtc_l.
  { eapply Pool.step_finish with (i := 1%nat) (k := 0%nat); side. }
  eapply rtc_l. { eapply Pool.step_await_result. side. }
  eapply rtc_l. { eapply (Pool.step_await_end _ _ _ _ 1 [_]). side. }
  eapply rtc_l.
  { eapply Pool.step_leave. intros k st Hst.
    destruct k as [|k]; vm_compute in Hst; simplify_eq; by eexists. }
  eapply rtc_l. { apply (Pool.step_return _ _ _ [_; _]). }
  vm_compute. apply rtc_refl.
Qed.

Lemma pool_run_agrees_witness :
  (run_line_sets Demo.execute "1" (line_sets Demo.lines)
     Demo.tm1_services).2 = Ok tt.
Proof.
  destruct (pool_run_agrees Demo.execute Demo.tm1_services "1"
              (line_sets Demo.lines) _ demo_final) as [Hret _]; [done|].
  by apply Hret.
Defined.

(** ** The command line *)

Section Command_line.
Context {handle : Type}.
Variable files : gmap string (list string).

(** The two outcomes of the check of the arguments. *)
Lemma translate_cmd_arguments_cases (args : list string) :
  (∃ path max_workers,
     args !! 1%nat = Some path ∧ args !! 2%nat = Some max_workers
     ∧ is_Some (files !! path) ∧ Py.isdigit max_workers = true
     ∧ translate_cmd_arguments (handle := handle) files args
       = ([], Ok (path, max_workers)))
  ∨ (∃ msg,
       translate_cmd_arguments (handle := handle) files args
       = ([Log ERROR (Msg_text msg)], Raise (ValueError msg))
       ∧ msg = (if decide (length args < 3)%nat
                then "RushTI needs to be executed with two arguments."
                else if decide (args !! 1%nat ≫= (files !!.) = None)
                then "Argument 1 (path to file) invalid. File needs to exist."
                else "Argument 2 (max workers) invalid. Needs to be number.")
       ∧ ∀ path max_workers,
           ¬ (args !! 1%nat = Some path ∧ args !! 2%nat = Some max_workers
              ∧ is_Some (files !! path) ∧ Py.isdigit max_workers = true)).
Proof.
  destruct (decide (length args < 3)%nat) as [Hlen|Hlen].
  { right. eexists. split_and!; [|done|].
    - by destruct args as [|a0 [|a1 [|a2 rest]]]; [..|simpl in Hlen; lia].
    - intros path n (_ & H2%lookup_lt_Some & _). lia. }
  destruct args as [|a0 [|a1 [|a2 rest]]]; [simpl in Hlen; lia..|]. simpl.
  unfold translate_cmd_arguments, isfile.
  destruct (files !! a1) as [lines|] eqn:Hf.
  2:{ right. rewrite decide_True by done. eexists. split_and!; [|done|].
      - by rewrite bool_decide_eq_false_2 by by intros [??].
      - intros path n ([= <-] & _ & [? Hs] & _). congruence. }
  rewrite decide_False by done.
  rewrite bool_decide_eq_true_2 by by eexists.
  destruct (Py.isdigit a2) eqn:Hd.
  2:{ right. eexists. split_and!; [done|done|].
      intros path n (_ & [= <-] & _ & ?). congruence. }
  left. exists a1, a2. by split_and!.
Qed.

End Command_line.

(** X12: the arguments are accepted exactly when there are at least two
    after the name of the script, the first names a file that exists and
    the second is a non-empty string of digits; the two are then returned
    as they are and nothing is logged.  Otherwise one error is logged
    and a [ValueError] raised with the same text; the number of arguments
    is checked first, then the file, then the number of workers. *)
Theorem translate_cmd_arguments_checks {handle : Type}
    (files : gmap string (list string)) (args : list string) :
  let r := translate_cmd_arguments (handle := handle) files args in
  (∀ path max_workers,
     r.2 = Ok (path, max_workers)
     ↔ args !! 1%nat = Some path ∧ args !! 2%nat = Some max_workers
       ∧ is_Some (files !! path) ∧ Py.isdigit max_workers = true)
  ∧ (∀ res, r.2 = Ok res → r.1 = [])
  ∧ (∀ e, r.2 = Raise e →
       ∃ msg, e = ValueError msg ∧ r.1 = [Log ERROR (Msg_text msg)]
              ∧ msg = if decide (length args < 3)%nat
                      then "RushTI needs to be executed with two arguments."
                      else if decide (args !! 1%nat ≫= (files !!.) = None)
                      then "Argument 1 (path to file) invalid. File needs to exist."
                      else "Argument 2 (max workers) invalid. Needs to be number.").
Proof.
  cbv zeta.
  destruct (translate_cmd_arguments_cases (handle := handle) files args)
    as [(path & n & H1 & H2 & Hf & Hd & ->)|(msg & -> & Hmsg & Hno)]; simpl.
  - split_and!; [|done|done]. intros path' n'. split.
    + by intros [= <- <-].
    + intros (H1' & H2' & _). congruence.
  - split_and!.
    + intros path n. split; [done|]. intros H. by destruct (Hno path n).
    + done.
    + intros e [= <-]. by exists msg.
Qed.

Lemma translate_cmd_arguments_checks_witness :
  (translate_cmd_arguments (handle := nat) Demo.files
     ["RushTI.py"; "tasks.txt"; "1"]).1 = []
  ∧ ∃ msg,
      ValueError "Argument 1 (path to file) invalid. File needs to exist."
      = ValueError msg
      ∧ (translate_cmd_arguments (handle := nat) Demo.files
           ["RushTI.py"; "missing.txt"; "x"]).1
        = [Log ERROR (Msg_text msg)].
Proof.
  split.
  - destruct (translate_cmd_arguments_checks (handle := nat) Demo.files
                ["RushTI.py"; "tasks.txt"; "1"]) as (_ & H & _).
    by apply (H ("tasks.txt", "1")).
  - destruct (translate_cmd_arguments_checks (handle := nat) Demo.files
                ["RushTI.py"; "missing.txt"; "x"]) as (_ & _ & H).
    destruct (H (ValueError
                   "Argument 1 (path to file) invalid. File needs to exist."))
      as (msg & E & Hev & _); [done|].
    by exists msg.
Defined.

(** ** The number of workers *)

Lemma isdigit_char_space (c : ascii) :
  Py.isdigit_char c = true →
  int_space c = false ∧ c ≠ "-"%char ∧ c ≠ "+"%char ∧ c ≠ "_"%char.
Proof. destruct c as [[] [] [] [] [] [] [] []]; by vm_compute. Qed.

(** A digit is written as it is by [repr], between single quotes. *)
Lemma isdigit_char_repr (c : ascii) :
  Py.isdigit_char c = true →
  Py.repr_char "'" c = String c EmptyString
  ∧ Ascii.eqb "'" c = false ∧ Ascii.eqb "034" c = false.
Proof. destruct c as [[] [] [] [] [] [] [] []]; by vm_compute. Qed.

Lemma repr_isdigit (s : string) :
  Py.all_chars Py.isdigit_char s = true → Py.repr s = "'" +:+ s +:+ "'".
Proof.
  intros Hs. unfold Py.repr.
  assert (Py.char_in "'" s = false) as ->.
  { induction s as [|c s IH]; [done|]. cbn [Py.char_in Py.all_chars] in *.
    apply andb_true_iff in Hs as [Hc Hs].
    apply isdigit_char_repr in Hc as (_ & -> & _). by apply IH. }
  cbn [andb]. rewrite string_app_cons, string_app_nil_l. f_equal. f_equal.
  induction s as [|c s IH]; [done|]. cbn [Py.repr_chars Py.all_chars] in *.
  apply andb_true_iff in Hs as [Hc Hs].
  apply isdigit_char_repr in Hc as (-> & _ & _). by rewrite IH.
Qed.

(** The scan of a string of digits goes to the first that is not one of
    0 to 9. *)
Lemma int_scan_isdigit (s : string) (acc : N) (ndigits : nat) :
  Py.all_chars Py.isdigit_char s = true →
  int_scan s acc ndigits true
  = Some (decimal (decimal_prefix s) acc,
          (ndigits + String.length (decimal_prefix s))%nat, decimal_suffix s).
Proof.
  revert acc ndigits. induction s as [|c s IH]; intros acc k Hs.
  { simpl. by rewrite Nat.add_0_r. }
  simpl in *. apply andb_true_iff in Hs as [Hc Hs].
  destruct (is_decimal c) eqn:Hd.
  - rewrite IH by done. simpl. do 3 f_equal. lia.
  - apply isdigit_char_space in Hc as (_ & _ & _ & Hu).
    apply Ascii.eqb_neq in Hu. rewrite Hu. simpl. by rewrite Nat.add_0_r.
Qed.

Lemma int_scan_isdigit_start (s : string) :
  Py.isdigit s = true →
  int_scan s 0 0 false
  = match decimal_prefix s with
    | EmptyString => None
    | digits =>
        Some (decimal digits 0, String.length digits, decimal_suffix s)
    end.
Proof.
  destruct s as [|c s]; [done|]. unfold Py.isdigit. simpl. intros Hs.
  apply andb_true_iff in Hs as [Hc Hs].
  destruct (is_decimal c) eqn:Hd.
  - by rewrite int_scan_isdigit.
  - apply isdigit_char_space in Hc as (_ & _ & _ & Hu).
    apply Ascii.eqb_neq in Hu. by rewrite Hu.
Qed.

Lemma decimal_suffix_empty (s : string) :
  decimal_suffix s = "" ↔ decimal_prefix s = s.
Proof.
  induction s as [|c s IH]; [done|]. simpl.
  destruct (is_decimal c); [|done]. rewrite IH. split; congruence.
Qed.

Lemma int_no_sign (c : ascii) (s : string) :
  c ≠ "-"%char → c ≠ "+"%char →
  Py.strip_with int_space (String c s) = String c s →
  int (String c s)
  = result_bind (int_unsigned (String c s) (String c s))
      (λ n, Ok (Z.of_N n)).
Proof.
  intros Hm Hp Hs. unfold int. rewrite Hs.
  destruct c as [[] [] [] [] [] [] [] []]; done.
Qed.

Lemma isdigit_int_value (max_workers : string) :
  Py.isdigit max_workers = true →
  int max_workers
  = if (int_max_str_digits <? String.length (decimal_prefix max_workers))%nat
    then Raise (ValueError
                  (exceeds_limit (String.length (decimal_prefix max_workers))))
    else if String.eqb (decimal_prefix max_workers) max_workers
    then Ok (Z.of_N (decimal max_workers 0))
    else Raise (ValueError
                  ("invalid literal for int() with base 10: "
                   +:+ Py.truncate 200 ("'" +:+ max_workers +:+ "'"))).
Proof.
  intros Hd. pose proof (int_scan_isdigit_start max_workers Hd) as Hscan.
  destruct max_workers as [|c s]; [done|].
  assert (Py.all_chars Py.isdigit_char (String c s) = true) as Hall by done.
  assert (Py.isdigit_char c = true) as Hc.
  { simpl in Hall. by apply andb_true_iff in Hall as [? _]. }
  apply isdigit_char_space in Hc as (_ & Hm & Hp & _).
  rewrite int_no_sign; [|done|done|].
  2:{ apply strip_with_id. revert Hall. apply all_chars_impl.
      intros d Hd'. by apply isdigit_char_space in Hd' as [-> _]. }
  unfold int_unsigned, invalid_literal. rewrite Hscan, (repr_isdigit _ Hall).
  destruct (decimal_prefix (String c s)) as [|d digits] eqn:Hpre.
  { simpl. by destruct (String.eqb_spec "" (String c s)). }
  cbv beta iota zeta.
  destruct (int_max_str_digits <? _)%nat; [done|].
  destruct (String.eqb_spec (String d digits) (String c s)) as [E|E].
  - assert (decimal_suffix (String c s) = "") as ->.
    { apply decimal_suffix_empty. by rewrite Hpre. }
    simpl. by injection E as -> ->.
  - destruct (decimal_suffix (String c s)) eqn:Hsuf; [|done].
    apply decimal_suffix_empty in Hsuf. congruence.
Qed.

(** X13: the check of the second argument and [int] do not agree.  Of a
    string that passes the check, [int] reads the digits 0 to 9 at its
    head.  With more than 4300 of them it raises, the limit of the
    interpreter on the length of a number.  Otherwise it gives the number
    the string stands for when the string is made of these digits only,
    and raises when there is a superscript digit, which [str.isdigit]
    accepts: the string is then no number, and the text of the exception
    quotes it.  When [int] raises, so does the first turn of the loop,
    before any line is run. *)
Theorem isdigit_int {handle : Type}
    (execute : handle → string → gmap string string → N + string)
    (files : gmap string (list string)) (max_workers : string) :
  Py.isdigit max_workers = true →
  let digits := decimal_prefix max_workers in
  int max_workers
  = (if (4300 <? String.length digits)%nat
     then Raise (ValueError (exceeds_limit (String.length digits)))
     else if String.eqb digits max_workers
     then Ok (Z.of_N (decimal max_workers 0))
     else Raise (ValueError
                   ("invalid literal for int() with base 10: "
                    +:+ Py.truncate 200 ("'" +:+ max_workers +:+ "'"))))
  ∧ ∀ e, int max_workers = Raise e →
         ∀ path lines (tm1_services : registry handle),
           files !! path = Some lines → line_sets lines ≠ [] →
           work_through_tasks execute files path max_workers tm1_services
           = ([], Raise e).
Proof.
  intros Hd. cbv zeta. split; [by apply isdigit_int_value|].
  intros e He path lines s Hf Hl. unfold work_through_tasks. rewrite Hf.
  destruct (line_sets lines) as [|b blocks]; [done|]. simpl.
  unfold run_line_set, bind, lift. by rewrite He.
Qed.

Lemma isdigit_int_witness :
  int "12" = Ok 12%Z
  ∧ int many_ones
    = Raise (ValueError
        "Exceeds the limit (4300 digits) for integer string conversion: value has 4301 digits; use sys.set_int_max_str_digits() to increase the limit")
  ∧ work_through_tasks Demo.execute Demo.files "tasks.txt" superscript_two
      Demo.tm1_services
    = ([], Raise (ValueError
                    ("invalid literal for int() with base 10: '"
                     +:+ superscript_two +:+ "'"))).
Proof.
  split_and!.
  - destruct (isdigit_int Demo.execute Demo.files "12") as [H _];
      [by vm_compute|].
    rewrite H. by vm_compute.
  - destruct (isdigit_int Demo.execute Demo.files many_ones) as [H _];
      [by vm_compute|].
    rewrite H. by vm_compute.
  - destruct (isdigit_int Demo.execute Demo.files superscript_two)
      as [Hi H]; [by vm_compute|].
    apply (H _ Hi "tasks.txt" Demo.lines); by vm_compute.
Defined.

(** ** The registry *)

Section Setup.
Context {handle : Type}.
Variable connect : string → gmap string string → handle + string.
Variable CONFIG : string.

Lemma registry_lookup_empty (key : string) :
  (∅ : registry handle) !! key = None.
Proof. done. Qed.

Lemma registry_lookup_insert_eq (d : registry handle) (key : string)
    (value : handle) :
  <[key := value]> d !! key = Some value.
Proof.
  unfold lookup, insert, registry_lookup_instance, registry_insert_instance.
  induction d as [|[k v] d IH]; simpl.
  - by rewrite String.eqb_refl.
  - destruct (String.eqb k key) eqn:E; simpl; by rewrite E.
Qed.

Lemma registry_lookup_insert_ne (d : registry handle) (key key' : string)
    (value : handle) :
  key ≠ key' → <[key := value]> d !! key' = d !! key'.
Proof.
  intros Hne.
  unfold lookup, insert, registry_lookup_instance, registry_insert_instance.
  induction d as [|[k v] d IH]; simpl.
  - apply String.eqb_neq in Hne. by rewrite Hne.
  - destruct (String.eqb k key) eqn:E; simpl.
    + apply String.eqb_eq in E as ->. apply String.eqb_neq in Hne.
      by rewrite Hne.
    + by rewrite IH.
Qed.

(** A new key is entered at the end. *)
Lemma registry_insert_fresh (d : registry handle) (key : string)
    (value : handle) :
  d !! key = None → <[key := value]> d = d ++ [(key, value)].
Proof.
  unfold lookup, insert, registry_lookup_instance, registry_insert_instance.
  induction d as [|[k v] d IH]; simpl; [done|].
  destruct (String.eqb k key); [done|]. intros H. by rewrite IH.
Qed.

Lemma setup_fold (sections : list (string * gmap string string))
    (events : list (event handle)) (s : registry handle) :
  foldl (λ (acc : M handle (registry handle)) '(tm1_server_name, params),
           do tm1_services <- acc;
           run emit_event (Connect tm1_server_name);
           match connect tm1_server_name params with
           | inl tm1 => ret (<[tm1_server_name := tm1]> tm1_services)
           | inr e =>
               run logging_error
                     (Msg_text ("TM1 instance " +:+ tm1_server_name
                                +:+ " not accessible. Error: " +:+ e));
               ret tm1_services
           end)
        (events, Ok s) sections
  = (events ++ sections ≫= section_events connect,
     Ok (connected connect s sections)).
Proof.
  revert events s.
  induction sections as [|[name params] sections IH]; intros events s.
  { simpl. by rewrite app_nil_r. }
  simpl. unfold section_events at 1. simpl.
  destruct (connect name params) as [tm1|e] eqn:Hc;
    unfold bind, emit_event, logging_error, emit_event, ret; simpl;
    rewrite IH; by rewrite <- !app_assoc.
Qed.

Lemma setup_tm1_services_sections
    (sections : list (string * gmap string string)) :
  setup_tm1_services connect CONFIG (Some sections)
  = (sections ≫= section_events connect, Ok (connected connect ∅ sections)).
Proof. unfold setup_tm1_services. apply (setup_fold sections [] ∅). Qed.

Lemma lookup_connected (sections : list (string * gmap string string))
    (s : registry handle) (name : string) (tm1 : handle) :
  NoDup sections.*1 →
  connected connect s sections !! name = Some tm1
  ↔ (∃ params, (name, params) ∈ sections ∧ connect name params = inl tm1)
    ∨ ((∀ params, (name, params) ∈ sections →
          ∃ e, connect name params = inr e)
       ∧ s !! name = Some tm1).
Proof.
  revert s. induction sections as [|[n p] sections IH]; intros s Hnd.
  { simpl. split; [intros H; right; split; [|done]|].
    - by intros params ?%elem_of_nil.
    - intros [(params & ?%elem_of_nil & _)|[_ H]]; done. }
  apply NoDup_cons in Hnd as [Hn Hnd]. simpl in *.
  assert (∀ params, (n, params) ∉ sections) as Hfresh.
  { intros params Hin. apply Hn.
    by apply (list_elem_of_fmap_2 fst _ (n, params)). }
  unfold connected in *. simpl. rewrite IH by done. clear IH.
  setoid_rewrite elem_of_cons. split.
  - intros [(params & Hin & Hc)|[Hno Hs]]; [left; eauto|].
    destruct (decide (name = n)) as [->|Hne].
    + destruct (connect n p) as [tm1'|e] eqn:Hc.
      * rewrite registry_lookup_insert_eq in Hs. simplify_eq. left. eauto.
      * right. split; [|done]. intros params [[= ->]|Hin]; [eauto|].
        by destruct (Hfresh params).
    + right. split.
      * intros params [[= -> ->]|Hin]; [done|]. eauto.
      * destruct (connect n p); [|done]. by rewrite registry_lookup_insert_ne in Hs.
  - intros [(params & [[= -> ->]|Hin] & Hc)|[Hno Hs]].
    + right. rewrite Hc, registry_lookup_insert_eq. split; [|done].
      intros params Hin. by destruct (Hfresh params).
    + left. eauto.
    + right. split; [eauto|].
      destruct (decide (name = n)) as [->|Hne].
      * destruct (Hno p) as [e ->]; [by left|done].
      * destruct (connect n p); [|done]. by rewrite registry_lookup_insert_ne.
Qed.

(** A connection of the registry was made for a section of its name. *)
Lemma lookup_connected_section
    (sections : list (string * gmap string string))
    (s : registry handle) (name : string) (tm1 : handle) :
  connected connect s sections !! name = Some tm1 →
  (∃ params, (name, params) ∈ sections ∧ connect name params = inl tm1)
  ∨ s !! name = Some tm1.
Proof.
  revert s. induction sections as [|[n p] sections IH]; intros s; [by right|].
  unfold connected in *. simpl. intros [(params & Hin & Hc)|Hs]%IH.
  { left. exists params. split; [by apply list_elem_of_further|done]. }
  destruct (connect n p) as [tm1'|e] eqn:Hc; [|by right].
  destruct (decide (name = n)) as [->|Hne].
  - rewrite registry_lookup_insert_eq in Hs. simplify_eq. left. exists p.
    split; [apply list_elem_of_here|done].
  - rewrite registry_lookup_insert_ne in Hs by done. by right.
Qed.

(** The events of [setup_tm1_services]: attempts, and errors logged. *)
Lemma elem_of_section_events (ev : event handle)
    (sections : list (string * gmap string string)) :
  ev ∈ sections ≫= section_events connect
  ↔ ∃ name params,
      (name, params) ∈ sections
      ∧ (ev = Connect name
         ∨ ∃ e, connect name params = inr e
                ∧ ev = Log ERROR
                         (Msg_text ("TM1 instance " +:+ name
                                    +:+ " not accessible. Error: " +:+ e))).
Proof.
  rewrite list_elem_of_bind. split.
  - intros ([name params] & Hev & Hin). exists name, params. split; [done|].
    unfold section_events in Hev. simpl in Hev.
    apply elem_of_cons in Hev as [->|Hev]; [by left|].
    destruct (connect name params) as [tm1|e]; [by apply elem_of_nil in Hev|].
    apply list_elem_of_singleton in Hev. right. eauto.
  - intros (name & params & Hin & Hev). exists (name, params).
    split; [|done]. unfold section_events. simpl.
    destruct Hev as [->|(e & -> & ->)]; [apply list_elem_of_here|].
    apply list_elem_of_further, list_elem_of_here.
Qed.

(** With section names that differ, the registry holds the connections
    in the order of the sections. *)
Lemma connected_items (sections : list (string * gmap string string))
    (s : registry handle) :
  NoDup sections.*1 → (∀ name, name ∈ sections.*1 → s !! name = None) →
  connected connect s sections
  = s ++ omap (λ '(name, params),
                 match connect name params with
                 | inl tm1 => Some (name, tm1)
                 | inr _ => None
                 end) sections.
Proof.
  revert s. induction sections as [|[n p] sections IH]; intros s Hnd Hs.
  { simpl. by rewrite app_nil_r. }
  apply NoDup_cons in Hnd as [Hn Hnd]. unfold connected in *. simpl.
  destruct (connect n p) as [tm1|e] eqn:Hc.
  - rewrite IH; [|done|].
    + rewrite registry_insert_fresh by (apply Hs; apply list_elem_of_here).
      by rewrite <- app_assoc.
    + intros name Hin. rewrite registry_lookup_insert_ne.
      * apply Hs. by apply list_elem_of_further.
      * intros ->. done.
  - apply IH; [done|]. intros name Hin. apply Hs.
    by apply list_elem_of_further.
Qed.

Lemma connected_values (sections : list (string * gmap string string)) :
  NoDup sections.*1 →
  registry_values (connected connect ∅ sections)
  = connections connect sections.
Proof.
  intros Hnd. rewrite connected_items by done. unfold registry_values.
  simpl. unfold connections. clear Hnd.
  induction sections as [|[n p] sections IH]; [done|]. simpl in *.
  destruct (connect n p); simpl; [f_equal|]; exact IH.
Qed.

End Setup.

(** X14: when [config.ini] is there, building the registry never raises.
    Every section is tried once, in the order of the file; a section that
    does not connect is logged as not accessible, with the text of the
    error, and left out.  With section names that differ from one another,
    the registry holds an instance exactly when its section connected, and
    holds the connection made for it; its connections are in the order of
    their sections. *)
Theorem setup_tm1_services_registry {handle : Type}
    (connect : string → gmap string string → handle + string)
    (CONFIG : string) (sections : list (string * gmap string string)) :
  NoDup sections.*1 →
  ∃ events tm1_services,
    setup_tm1_services connect CONFIG (Some sections)
    = (events, Ok tm1_services)
    ∧ (∀ name tm1,
         tm1_services !! name = Some tm1
         ↔ ∃ params, (name, params) ∈ sections
                     ∧ connect name params = inl tm1)
    ∧ omap (λ ev, match ev with
                  | Connect name => Some name
                  | _ => None
                  end) events = sections.*1
    ∧ (∀ l m,
         Log l m ∈ events
         ↔ ∃ name params e,
             (name, params) ∈ sections ∧ connect name params = inr e
             ∧ l = ERROR
             ∧ m = Msg_text ("TM1 instance " +:+ name
                             +:+ " not accessible. Error: " +:+ e))
    ∧ (∀ ev, ev ∈ events → (∃ name, ev = Connect name) ∨ ∃ l m, ev = Log l m)
    ∧ registry_values tm1_services = connections connect sections.
Proof.
  intros Hnd. eexists _, _. split; [apply setup_tm1_services_sections|].
  split_and!.
  - intros name tm1. rewrite lookup_connected by done.
    rewrite registry_lookup_empty. split; [by intros [H|[_ H]]|by left].
  - clear Hnd. induction sections as [|[n p] sections IH]; [done|].
    change (((n, p) :: sections) ≫= section_events connect)
      with (section_events connect (n, p)
            ++ sections ≫= section_events connect).
    rewrite omap_app, IH. unfold section_events. simpl.
    by destruct (connect n p).
  - intros l m. rewrite elem_of_section_events. split.
    + intros (name & params & Hin & [?|(e & Hc & [= -> ->])]); [done|].
      by exists name, params, e.
    + intros (name & params & e & Hin & Hc & -> & ->).
      exists name, params. split; [done|]. right. by exists e.
  - intros ev. rewrite elem_of_section_events.
    intros (name & params & Hin & [->|(e & Hc & ->)]); eauto.
  - by apply connected_values.
Qed.

Lemma setup_tm1_services_registry_witness :
  ∃ events tm1_services,
    setup_tm1_services Demo.connect "config.ini" Demo.config
    = (events, Ok tm1_services)
    ∧ tm1_services !! "A" = Some 7%nat ∧ tm1_services !! "B" = None
    ∧ Log ERROR (Msg_text "TM1 instance B not accessible. Error: unreachable")
      ∈ events.
Proof.
  destruct (setup_tm1_services_registry Demo.connect "config.ini"
              [("A", ∅); ("B", ∅)])
    as (events & s & E & Hs & _ & Hl & _ & _).
  { simpl. apply NoDup_cons. split; [|apply NoDup_singleton].
    intros H%list_elem_of_singleton. discriminate. }
  exists events, s. split_and!.
  - exact E.
  - apply Hs. exists ∅. split; [apply list_elem_of_here|done].
  - destruct (s !! "B") as [tm1|] eqn:HB; [|done].
    apply Hs in HB as (params & _ & Hc). by vm_compute in Hc.
  - apply Hl. exists "B", ∅, "unreachable". split_and!; try done.
    apply list_elem_of_further, list_elem_of_here.
Defined.

(** ** The script *)

Section Script.
Context {handle : Type}.
Variable execute : handle → string → gmap string string → N + string.
Variable connect : string → gmap string string → handle + string.
Variable tm1_logout : handle → result unit.
Variable files : gmap string (list string).
Variable CONFIG : string.

Lemma main_rejected (argv : list string)
    (config : option (list (string * gmap string string)))
    (events : list (event handle)) (e : exn) :
  translate_cmd_arguments files argv = (events, Raise e) →
  main execute connect tm1_logout files CONFIG argv config
  = (Log INFO (Msg_starts APPNAME argv) :: events, Raise e).
Proof. intros Ha. unfold main, bind. simpl. by rewrite Ha. Qed.

Lemma main_no_config (argv : list string)
    (events : list (event handle)) (res : string * string) :
  translate_cmd_arguments files argv = (events, Ok res) →
  main execute connect tm1_logout files CONFIG argv None
  = (Log INFO (Msg_starts APPNAME argv) :: events,
     Raise (ValueError (CONFIG +:+ " does not exist."))).
Proof.
  intros Ha. unfold main, bind. simpl. rewrite Ha. destruct res. simpl.
  by rewrite app_nil_r.
Qed.

(** The script in full, when the arguments are accepted and [config.ini]
    is there. *)
Lemma main_accepted (argv : list string)
    (sections : list (string * gmap string string))
    (path_to_file max_workers : string) :
  translate_cmd_arguments (handle := handle) files argv
  = ([], Ok (path_to_file, max_workers)) →
  main execute connect tm1_logout files CONFIG argv (Some sections)
  = let tm1_services := connected connect ∅ sections in
    let work :=
      work_through_tasks execute files path_to_file max_workers tm1_services in
    let out := logout tm1_logout tm1_services in
    let res := match out.2 with Ok _ => work.2 | Raise e => Raise e end in
    (Log INFO (Msg_starts APPNAME argv)
     :: (sections ≫= section_events connect) ++ work.1 ++ out.1
     ++ match res with
        | Ok _ => [Log INFO (Msg_ends APPNAME)]
        | Raise _ => []
        end
     ++ ((λ e, Log ERROR (Msg_never_retrieved e))
         <$> reverse (abandoned_in execute files path_to_file max_workers
                        tm1_services)), res).
Proof.
  intros Ha.
  rewrite (main_after_setup execute connect tm1_logout files CONFIG argv _
             path_to_file max_workers (connected connect ∅ sections) []
             (sections ≫= section_events connect) Ha
             (setup_tm1_services_sections connect CONFIG sections)).
  cbv zeta. unfold run_tasks, try_finally. simpl. by rewrite <- !app_assoc.
Qed.

(** A run that returns leaves no exception behind. *)
Lemma abandoned_in_returns (path max_workers : string) (s : registry handle) :
  (work_through_tasks execute files path max_workers s).2 = Ok tt →
  abandoned_in execute files path max_workers s = [].
Proof.
  unfold work_through_tasks, abandoned_in.
  destruct (files !! path); [|done]. apply abandoned_returns.
Qed.

(** The kinds of event of a line: log records other than the last one
    of the script, and calls. *)
Lemma line_event_kinds (line : string) (s : registry handle)
    (ev : event handle) :
  ev ∈ (execute_line execute line s).1 →
  (∃ l m, ev = Log l m ∧ ∀ app_name, m ≠ Msg_ends app_name)
  ∨ ∃ tm1 p params, ev = Execute tm1 p params.
Proof.
  destruct (execute_line_cases execute line s)
    as [[Hb E]|[[Hb (e & He & E)]|[Hb (i & p & params & He & H)]]].
  - rewrite E. by intros ?%elem_of_nil.
  - rewrite E. by intros ?%elem_of_nil.
  - destruct H as [[Hs E]|(tm1' & l & m & Hs & E & Hm)]; rewrite E; simpl.
    + intros ->%list_elem_of_singleton. left. by eexists _, _.
    + intros [->|[->| ->%list_elem_of_singleton]%elem_of_cons]%elem_of_cons.
      * left. by eexists _, _.
      * right. by eexists _, _, _.
      * left. by eexists _, _.
Qed.

Lemma work_event_kinds (path max_workers : string) (s : registry handle)
    (ev : event handle) :
  ev ∈ (work_through_tasks execute files path max_workers s).1 →
  (∃ l m, ev = Log l m ∧ ∀ app_name, m ≠ Msg_ends app_name)
  ∨ ∃ tm1 p params, ev = Execute tm1 p params.
Proof.
  intros (lines & line & _ & _ & _ & Hev)%elem_of_work_through_tasks.
  by eapply line_event_kinds.
Qed.

(** The events of [logout] are calls of [tm1.logout()], on connections of
    the registry. *)
Lemma elem_of_logout_inv (s : registry handle) (ev : event handle) :
  ev ∈ (logout tm1_logout s).1 →
  ∃ tm1, tm1 ∈ registry_values s ∧ ev = Logout tm1.
Proof.
  unfold logout. rewrite logout_all_events, list_elem_of_fmap.
  intros (tm1 & -> & Hin). exists tm1. split; [|done].
  by eapply logged_out_sublist.
Qed.

Lemma logouts_cons (ev : event handle) (trace : list (event handle)) :
  logouts (ev :: trace)
  = match ev with
    | Logout tm1 => tm1 :: logouts trace
    | _ => logouts trace
    end.
Proof. by destruct ev. Qed.

Lemma logouts_nil (trace : list (event handle)) :
  (∀ ev, ev ∈ trace → ∀ tm1, ev ≠ Logout tm1) → logouts trace = [].
Proof.
  induction trace as [|ev trace IH]; [done|]. intros H.
  rewrite logouts_cons, IH.
  - destruct ev; try done.
    by destruct (H (Logout tm1) (list_elem_of_here _ _) tm1).
  - intros ev' Hin. apply H. by apply list_elem_of_further.
Qed.

Lemma logouts_app (t1 t2 : list (event handle)) :
  logouts (t1 ++ t2) = logouts t1 ++ logouts t2.
Proof. apply omap_app. Qed.

Lemma logouts_logout (values : list handle) :
  logouts (Logout <$> values) = values.
Proof.
  induction values as [|tm1 values IH]; [done|].
  by rewrite fmap_cons, logouts_cons, IH.
Qed.

End Script.

(** X15: the script logs that it ends exactly when it returns, as its last
    record; it logs that it starts in every run, as its first. *)
Theorem main_ends {handle : Type}
    (execute : handle → string → gmap string string → N + string)
    (connect : string → gmap string string → handle + string)
    (tm1_logout : handle → result unit)
    (files : gmap string (list string)) (CONFIG : string)
    (argv : list string)
    (config : option (list (string * gmap string string))) :
  let r := main execute connect tm1_logout files CONFIG argv config in
  (∀ l app_name,
     Log l (Msg_ends app_name) ∈ r.1
     ↔ r.2 = Ok tt ∧ l = INFO ∧ app_name = "RushTI")
  ∧ (r.2 = Ok tt → last r.1 = Some (Log INFO (Msg_ends "RushTI")))
  ∧ head r.1 = Some (Log INFO (Msg_starts "RushTI" argv)).
Proof.
  cbv zeta.
  destruct (translate_cmd_arguments_cases (handle := handle) files argv)
    as [(path & n & _ & _ & _ & _ & Ha)|(msg & Ha & _)].
  2:{ rewrite (main_rejected execute connect tm1_logout files CONFIG argv config _ _ Ha).
      simpl. split_and!; [|done|done]. intros l app. split; [|by intros [? _]].
      intros [?|[?|?%elem_of_nil]%elem_of_cons]%elem_of_cons; done. }
  destruct config as [sections|].
  2:{ rewrite (main_no_config execute connect tm1_logout files CONFIG argv _ _ Ha).
      simpl. split_and!; [|done|done]. intros l app. split; [|by intros [? _]].
      intros [?|?%elem_of_nil]%elem_of_cons; done. }
  rewrite (main_accepted execute connect tm1_logout files CONFIG argv sections
             path n Ha).
  cbv zeta. cbn [fst snd]. split_and!; [|.. |done].
  - intros l app. rewrite elem_of_cons, !elem_of_app. split.
    + intros [?|[Hs|[Hw|[Hl|[He|Hr]]]]]; [done|..].
      * apply elem_of_section_events in Hs
          as (? & ? & _ & [?|(? & _ & ?)]); done.
      * apply work_event_kinds in Hw as [(? & ? & [= <- <-] & Hm)|(? & ? & ? & ?)];
          [by destruct (Hm app)|done].
      * apply elem_of_logout_inv in Hl as (? & _ & ?). done.
      * destruct (match (logout _ _).2 with Ok _ => _ | Raise _ => _ end)
          as [[]|e]; [|by apply elem_of_nil in He].
        apply list_elem_of_singleton in He. by injection He as -> ->.
      * apply list_elem_of_fmap in Hr as (? & ? & _). done.
    + intros (-> & -> & ->). do 4 right. left. apply list_elem_of_here.
  - intros Hres.
    assert ((work_through_tasks execute files path n
               (connected connect ∅ sections)).2 = Ok tt) as Hw.
    { destruct (logout _ _).2 as [[]|e]; [done|discriminate]. }
    rewrite Hres, (abandoned_in_returns _ _ _ _ _ Hw). simpl.
    rewrite !app_comm_cons, !app_assoc. apply last_snoc.
Qed.

Lemma main_ends_witness :
  last (main Demo.execute Demo.connect Demo.tm1_logout Demo.files "config.ini"
          ["RushTI.py"; "tasks.txt"; "1"] Demo.config).1
  = Some (Log INFO (Msg_ends "RushTI")).
Proof.
  destruct (main_ends Demo.execute Demo.connect Demo.tm1_logout Demo.files "config.ini"
              ["RushTI.py"; "tasks.txt"; "1"] Demo.config) as (_ & H & _).
  apply H. by vm_compute.
Defined.

(** X16: an error at the start ends the script with a [ValueError], after
    the record of its start and, for the arguments, the record of the
    error; nothing is connected, run or logged out.  The arguments are
    checked before [config.ini] is looked for: with arguments that are
    not accepted the error is theirs, whether the file is there or not. *)
Theorem main_startup_errors {handle : Type}
    (execute : handle → string → gmap string string → N + string)
    (connect : string → gmap string string → handle + string)
    (tm1_logout : handle → result unit)
    (files : gmap string (list string)) (CONFIG : string)
    (argv : list string)
    (config : option (list (string * gmap string string))) :
  let accepted :=
    ∃ path max_workers,
      argv !! 1%nat = Some path ∧ argv !! 2%nat = Some max_workers
      ∧ is_Some (files !! path) ∧ Py.isdigit max_workers = true in
  (¬ accepted →
   ∃ msg,
     main execute connect tm1_logout files CONFIG argv config
     = ([Log INFO (Msg_starts "RushTI" argv); Log ERROR (Msg_text msg)],
        Raise (ValueError msg))
     ∧ msg ∈ ["RushTI needs to be executed with two arguments.";
              "Argument 1 (path to file) invalid. File needs to exist.";
              "Argument 2 (max workers) invalid. Needs to be number."])
  ∧ (accepted → config = None →
     main execute connect tm1_logout files CONFIG argv config
     = ([Log INFO (Msg_starts "RushTI" argv)],
        Raise (ValueError (CONFIG +:+ " does not exist.")))).
Proof.
  cbv zeta.
  destruct (translate_cmd_arguments_cases (handle := handle) files argv)
    as [(path & n & H1 & H2 & Hf & Hd & Ha)|(msg & Ha & Hmsg & Hno)].
  - split.
    + intros Hacc. destruct Hacc. by exists path, n.
    + intros _ ->.
      by rewrite (main_no_config execute connect tm1_logout files CONFIG argv _ _ Ha).
  - split.
    + intros _. exists msg.
      rewrite (main_rejected execute connect tm1_logout files CONFIG argv config _ _ Ha).
      split; [done|]. rewrite Hmsg.
      repeat case_decide; set_solver.
    + intros (path & n & Hacc). by destruct (Hno path n).
Qed.

Lemma main_startup_errors_witness :
  (∃ msg,
     main Demo.execute Demo.connect Demo.tm1_logout Demo.files "config.ini"
       ["RushTI.py"; "tasks.txt"; "x"] None
     = ([Log INFO (Msg_starts "RushTI" ["RushTI.py"; "tasks.txt"; "x"]);
         Log ERROR (Msg_text msg)], Raise (ValueError msg)))
  ∧ main Demo.execute Demo.connect Demo.tm1_logout Demo.files "config.ini"
      ["RushTI.py"; "tasks.txt"; "1"] None
    = ([Log INFO (Msg_starts "RushTI" ["RushTI.py"; "tasks.txt"; "1"])],
       Raise (ValueError "config.ini does not exist.")).
Proof.
  split.
  - destruct (main_startup_errors Demo.execute Demo.connect Demo.tm1_logout
                Demo.files
                "config.ini" ["RushTI.py"; "tasks.txt"; "x"] None)
      as [H _].
    destruct H as (msg & E & _).
    + intros (path & n & [= <-] & [= <-] & _ & Hd). by vm_compute in Hd.
    + by exists msg.
  - destruct (main_startup_errors Demo.execute Demo.connect Demo.tm1_logout
                Demo.files
                "config.ini" ["RushTI.py"; "tasks.txt"; "1"] None)
      as [_ H].
    apply H; [|done]. exists "tasks.txt", "1". by split_and!.
Defined.

(** X17: the script tries to connect only once the arguments are accepted
    and [config.ini] is found, and then tries every section; it calls a
    process only for a line of the file named by the first argument, not
    a barrier line, on the connection made for the section that the line
    names as its instance. *)
Theorem main_connects_and_calls {handle : Type}
    (execute : handle → string → gmap string string → N + string)
    (connect : string → gmap string string → handle + string)
    (tm1_logout : handle → result unit)
    (files : gmap string (list string)) (CONFIG : string)
    (argv : list string)
    (config : option (list (string * gmap string string))) :
  let r := main execute connect tm1_logout files CONFIG argv config in
  let accepted :=
    ∃ path max_workers,
      argv !! 1%nat = Some path ∧ argv !! 2%nat = Some max_workers
      ∧ is_Some (files !! path) ∧ Py.isdigit max_workers = true in
  (∀ name,
     Connect name ∈ r.1
     ↔ accepted ∧ ∃ sections, config = Some sections ∧ name ∈ sections.*1)
  ∧ (∀ tm1 process_name parameters,
       Execute tm1 process_name parameters ∈ r.1 →
       ∃ path lines line sections instance_name params,
         argv !! 1%nat = Some path ∧ files !! path = Some lines
         ∧ line ∈ lines ∧ Py.strip (Py.lower line) ≠ "wait"
         ∧ extract_info_from_line line
           = Ok (instance_name, process_name, parameters)
         ∧ config = Some sections ∧ (instance_name, params) ∈ sections
         ∧ connect instance_name params = inl tm1).
Proof.
  cbv zeta.
  destruct (translate_cmd_arguments_cases (handle := handle) files argv)
    as [(path & n & H1 & H2 & Hf & Hd & Ha)|(msg & Ha & _ & Hno)].
  2:{ rewrite (main_rejected execute connect tm1_logout files CONFIG argv config _ _ Ha).
      simpl. split.
      - intros name. split.
        + intros [?|[?|?%elem_of_nil]%elem_of_cons]%elem_of_cons; done.
        + intros [(p & n & Hacc) _]. by destruct (Hno p n).
      - intros tm1 p params.
        intros [?|[?|?%elem_of_nil]%elem_of_cons]%elem_of_cons; done. }
  destruct config as [sections|].
  2:{ rewrite (main_no_config execute connect tm1_logout files CONFIG argv _ _ Ha).
      simpl. split.
      - intros name. split.
        + intros [?|?%elem_of_nil]%elem_of_cons; done.
        + by intros [_ (? & ? & _)].
      - intros tm1 p params. intros [?|?%elem_of_nil]%elem_of_cons; done. }
  rewrite (main_accepted execute connect tm1_logout files CONFIG argv sections path n Ha).
  cbv zeta. cbn [fst snd]. split.
  - intros name. rewrite elem_of_cons, !elem_of_app. split.
    + intros [?|[Hs|[Hw|[Hl|[He|Hr]]]]]; [done|..].
      * apply elem_of_section_events in Hs as (name' & params & Hin & Hev).
        split; [by exists path, n|]. exists sections. split; [done|].
        destruct Hev as [[= ->]|(? & _ & ?)]; [|done].
        by apply (list_elem_of_fmap_2 fst _ (name', params)).
      * apply (work_event_kinds execute files) in Hw
          as [(? & ? & ? & _)|(? & ? & ? & ?)]; done.
      * apply elem_of_logout_inv in Hl as (? & _ & ?). done.
      * destruct (match (logout _ _).2 with Ok _ => _ | Raise _ => _ end)
          as [[]|e]; [|by apply elem_of_nil in He].
        by apply list_elem_of_singleton in He.
      * apply list_elem_of_fmap in Hr as (? & ? & _). done.
    + intros [_ (? & [= <-] & ([name' params] & -> & Hin)%list_elem_of_fmap)].
      right. left. apply elem_of_section_events. exists name', params.
      split; [done|by left].
  - intros tm1 p params. rewrite elem_of_cons, !elem_of_app.
    intros [?|[Hs|[Hw|[Hl|[He|Hr]]]]]; [done|..].
    + apply elem_of_section_events in Hs
        as (? & ? & _ & [?|(? & _ & ?)]); done.
    + apply elem_of_work_through_tasks in Hw
        as (lines & line & Hfl & Hin & Hw & Hev).
      apply execute_in_line in Hev as (_ & i & He & Hs).
      apply lookup_connected_section in Hs as [(cp & Hsec & Hc)|Hs];
        [|by rewrite registry_lookup_empty in Hs].
      exists path, lines, line, sections, i, cp. split_and!; try done.
      unfold is_wait in Hw. by apply String.eqb_neq in Hw.
    + apply elem_of_logout_inv in Hl as (? & _ & ?). done.
    + destruct (match (logout _ _).2 with Ok _ => _ | Raise _ => _ end)
        as [[]|e]; [|by apply elem_of_nil in He].
      by apply list_elem_of_singleton in He.
    + apply list_elem_of_fmap in Hr as (? & ? & _). done.
Qed.

Lemma main_connects_and_calls_witness :
  ∃ path lines line sections instance_name params,
    ["RushTI.py"; "tasks.txt"; "1"] !! 1%nat = Some path
    ∧ Demo.files !! path = Some lines
    ∧ line ∈ lines ∧ Py.strip (Py.lower line) ≠ "wait"
    ∧ extract_info_from_line line = Ok (instance_name, "P3", ∅)
    ∧ Demo.config = Some sections ∧ (instance_name, params) ∈ sections
    ∧ Demo.connect instance_name params = inl 7.
Proof.
  destruct (main_connects_and_calls Demo.execute Demo.connect Demo.tm1_logout
              Demo.files
              "config.ini" ["RushTI.py"; "tasks.txt"; "1"] Demo.config)
    as [_ H].
  apply (H 7 "P3" ∅). vm_compute.
  do 11 apply list_elem_of_further. apply list_elem_of_here.
Defined.

(** X18: once the arguments are accepted, with [config.ini] there and its
    section names different from one another, the script logs out of the
    connections that the sections made, in the order of the sections, up
    to the first logout that raises, whether the run of the tasks returns
    or raises, and of nothing else.  When no logout raises it logs out of
    a connection exactly when a section made it.  A logout that raises is
    the last one: the connections made after it are not logged out, and
    the script ends with its exception. *)
Theorem main_logs_out {handle : Type}
    (execute : handle → string → gmap string string → N + string)
    (connect : string → gmap string string → handle + string)
    (tm1_logout : handle → result unit)
    (files : gmap string (list string)) (CONFIG : string)
    (argv : list string) (sections : list (string * gmap string string))
    (path max_workers : string) :
  argv !! 1%nat = Some path → argv !! 2%nat = Some max_workers →
  is_Some (files !! path) → Py.isdigit max_workers = true →
  NoDup sections.*1 →
  let r := main execute connect tm1_logout files CONFIG argv (Some sections) in
  logouts r.1 = logged_out tm1_logout (connections connect sections)
  ∧ (Forall (λ tm1, tm1_logout tm1 = Ok tt) (connections connect sections) →
     ∀ tm1, Logout tm1 ∈ r.1
            ↔ ∃ name params, (name, params) ∈ sections
                             ∧ connect name params = inl tm1)
  ∧ (∀ before tm1 after e,
       connections connect sections = before ++ tm1 :: after →
       Forall (λ tm1', tm1_logout tm1' = Ok tt) before →
       tm1_logout tm1 = Raise e →
       logouts r.1 = before ++ [tm1] ∧ r.2 = Raise e).
Proof.
  intros H1 H2 Hf Hd Hnd. cbv zeta.
  destruct (translate_cmd_arguments_cases (handle := handle) files argv)
    as [(path' & n & H1' & H2' & _ & _ & Ha)|(msg & _ & _ & Hno)].
  2:{ by destruct (Hno path max_workers). }
  rewrite (main_accepted execute connect tm1_logout files CONFIG argv sections
             path' n Ha).
  cbv zeta. cbn [fst snd].
  assert (logout tm1_logout (connected connect ∅ sections)
          = (Logout <$> logged_out tm1_logout (connections connect sections),
             first_raise tm1_logout (connections connect sections))) as Hout.
  { unfold logout. rewrite connected_values by done.
    rewrite <- logout_all_events, <- logout_all_result.
    by destruct (logout_all _ _). }
  rewrite Hout. cbn [fst snd].
  set (work := work_through_tasks execute files path' n
                 (connected connect ∅ sections)).
  set (res := match first_raise tm1_logout (connections connect sections) with
              | Ok _ => work.2
              | Raise e => Raise e
              end).
  assert (logouts
            (Log INFO (Msg_starts APPNAME argv)
             :: (sections ≫= section_events connect) ++ work.1
             ++ (Logout <$> logged_out tm1_logout (connections connect sections))
             ++ match res with
                | Ok _ => [Log INFO (Msg_ends APPNAME)]
                | Raise _ => []
                end
             ++ ((λ e, Log ERROR (Msg_never_retrieved e))
                 <$> reverse (abandoned_in execute files path' n
                                (connected connect ∅ sections))))
          = logged_out tm1_logout (connections connect sections)) as Hlog.
  { change (logouts (?ev :: ?t)) with (logouts ([ev] ++ t)).
    rewrite !logouts_app, logouts_logout.
    rewrite (logouts_nil [_]), (logouts_nil (_ ≫= _)), (logouts_nil work.1),
      (logouts_nil (match res with Ok _ => _ | Raise _ => _ end)),
      (logouts_nil (_ <$> reverse _)).
    - by rewrite app_nil_r.
    - intros ev (? & -> & _)%list_elem_of_fmap. done.
    - intros ev Hev. destruct res; [|by apply elem_of_nil in Hev].
      apply list_elem_of_singleton in Hev as ->. done.
    - intros ev Hev. apply (work_event_kinds execute files) in Hev
        as [(? & ? & -> & _)|(? & ? & ? & ->)]; done.
    - intros ev Hev. apply elem_of_section_events in Hev
        as (? & ? & _ & [->|(? & _ & ->)]); done.
    - intros ev Hev. apply list_elem_of_singleton in Hev as ->. done. }
  split_and!.
  - exact Hlog.
  - intros Hall tm1.
    assert (Logout tm1
            ∈ Log INFO (Msg_starts APPNAME argv)
              :: (sections ≫= section_events connect) ++ work.1
              ++ (Logout <$> logged_out tm1_logout
                               (connections connect sections))
              ++ match res with
                 | Ok _ => [Log INFO (Msg_ends APPNAME)]
                 | Raise _ => []
                 end
              ++ ((λ e, Log ERROR (Msg_never_retrieved e))
                  <$> reverse (abandoned_in execute files path' n
                                 (connected connect ∅ sections)))
            ↔ tm1 ∈ connections connect sections) as ->.
    { destruct (logged_out_all tm1_logout _ Hall) as [Hall' _].
      rewrite <- Hall' at 2. rewrite <- Hlog at 2. unfold logouts.
      rewrite list_elem_of_omap. split.
      - intros Hin. by exists (Logout tm1).
      - intros (ev & Hin & Hev). by destruct ev; simplify_eq. }
    unfold connections. rewrite list_elem_of_omap. split.
    + intros ([name params] & Hin & Hc). exists name, params.
      split; [done|]. by destruct (connect name params); simplify_eq.
    + intros (name & params & Hin & Hc). exists (name, params).
      split; [done|]. by rewrite Hc.
  - intros before tm1 after e Hv Hb He. rewrite Hlog. unfold res.
    rewrite Hv.
    by destruct (logged_out_stop tm1_logout before after tm1 e Hb He)
      as [-> ->].
Qed.

Lemma main_logs_out_witness :
  logouts (main Demo.execute Demo.connect_both Demo.failing_logout Demo.files
             "config.ini" ["RushTI.py"; "broken.txt"; "1"]
             (Some [("B", ∅); ("A", ∅)])).1 = [] ++ [8%nat]
  ∧ (main Demo.execute Demo.connect_both Demo.failing_logout Demo.files
       "config.ini" ["RushTI.py"; "broken.txt"; "1"]
       (Some [("B", ∅); ("A", ∅)])).2 = Raise (Exception "logout failed")
  ∧ Logout 7%nat
    ∈ (main Demo.execute Demo.connect Demo.tm1_logout Demo.files "config.ini"
         ["RushTI.py"; "broken.txt"; "1"] (Some [("A", ∅); ("B", ∅)])).1.
Proof.
  assert (NoDup ["B"; "A"] ∧ NoDup ["A"; "B"]) as [Hnd1 Hnd2].
  { split; (apply NoDup_cons; split; [|apply NoDup_singleton]);
      intros H%list_elem_of_singleton; discriminate. }
  destruct (main_logs_out Demo.execute Demo.connect_both Demo.failing_logout
              Demo.files "config.ini" ["RushTI.py"; "broken.txt"; "1"]
              [("B", ∅); ("A", ∅)] "broken.txt" "1")
    as (_ & _ & Hstop); [done|done|by eexists|done|done|].
  destruct (main_logs_out Demo.execute Demo.connect Demo.tm1_logout
              Demo.files "config.ini" ["RushTI.py"; "broken.txt"; "1"]
              [("A", ∅); ("B", ∅)] "broken.txt" "1")
    as (_ & Hall & _); [done|done|by eexists|done|done|].
  destruct (Hstop [] 8%nat [7%nat] (Exception "logout failed"))
    as [Hl Hr]; [done|done|done|].
  split_and!; [exact Hl|exact Hr|].
  apply Hall; [repeat constructor|].
  exists "A", ∅. split; [apply list_elem_of_here|done].
Defined.

(** ** The password *)

(** Arithmetic with division and remainder by constants. *)
Ltac nlia := zify; Z.to_euclidean_division_equations; lia.

Lemma lor_shiftl_add (x y k : N) :
  (y < 2 ^ k)%N → N.lor (N.shiftl x k) y = (x * 2 ^ k + y)%N.
Proof.
  intros Hy. rewrite N.shiftl_mul_pow2.
  assert (N.land (x * 2 ^ k) y = 0%N) as H0.
  { apply N.bits_inj. intros n. rewrite N.land_spec, N.bits_0.
    destruct (decide (n < k)%N) as [Hn|Hn].
    - by rewrite N.mul_pow2_bits_low by done.
    - destruct (decide (y = 0%N)) as [->|Hy0].
      { by rewrite N.bits_0, andb_false_r. }
      rewrite (N.bits_above_log2 y n), andb_false_r; [done|].
      apply N.log2_lt_pow2; [lia|].
      eapply N.lt_le_trans; [exact Hy|]. apply N.pow_le_mono_r; lia. }
  rewrite <- N.lxor_lor by done. symmetry. by apply N.add_nocarry_lxor.
Qed.

(** Shifts, masks and disjoint unions as arithmetic. *)
Lemma shiftr_div (a k : N) : N.shiftr a k = (a / 2 ^ k)%N.
Proof. apply N.shiftr_div_pow2. Qed.
Lemma shiftl_mul (a k : N) : N.shiftl a k = (a * 2 ^ k)%N.
Proof. apply N.shiftl_mul_pow2. Qed.
Lemma land_mod (a k : N) : N.land a (N.ones k) = (a mod 2 ^ k)%N.
Proof. apply N.land_ones. Qed.
Lemma lor_add (k x y : N) :
  (y < 2 ^ k)%N → N.lor (x * 2 ^ k) y = (x * 2 ^ k + y)%N.
Proof. intros H. rewrite <- lor_shiftl_add by done. by rewrite shiftl_mul. Qed.

Lemma lor_const (k c y : N) :
  (c mod 2 ^ k = 0)%N → (y < 2 ^ k)%N → N.lor c y = (c + y)%N.
Proof.
  intros Hc Hy. rewrite (N.div_mod c (2 ^ k)) at 1 2 by lia.
  rewrite Hc, N.add_0_r, (N.mul_comm (2 ^ k)). by apply lor_add.
Qed.

(** Turns the shifts and masks of the goal into arithmetic. *)
Ltac pow2 :=
  repeat match goal with
    | |- context [(2 ^ ?k)%N] =>
        let v := eval cbv in (2 ^ k)%N in change (2 ^ k)%N with v
    end.

Ltac bits :=
  repeat match goal with
    | |- context [N.shiftr ?a ?k] => rewrite (shiftr_div a k); pow2
    | |- context [N.shiftl ?a ?k] => rewrite (shiftl_mul a k); pow2
    | |- context [N.land ?a ?m] =>
        let k := eval cbv in (N.log2 (m + 1)) in
        change (N.land a m) with (N.land a (N.ones k));
        rewrite (land_mod a k); pow2
    end;
  repeat match goal with
    | |- context [N.lor (?x * ?c) ?y] =>
        let k := eval cbv in (N.log2 c) in
        replace (N.lor (x * c) y) with (x * c + y)%N
          by (symmetry; apply (lor_add k x y); pow2; nlia)
    | |- context [N.lor ?c ?y] =>
        first
          [ replace (N.lor c y) with (c + y)%N
              by (symmetry; apply (lor_const 6 c y); [reflexivity|pow2; nlia])
          | replace (N.lor c y) with (c + y)%N
              by (symmetry; apply (lor_const 4 c y); [reflexivity|pow2; nlia])
          | replace (N.lor c y) with (c + y)%N
              by (symmetry; apply (lor_const 3 c y); [reflexivity|pow2; nlia]) ]
    end.

(** Settles the comparisons of the goal that arithmetic decides. *)
Ltac settle :=
  repeat match goal with
    | |- context [(?x <? ?y)%N] =>
        first [ rewrite (proj2 (N.ltb_lt x y)) by nlia
              | rewrite (proj2 (N.ltb_ge x y)) by nlia ]
    | |- context [(?x <=? ?y)%N] =>
        first [ rewrite (proj2 (N.leb_le x y)) by nlia
              | rewrite (proj2 (N.leb_gt x y)) by nlia ]
    | |- context [(?x =? ?y)%N] =>
        first [ rewrite (proj2 (N.eqb_eq x y)) by nlia
              | rewrite (proj2 (N.eqb_neq x y)) by nlia ]
    end.

Module Base64_facts.
Import Base64.

Lemma three_bytes (a b c : N) :
  (a < 256)%N → (b < 256)%N → (c < 256)%N →
  let v1 := N.shiftr a 2 in
  let v2 := N.lor (N.shiftl (N.land a 3) 4) (N.shiftr b 4) in
  let v3 := N.lor (N.shiftl (N.land b 15) 2) (N.shiftr c 6) in
  let v4 := N.land c 63 in
  (v1 < 64 ∧ v2 < 64 ∧ v3 < 64 ∧ v4 < 64)%N
  ∧ byte (N.lor (N.shiftl v1 2) (N.shiftr v2 4)) = a
  ∧ byte (N.lor (N.shiftl (N.land v2 15) 4) (N.shiftr v3 2)) = b
  ∧ byte (N.lor (N.shiftl (N.land v3 3) 6) v4) = c.
Proof.
  intros Ha Hb Hc. cbv zeta. unfold byte. split_and!; bits; nlia.
Qed.

(** A property of the numbers below 64, by running through them. *)
Lemma below_64 (p : N → bool) :
  forallb (λ n, p (N.of_nat n)) (seq 0 64) = true →
  ∀ v, (v < 64)%N → p v = true.
Proof.
  intros H v Hv. rewrite forallb_forall in H.
  rewrite <- (N2Nat.id v). apply H, in_seq. lia.
Qed.

Lemma table_b2a_a2b (v : N) :
  (v < 64)%N →
  table_a2b_base64 (table_b2a_base64 v) = Some v
  ∧ (table_b2a_base64 v =? BASE64_PAD)%N = false
  ∧ (table_b2a_base64 v < 128)%N.
Proof.
  intros Hv.
  pose proof (below_64
    (λ v, bool_decide (table_a2b_base64 (table_b2a_base64 v) = Some v)
          && negb (table_b2a_base64 v =? BASE64_PAD)%N
          && (table_b2a_base64 v <? 128)%N) eq_refl v Hv) as H.
  apply andb_true_iff in H as [H H3]. apply andb_true_iff in H as [H1 H2].
  apply bool_decide_eq_true in H1. apply negb_true_iff in H2.
  by apply N.ltb_lt in H3.
Qed.

(** One character of the alphabet, read in each of the four positions. *)
Lemma a2b_loop_char (v : N) (rest : list N) (quad_pos : nat) (leftchar : N)
    (pads n_out : nat) :
  (v < 64)%N →
  a2b_loop (table_b2a_base64 v :: rest) quad_pos leftchar pads n_out
  = match quad_pos with
    | 0%nat => a2b_loop rest 1 v 0 n_out
    | 1%nat =>
        decoded_bind (a2b_loop rest 2 (N.land v 15) 0 (S n_out))
          (λ out, Decoded
             (byte (N.lor (N.shiftl leftchar 2) (N.shiftr v 4)) :: out))
    | 2%nat =>
        decoded_bind (a2b_loop rest 3 (N.land v 3) 0 (S n_out))
          (λ out, Decoded
             (byte (N.lor (N.shiftl leftchar 4) (N.shiftr v 2)) :: out))
    | _ =>
        decoded_bind (a2b_loop rest 0 0 0 (S n_out))
          (λ out, Decoded (byte (N.lor (N.shiftl leftchar 6) v) :: out))
    end.
Proof.
  intros Hv. destruct (table_b2a_a2b v Hv) as (Ht & Hp & _).
  cbn [a2b_loop]. by rewrite Hp, Ht.
Qed.

Lemma list_ind3 {A} (P : list A → Prop) :
  P [] → (∀ a, P [a]) → (∀ a b, P [a; b]) →
  (∀ a b c l, P l → P (a :: b :: c :: l)) →
  ∀ l, P l.
Proof.
  intros H0 H1 H2 H3.
  assert (∀ l, P l ∧ (∀ a, P (a :: l)) ∧ ∀ a b, P (a :: b :: l)) as H.
  { induction l as [|c l (IH0 & IH1 & IH2)]; [done|]. split_and!; auto. }
  intros l. apply H.
Qed.

(** Decoding undoes encoding, and the encoding is ASCII. *)
Lemma a2b_b2a (data : list N) :
  Forall (λ b, b < 256)%N data →
  Forall (λ c, c < 128)%N (b2a_base64 data)
  ∧ ∀ n_out, a2b_loop (b2a_base64 data) 0 0 0 n_out = Decoded data.
Proof.
  induction data as [|a|a b|a b c data IH] using list_ind3; intros Hd.
  - done.
  - apply Forall_cons in Hd as [Ha _].
    destruct (three_bytes a 0 0) as ((H1 & H2 & _) & E1 & _); [done..|].
    change (N.shiftr 0 4) with 0%N in *. rewrite N.lor_0_r in *.
    cbn [b2a_base64]. split.
    + repeat constructor; try done; by apply table_b2a_a2b.
    + intros n. rewrite !a2b_loop_char by done. simpl. by rewrite E1.
  - apply Forall_cons in Hd as [Ha Hd]. apply Forall_cons in Hd as [Hb _].
    destruct (three_bytes a b 0) as ((H1 & H2 & H3 & _) & E1 & E2 & _);
      [done..|].
    change (N.shiftr 0 6) with 0%N in *. rewrite N.lor_0_r in *.
    cbn [b2a_base64]. split.
    + repeat constructor; try done; by apply table_b2a_a2b.
    + intros n. rewrite !a2b_loop_char by done. simpl. by rewrite E1, E2.
  - apply Forall_cons in Hd as [Ha Hd]. apply Forall_cons in Hd as [Hb Hd].
    apply Forall_cons in Hd as [Hc Hd]. destruct (IH Hd) as [IH1 IH2].
    destruct (three_bytes a b c) as ((H1 & H2 & H3 & H4) & E1 & E2 & E3);
      [done..|].
    cbn [b2a_base64]. split.
    + repeat constructor; try done; by apply table_b2a_a2b.
    + intros n. rewrite !a2b_loop_char by done. rewrite IH2. simpl.
      by rewrite E1, E2, E3.
Qed.

(** A character outside the alphabet is passed over. *)
Lemma a2b_loop_skip (l1 l2 : list N) (c : N) (quad_pos : nat) (leftchar : N)
    (pads n_out : nat) :
  base64_char c = false →
  a2b_loop (l1 ++ c :: l2) quad_pos leftchar pads n_out
  = a2b_loop (l1 ++ l2) quad_pos leftchar pads n_out.
Proof.
  unfold base64_char. intros [Hp Ht]%orb_false_iff.
  apply bool_decide_eq_false in Ht.
  assert (table_a2b_base64 c = None) as Hn.
  { destruct (table_a2b_base64 c); [|done]. destruct Ht. by eexists. }
  revert quad_pos leftchar pads n_out.
  induction l1 as [|x l1 IH]; intros q lc p n.
  { simpl. by rewrite Hp, Hn. }
  rewrite <- !app_comm_cons. cbn [a2b_loop].
  destruct (x =? BASE64_PAD)%N;
    [destruct (2 <=? q)%nat; [destruct (4 <=? q + S p)%nat|]
    |destruct (table_a2b_base64 x); [destruct q as [|[|[|]]]|]];
    by rewrite ?IH.
Qed.

Lemma bytes_from_decode_data_app (s1 s2 : string) :
  bytes_from_decode_data (s1 +:+ s2)
  = decoded_bind (bytes_from_decode_data s1) (λ l1,
    decoded_bind (bytes_from_decode_data s2) (λ l2, Decoded (l1 ++ l2))).
Proof.
  induction s1 as [|c s1 IH].
  { rewrite string_app_nil_l. simpl. by destruct (bytes_from_decode_data s2). }
  rewrite string_app_cons. simpl. destruct (Py.ord c <? 128)%N; [|done].
  rewrite IH. destruct (bytes_from_decode_data s1); [|done]. simpl.
  by destruct (bytes_from_decode_data s2).
Qed.

Lemma bytes_from_decode_data_text (codes : list N) :
  Forall (λ c, c < 128)%N codes →
  bytes_from_decode_data (text_of_codes codes) = Decoded codes.
Proof.
  induction 1 as [|c codes Hc _ IH]; [done|]. simpl. unfold Py.ord.
  rewrite N_ascii_embedding by lia. apply N.ltb_lt in Hc. rewrite Hc, IH.
  done.
Qed.

(** The input is refused as not ASCII exactly when it holds a character
    from 128 on. *)
Lemma bytes_from_decode_data_ascii (s : string) :
  if Py.all_chars (λ c, Py.ord c <? 128)%N s
  then ∃ bytes, bytes_from_decode_data s = Decoded bytes
  else bytes_from_decode_data s = Failed Not_ascii.
Proof.
  induction s as [|c s IH]; simpl; [by eexists|].
  destruct (Py.ord c <? 128)%N; simpl; [|done].
  destruct (Py.all_chars _ s).
  - destruct IH as [bytes ->]. by eexists.
  - by rewrite IH.
Qed.

(** Input of alphabet characters only: what the loop gives depends on
    their number. *)
Lemma a2b_loop_alphabet (data : list N) (quad_pos : nat) (leftchar : N)
    (pads n_out : nat) :
  Forall (λ c, is_Some (table_a2b_base64 c)) data →
  (quad_pos = 0 ∧ n_out `mod` 3 = 0 ∨ quad_pos = 1 ∧ n_out `mod` 3 = 0
   ∨ quad_pos = 2 ∧ n_out `mod` 3 = 1 ∨ quad_pos = 3 ∧ n_out `mod` 3 = 2)%nat →
  let total := (n_out `div` 3 * 4 + quad_pos + length data)%nat in
  match (total `mod` 4)%nat with
  | 0%nat =>
      ∃ bytes, a2b_loop data quad_pos leftchar pads n_out = Decoded bytes
               ∧ (n_out + length bytes = total `div` 4 * 3)%nat
  | 1%nat =>
      a2b_loop data quad_pos leftchar pads n_out
      = Failed (Data_characters total)
  | _ => a2b_loop data quad_pos leftchar pads n_out = Failed Incorrect_padding
  end.
Proof.
  intros Hd. revert quad_pos leftchar pads n_out.
  induction Hd as [|c data [v Hv] _ IH]; intros q lc p n Hq; cbv zeta.
  { simpl length.
    destruct Hq as [[-> Hn]|[[-> Hn]|[[-> Hn]|[-> Hn]]]].
    - replace ((n `div` 3 * 4 + 0 + 0) `mod` 4)%nat with 0%nat by nlia.
      exists []. split; [done|]. cbn [length]. nlia.
    - replace ((n `div` 3 * 4 + 1 + 0) `mod` 4)%nat with 1%nat by nlia.
      simpl. do 2 f_equal. nlia.
    - by replace ((n `div` 3 * 4 + 2 + 0) `mod` 4)%nat with 2%nat by nlia.
    - by replace ((n `div` 3 * 4 + 3 + 0) `mod` 4)%nat with 3%nat by nlia. }
  assert ((c =? BASE64_PAD)%N = false) as Hp.
  { apply N.eqb_neq. intros ->. by vm_compute in Hv. }
  cbn [a2b_loop]. rewrite Hp, Hv. simpl length.
  destruct Hq as [[-> Hn]|[[-> Hn]|[[-> Hn]|[-> Hn]]]].
  - specialize (IH 1%nat v 0%nat n). cbv zeta in IH.
    replace (n `div` 3 * 4 + 0 + S (length data))%nat
      with (n `div` 3 * 4 + 1 + length data)%nat by nlia.
    apply IH. auto.
  - specialize (IH 2%nat (N.land v 15) 0%nat (S n)). cbv zeta in IH.
    replace (n `div` 3 * 4 + 1 + S (length data))%nat
      with (S n `div` 3 * 4 + 2 + length data)%nat by nlia.
    destruct (_ `mod` 4)%nat as [|[|?]].
    + destruct IH as (bytes & -> & Hlen); [nlia|]. eexists. split; [done|].
      cbn [length]. nlia.
    + rewrite IH by nlia. done.
    + rewrite IH by nlia. done.
  - specialize (IH 3%nat (N.land v 3) 0%nat (S n)). cbv zeta in IH.
    replace (n `div` 3 * 4 + 2 + S (length data))%nat
      with (S n `div` 3 * 4 + 3 + length data)%nat by nlia.
    destruct (_ `mod` 4)%nat as [|[|?]].
    + destruct IH as (bytes & -> & Hlen); [nlia|]. eexists. split; [done|].
      cbn [length]. nlia.
    + rewrite IH by nlia. done.
    + rewrite IH by nlia. done.
  - specialize (IH 0%nat 0%N 0%nat (S n)). cbv zeta in IH.
    replace (n `div` 3 * 4 + 3 + S (length data))%nat
      with (S n `div` 3 * 4 + 0 + length data)%nat by nlia.
    destruct (_ `mod` 4)%nat as [|[|?]].
    + destruct IH as (bytes & -> & Hlen); [nlia|]. eexists. split; [done|].
      cbn [length]. nlia.
    + rewrite IH by nlia. done.
    + rewrite IH by nlia. done.
Qed.

(** Only the check of the characters says that the input is not ASCII. *)
Lemma a2b_loop_ascii (data : list N) (quad_pos : nat) (leftchar : N)
    (pads n_out : nat) :
  Base64.a2b_loop data quad_pos leftchar pads n_out ≠ Failed Not_ascii.
Proof.
  revert quad_pos leftchar pads n_out.
  induction data as [|c data IH]; intros q lc p n.
  { by destruct q as [|[|q]]. }
  cbn [Base64.a2b_loop].
  assert (∀ q lc p n (f : list N → list N),
            decoded_bind (Base64.a2b_loop data q lc p n)
              (λ out, Decoded (f out)) ≠ Failed Not_ascii) as Hb.
  { intros q' lc' p' n' f.
    destruct (Base64.a2b_loop data q' lc' p' n') eqn:E; [done|].
    simpl. intros [= ->]. by apply IH in E. }
  repeat case_match; try done; try apply IH; apply Hb.
Qed.

Lemma bytes_from_decode_data_alphabet (s : string) :
  Py.all_chars alphabet s = true →
  ∃ data, Base64.bytes_from_decode_data s = Decoded data
          ∧ length data = String.length s
          ∧ Forall (λ c, is_Some (Base64.table_a2b_base64 c)) data.
Proof.
  induction s as [|c s IH]; simpl; [by eexists|].
  intros [Hc Hs]%andb_true_iff. destruct (IH Hs) as (data & -> & Hl & Hd).
  unfold alphabet in Hc. apply bool_decide_eq_true in Hc.
  assert ((Py.ord c <? 128)%N = true) as ->.
  { destruct (N.ltb_spec (Py.ord c) 128) as [|Hge]; [done|].
    destruct Hc as [v Hv]. revert Hv. unfold Base64.table_a2b_base64.
    settle. by cbn. }
  simpl. eexists. split_and!; [done|simpl; lia|by constructor].
Qed.

End Base64_facts.

Module Utf8_facts.
Import Utf8.

Lemma utf8_decode_encode_point (cp : N) (rest : list N) (pos size : nat) :
  scalar cp →
  ∃ pos',
    utf8_decode (encode_point cp ++ rest) pos size
    = decoded_bind (utf8_decode rest pos' size) (λ out, Decoded (cp :: out)).
Proof.
  intros Hcp. unfold scalar in Hcp. unfold encode_point.
  destruct (N.ltb_spec cp 128) as [H1|H1].
  { simpl. apply N.ltb_lt in H1. rewrite H1. by eexists. }
  destruct (N.ltb_spec cp 2048) as [H2|H2].
  { assert (N.lor 192 (N.shiftr cp 6) = 192 + cp / 64)%N as ->
      by (bits; nlia).
    assert (N.lor 128 (N.land cp 63) = 128 + cp mod 64)%N as ->
      by (bits; nlia).
    cbn [app utf8_decode]. unfold is_continuation, low6. settle.
    cbn [negb andb orb]. eexists. f_equal.
    assert (N.lor (N.shiftl (N.land (192 + cp / 64) 31) 6)
              (N.land (128 + cp mod 64) 63) = cp) as ->
      by (bits; nlia).
    done. }
  destruct (N.ltb_spec cp 65536) as [H3|H3].
  { assert (N.lor 224 (N.shiftr cp 12) = 224 + cp / 4096)%N as ->
      by (bits; nlia).
    assert (N.lor 128 (N.land (N.shiftr cp 6) 63) = 128 + (cp / 64) mod 64)%N
      as -> by (bits; nlia).
    assert (N.lor 128 (N.land cp 63) = 128 + cp mod 64)%N as ->
      by (bits; nlia).
    cbn [app utf8_decode]. unfold is_continuation, low6. settle.
    cbn [negb andb orb].
    assert (N.lor (N.shiftl (N.land (224 + cp / 4096) 15) 12)
              (N.lor (N.shiftl (N.land (128 + (cp / 64) mod 64) 63) 6)
                 (N.land (128 + cp mod 64) 63)) = cp) as ->
      by (bits; nlia).
    destruct (N.ltb_spec (128 + (cp / 64) mod 64) 160); settle;
      cbn [negb andb orb]; by eexists. }
  assert (N.lor 240 (N.shiftr cp 18) = 240 + cp / 262144)%N as ->
    by (bits; nlia).
  assert (N.lor 128 (N.land (N.shiftr cp 12) 63) = 128 + (cp / 4096) mod 64)%N
    as -> by (bits; nlia).
  assert (N.lor 128 (N.land (N.shiftr cp 6) 63) = 128 + (cp / 64) mod 64)%N
    as -> by (bits; nlia).
  assert (N.lor 128 (N.land cp 63) = 128 + cp mod 64)%N as ->
    by (bits; nlia).
  cbn [app utf8_decode]. unfold is_continuation, low6. settle.
  cbn [negb andb orb].
  assert (N.lor (N.shiftl (N.land (240 + cp / 262144) 7) 18)
            (N.lor (N.shiftl (N.land (128 + (cp / 4096) mod 64) 63) 12)
               (N.lor (N.shiftl (N.land (128 + (cp / 64) mod 64) 63) 6)
                  (N.land (128 + cp mod 64) 63))) = cp) as ->
    by (bits; nlia).
  destruct (N.ltb_spec (128 + (cp / 4096) mod 64) 144); settle;
    cbn [negb andb orb]; by eexists.
Qed.

Lemma is_continuation_cases (ch : N) :
  (is_continuation ch = true ∧ (128 ≤ ch < 192)%N)
  ∨ is_continuation ch = false.
Proof.
  unfold is_continuation.
  destruct (N.leb_spec 128 ch), (N.ltb_spec ch 192); simpl; auto with lia.
Qed.

Lemma encode_cons (cp : N) (text : list N) :
  encode (cp :: text) = encode_point cp ++ encode text.
Proof. done. Qed.

(** What the decoder accepts is the encoding of scalar values. *)
Lemma utf8_decode_inv (n : nat) (bs : list N) (pos size : nat)
    (text : list N) :
  (length bs ≤ n)%nat → utf8_decode bs pos size = Decoded text →
  Forall scalar text ∧ encode text = bs.
Proof.
  revert bs pos size text.
  induction n as [|n IH]; intros bs pos size text Hn.
  { destruct bs; [|simpl in Hn; lia]. simpl. by intros [= <-]. }
  destruct bs as [|ch s1]. { simpl. by intros [= <-]. }
  cbn [utf8_decode]. simpl in Hn.
  assert (∀ cp consumed s' pos',
            (length s' < length (ch :: s1))%nat →
            scalar cp → encode_point cp = consumed →
            decoded_bind (utf8_decode s' pos' size)
              (λ out, Decoded (cp :: out)) = Decoded text →
            Forall scalar text ∧ encode text = consumed ++ s') as Hpoint.
  { intros cp consumed s' pos' Hlen Hcp Henc.
    destruct (utf8_decode s' pos' size) as [out|] eqn:E; [|done]. simpl.
    intros [= <-]. apply IH in E as [Hs He]; [|simpl in Hlen; lia].
    split; [by constructor|]. by rewrite encode_cons, Henc, He. }
  destruct (N.ltb_spec ch 128) as [H1|H1].
  { apply (Hpoint ch [ch] s1); [simpl; lia|left; lia|].
    unfold encode_point. by settle. }
  destruct (N.ltb_spec ch 224) as [H2|H2].
  { destruct (N.ltb_spec ch 194) as [H2'|H2']; [done|].
    destruct s1 as [|ch2 s2]; [done|].
    destruct (is_continuation_cases ch2) as [[-> Hc2]| ->]; [|done].
    cbn [negb]. unfold low6.
    apply (Hpoint _ [ch; ch2] s2); [simpl; lia|unfold scalar; bits; nlia|].
    unfold encode_point. bits. settle. repeat (f_equal; try nlia). }
  assert (∀ ch2 ch3 s3 (cond : bool) pos2 pos3 e,
            (length s3 + 2 < length (ch :: s1))%nat →
            (cond = false → (128 ≤ ch2 < 192)%N → (128 ≤ ch3 < 192)%N →
               scalar (N.lor (N.shiftl (N.land ch 15) 12)
                         (N.lor (N.shiftl (low6 ch2) 6) (low6 ch3)))
               ∧ encode_point
                   (N.lor (N.shiftl (N.land ch 15) 12)
                      (N.lor (N.shiftl (low6 ch2) 6) (low6 ch3)))
                 = [ch; ch2; ch3]) →
            (if negb (is_continuation ch2) || cond
             then Failed e
             else
               if negb (is_continuation ch3)
               then Failed (Invalid_continuation_byte pos2 pos3)
               else decoded_bind (utf8_decode s3 (pos + 3) size)
                      (λ out, Decoded
                         (N.lor (N.shiftl (N.land ch 15) 12)
                            (N.lor (N.shiftl (low6 ch2) 6) (low6 ch3))
                          :: out))) = Decoded text →
            Forall scalar text ∧ encode text = ch :: ch2 :: ch3 :: s3)
    as Hthree.
  { intros ch2 ch3 s3 cond pos2 pos3 e Hlen Hok.
    destruct (is_continuation_cases ch2) as [[-> Hc2]| ->]; [|done].
    destruct cond; [done|]. cbn [negb orb].
    destruct (is_continuation_cases ch3) as [[-> Hc3]| ->]; [|done].
    cbn [negb]. destruct (Hok eq_refl Hc2 Hc3) as [Hs He].
    apply (Hpoint _ [ch; ch2; ch3] s3); [simpl in *; lia|done..]. }
  destruct (N.ltb_spec ch 240) as [H3|H3].
  { destruct s1 as [|ch2 [|ch3 s3]]; [done| |].
    { destruct (negb _ || _); done. }
    apply Hthree; [simpl; lia|]. intros Hcond Hc2 Hc3.
    assert ((ch = 224 → 160 ≤ ch2) ∧ (ch = 237 → ch2 < 160))%N as [He0 Hed].
    { destruct (N.ltb_spec ch2 160).
      - apply N.eqb_neq in Hcond. split; [done|lia].
      - apply N.eqb_neq in Hcond. split; [lia|done]. }
    unfold low6. split.
    - unfold scalar. bits. nlia.
    - unfold encode_point. bits. settle. repeat (f_equal; try nlia). }
  destruct (N.ltb_spec ch 245) as [H4|H4]; [|done].
  destruct s1 as [|ch2 [|ch3 [|ch4 s4]]]; [done| | |].
  1,2: repeat case_match; done.
  destruct (is_continuation_cases ch2) as [[-> Hc2]| ->]; [|done].
  cbn [negb orb].
  destruct (if (ch2 <? 144)%N then (ch =? 240)%N else (ch =? 244)%N) eqn:Hcond;
    [done|].
  destruct (is_continuation_cases ch3) as [[-> Hc3]| ->]; [|done].
  destruct (is_continuation_cases ch4) as [[-> Hc4]| ->]; [|done].
  cbn [negb].
  assert ((ch = 240 → 144 ≤ ch2) ∧ (ch = 244 → ch2 < 144))%N as [Hf0 Hf4].
  { destruct (N.ltb_spec ch2 144).
    - apply N.eqb_neq in Hcond. split; [done|lia].
    - apply N.eqb_neq in Hcond. split; [lia|done]. }
  unfold low6.
  apply (Hpoint _ [ch; ch2; ch3; ch4] s4); [simpl; lia| |].
  - unfold scalar. bits. nlia.
  - unfold encode_point. bits. settle. repeat (f_equal; try nlia).
Qed.

Lemma encode_point_bytes (cp : N) :
  scalar cp → Forall (λ b, b < 256)%N (encode_point cp).
Proof.
  unfold scalar, encode_point. intros Hcp.
  destruct (N.ltb_spec cp 128); [|destruct (N.ltb_spec cp 2048);
    [|destruct (N.ltb_spec cp 65536)]];
    repeat (apply Forall_cons; split; [bits; nlia|]); by constructor.
Qed.

Lemma encode_bytes (text : list N) :
  Forall scalar text → Forall (λ b, b < 256)%N (encode text).
Proof.
  induction 1 as [|cp text Hcp _ IH]; [constructor|].
  rewrite encode_cons. apply Forall_app. split; [|done].
  by apply encode_point_bytes.
Qed.

Lemma utf8_decode_encode (text : list N) (pos size : nat) :
  Forall scalar text → utf8_decode (encode text) pos size = Decoded text.
Proof.
  intros H. revert pos. induction H as [|cp text Hcp _ IH]; intros pos.
  { done. }
  rewrite encode_cons.
  destruct (utf8_decode_encode_point cp (encode text) pos size Hcp)
    as [pos' ->].
  by rewrite IH.
Qed.

(** The decoder accepts the encodings of the texts of scalar values, and
    nothing else. *)
Lemma decode_iff (bs text : list N) :
  decode bs = Decoded text ↔ Forall scalar text ∧ encode text = bs.
Proof.
  unfold decode. split.
  - by apply (utf8_decode_inv (length bs)).
  - intros [Hs <-]. by apply utf8_decode_encode.
Qed.

Lemma utf8_decode_ascii (n : nat) (bs : list N) (pos size : nat) :
  (length bs ≤ n)%nat → Utf8.utf8_decode bs pos size ≠ Failed Not_ascii.
Proof.
  revert bs pos. induction n as [|n IH]; intros bs pos Hn.
  { destruct bs; [done|simpl in Hn; lia]. }
  assert (∀ s' pos' (cp : N),
            (length s' ≤ n)%nat →
            decoded_bind (Utf8.utf8_decode s' pos' size)
              (λ out, Decoded (cp :: out)) ≠ Failed Not_ascii) as Hb.
  { intros s' pos' cp Hlen.
    destruct (Utf8.utf8_decode s' pos' size) eqn:E; [done|].
    simpl. intros [= ->]. by apply IH in E. }
  destruct bs as [|ch s1]; [done|]. cbn [Utf8.utf8_decode]. simpl in Hn.
  repeat case_match; try done; apply Hb; subst; simpl in *; lia.
Qed.

End Utf8_facts.

(** X19: the password is what the base64 text encodes: encoding a text of
    Unicode scalar values as UTF-8 and then as base64, and decrypting the
    result, gives the text back. *)
Theorem decrypt_password_b64encode (text : list N) :
  Forall scalar text →
  decrypt_password (b64encode (Utf8.encode text)) = Decoded text.
Proof.
  intros Hs. unfold decrypt_password, b64encode, Base64.b64decode.
  destruct (Base64_facts.a2b_b2a (Utf8.encode text)) as [Hascii Hdec].
  { by apply Utf8_facts.encode_bytes. }
  rewrite Base64_facts.bytes_from_decode_data_text by done. simpl.
  unfold Base64.a2b_base64. rewrite Hdec. simpl.
  by apply Utf8_facts.decode_iff.
Qed.

Lemma decrypt_password_b64encode_witness :
  b64encode (Utf8.encode some_password) = "UMOp4oKs8J+YgA=="
  ∧ decrypt_password "UMOp4oKs8J+YgA==" = Decoded some_password.
Proof.
  split; [by vm_compute|].
  apply (decrypt_password_b64encode some_password).
  unfold some_password, scalar. repeat constructor; lia.
Defined.

(** X20: a character that is ASCII and neither of the base64 alphabet nor
    the padding character, such as a blank or a line feed, changes nothing
    wherever it stands in the encrypted password. *)
Theorem decrypt_password_skips (s1 s2 : string) (c : ascii) :
  (Py.ord c < 128)%N → base64_char (Py.ord c) = false →
  decrypt_password (s1 +:+ String c s2) = decrypt_password (s1 +:+ s2).
Proof.
  intros Hc Hb. unfold decrypt_password, Base64.b64decode. f_equal.
  rewrite !Base64_facts.bytes_from_decode_data_app.
  destruct (Base64.bytes_from_decode_data s1) as [l1|]; [|done]. simpl.
  apply N.ltb_lt in Hc. rewrite Hc.
  destruct (Base64.bytes_from_decode_data s2) as [l2|]; [|done]. simpl.
  by apply Base64_facts.a2b_loop_skip.
Qed.

Lemma decrypt_password_skips_witness :
  decrypt_password ("UMOp4oKs" +:+ String (ascii_of_N 10) "8J+YgA==")
  = decrypt_password ("UMOp4oKs" +:+ "8J+YgA==").
Proof. apply decrypt_password_skips; by vm_compute. Defined.

(** X21: what [decrypt_password] returns is a text of Unicode scalar values
    whose UTF-8 encoding is, byte for byte, what the base64 text decodes
    to: no surrogate, nothing above U+10FFFF and no other encoding of a
    character is accepted.  It fails as not ASCII exactly when the input
    holds a character from 128 on. *)
Theorem decrypt_password_accepts (encrypted_password : string) :
  (∀ text,
     decrypt_password encrypted_password = Decoded text
     ↔ Forall scalar text
       ∧ Base64.b64decode encrypted_password = Decoded (Utf8.encode text))
  ∧ (decrypt_password encrypted_password = Failed Not_ascii
     ↔ Py.all_chars (λ c, Py.ord c <? 128)%N encrypted_password = false).
Proof.
  unfold decrypt_password. split.
  - intros text.
    destruct (Base64.b64decode encrypted_password) as [bytes|e]; simpl.
    + rewrite Utf8_facts.decode_iff. split; intros [Hs He]; split; congruence.
    + split; [done|]. by intros [_ ?].
  - unfold Base64.b64decode.
    pose proof (Base64_facts.bytes_from_decode_data_ascii encrypted_password)
      as Ha.
    destruct (Py.all_chars _ encrypted_password).
    + destruct Ha as [bytes ->]. simpl. split; [|done]. intros H. exfalso.
      unfold Base64.a2b_base64 in H.
      destruct (Base64.a2b_loop bytes 0 0 0 0) as [raw|e] eqn:E; simpl in H.
      * by apply (Utf8_facts.utf8_decode_ascii (length raw)) in H.
      * injection H as ->. by apply Base64_facts.a2b_loop_ascii in E.
    + by rewrite Ha.
Qed.

(** X22: the padding cannot be left out.  Of an encrypted password made of
    characters of the base64 alphabet only, [b64decode] gives three bytes
    for every four characters when their number is a multiple of four;
    otherwise [decrypt_password] fails: with one character too many for a
    multiple of four, on the number of characters, and else on the
    padding. *)
Theorem decrypt_password_unpadded (encrypted_password : string) :
  Py.all_chars alphabet encrypted_password = true →
  let n := String.length encrypted_password in
  match (n `mod` 4)%nat with
  | 0%nat =>
      ∃ bytes, Base64.b64decode encrypted_password = Decoded bytes
               ∧ length bytes = (n `div` 4 * 3)%nat
  | 1%nat =>
      decrypt_password encrypted_password = Failed (Data_characters n)
  | _ => decrypt_password encrypted_password = Failed Incorrect_padding
  end.
Proof.
  intros Ha. cbv zeta.
  destruct (Base64_facts.bytes_from_decode_data_alphabet _ Ha) as (data & Hd & Hl & Hf).
  unfold decrypt_password, Base64.b64decode. rewrite Hd.
  cbn [decoded_bind].
  pose proof (Base64_facts.a2b_loop_alphabet data 0 0 0 0 Hf
                (or_introl (conj eq_refl eq_refl))) as H. cbv zeta in H.
  rewrite Hl in H. change (0 `div` 3 * 4 + 0 + ?x)%nat with x in H.
  unfold Base64.a2b_base64.
  destruct (_ `mod` 4)%nat as [|[|?]].
  - destruct H as (bytes & -> & Hlen). by exists bytes.
  - by rewrite H.
  - by rewrite H.
Qed.

Lemma decrypt_password_unpadded_witness :
  decrypt_password "UMOp4oKs8J+YgA" = Failed Incorrect_padding
  ∧ decrypt_password "UMOp4" = Failed (Data_characters 5).
Proof.
  split.
  - by apply (decrypt_password_unpadded "UMOp4oKs8J+YgA").
  - by apply (decrypt_password_unpadded "UMOp4").
Defined.
